(** * MIGA gateway: routing fabric, INFER reasoning engine, intent front-end

    A shallow embedding of the Python sources of the MIGA MCP gateway and
    theorems about it.  Each module below mirrors one source file and keeps
    the names of the functions it embeds.

    Conventions of the embedding:
    - a [datetime] is its number of microseconds since the epoch (a [Z]);
      a [timedelta.total_seconds()] is the rational [us / 10^6];
    - Python floats are exact rationals ([Q]) where no result depends on
      their rounding; where the floats only ever hold small integers (the
      risk score) they are integers ([Z]); the anomaly detector, whose test
      is decided by the rounding, is also embedded over a float arithmetic
      ([PyFloat], [InferFloat]), with IEEE 754 binary64 as an instance;
    - [str] is [string], read as a sequence of ASCII characters; the text of
      a chat message is a type [Text] of its own, with [str.strip],
      [str.lower] and [re.search] as parameters of the classifier;
    - a [dict] used as a map is a [gmap]; a [dict] whose iteration order is
      observed is an association list in insertion order;
    - [uuid.uuid4()] is a supply [uuid4 : nat -> string]. *)

From Stdlib Require Import Floats.
From Stdlib Require Import Reals Qreals.
From Stdlib Require Import Ascii String ZArith QArith Qminmax Lia Lqa Lra.
From Stdlib Require Import Sorting.Permutation Sorting.Sorted.
From stdpp Require Import base gmap strings list sorting.

Local Open Scope Z_scope.

(* ===================================================================== *)
(** * Definitions                                                          *)
(* ===================================================================== *)

(** ** Python built-ins used by several modules *)

Module Py.

(** [bool(s)] for an [Optional[str]]: [None] and [""] are falsy. *)
Definition truthy (o : option string) : bool :=
  match o with
  | Some s => negb (String.eqb s "")
  | None => false
  end.

(** [a and b] on optional strings: [a] when [a] is falsy, else [b]. *)
Definition and_ (a b : option string) : option string :=
  if truthy a then b else a.

(** [c.lower()] on an ASCII character. *)
Definition lower_ascii (c : ascii) : ascii :=
  let n := nat_of_ascii c in
  if ((65 <=? n)%nat && (n <=? 90)%nat)%bool then ascii_of_nat (n + 32) else c.

(** [s.lower()], for a string of ASCII characters. *)
Fixpoint lower (s : string) : string :=
  match s with
  | EmptyString => EmptyString
  | String c s' => String (lower_ascii c) (lower s')
  end.

(** [c.isspace()] on ASCII: tab, newline, vertical tab, form feed,
    carriage return, the four separators 0x1c-0x1f, and space. *)
Definition isspace (c : ascii) : bool :=
  let n := nat_of_ascii c in
  (((9 <=? n)%nat && (n <=? 13)%nat) || ((28 <=? n)%nat && (n <=? 32)%nat))%bool.

(** [s.lstrip()], [s.rstrip()], [s.strip()]. *)
Fixpoint lstrip (s : string) : string :=
  match s with
  | String c s' => if isspace c then lstrip s' else s
  | EmptyString => EmptyString
  end.

Fixpoint rstrip (s : string) : string :=
  match s with
  | EmptyString => EmptyString
  | String c s' =>
      match rstrip s' with
      | EmptyString => if isspace c then EmptyString else String c EmptyString
      | r => String c r
      end
  end.

Definition strip (s : string) : string := rstrip (lstrip s).

(** [sub in s] for strings. *)
Definition contains (sub s : string) : bool :=
  match String.index 0 sub s with
  | Some _ => true
  | None => false
  end.

(** [s.split(":", 1)] restricted to the two-way split at the first colon;
    [None] when [s] has no colon (the unpacking into two names would
    raise). *)
Fixpoint split_colon (s : string) : option (string * string) :=
  match s with
  | EmptyString => None
  | String c s' =>
      if Ascii.eqb c ":"%char then Some (EmptyString, s')
      else match split_colon s' with
           | Some (a, b) => Some (String c a, b)
           | None => None
           end
  end.

(** [sorted(l, key=key)]: stable, so an insertion sort that puts an element
    before the first one with a key at least as large computes it. *)
Fixpoint insert_by {A} (key : A -> Z) (x : A) (l : list A) : list A :=
  match l with
  | [] => [x]
  | y :: l' => if key x <=? key y then x :: l else y :: insert_by key x l'
  end.

Definition sorted {A} (key : A -> Z) (l : list A) : list A :=
  foldr (insert_by key) [] l.

(** [max(l, key=key)] on a non-empty list [x :: l]: the first maximal element. *)
Definition max_by {A} (key : A -> Z) (x : A) (l : list A) : A :=
  foldl (fun best y => if key best <? key y then y else best) x l.

(** [sum(l)] on rationals. *)
Definition sum (l : list Q) : Q := foldl Qplus 0%Q l.

(** [x < y] on rationals. *)
Definition Qlt_bool (x y : Q) : bool := negb (Qle_bool y x).

(** [(t2 - t1).total_seconds()] for a difference of [us] microseconds. *)
Definition total_seconds (us : Z) : Q := (us # 1000000)%Q.

(** Orders on keys, for the statements about [sorted]. *)
Definition key_lt {A} (key : A -> Z) (x y : A) : Prop := key x < key y.

Definition key_le {A} (key : A -> Z) (x y : A) : Prop := key x <= key y.

End Py.

(** ** miga_shared/models.py *)

Module Models.

Inductive MIGARole :=
| OBSERVABILITY | SECURITY | AUTOMATION | CONFIGURATION | COMPLIANCE | IDENTITY.

Inductive PlatformType :=
| CATALYST_CENTER | MERAKI | THOUSANDEYES | WEBEX | XDR
| SECURITY_CLOUD_CONTROL | APPDYNAMICS | NEXUS_DASHBOARD | SDWAN | ISE
| SPLUNK | HYPERSHIELD | SERVICENOW | NETBOX | INFER.

Inductive SeverityLevel := CRITICAL | HIGH | MEDIUM | LOW | INFO.

#[global] Instance MIGARole_eq_dec : EqDecision MIGARole.
Proof. solve_decision. Defined.
#[global] Instance PlatformType_eq_dec : EqDecision PlatformType.
Proof. solve_decision. Defined.
#[global] Instance SeverityLevel_eq_dec : EqDecision SeverityLevel.
Proof. solve_decision. Defined.

Definition all_roles : list MIGARole :=
  [OBSERVABILITY; SECURITY; AUTOMATION; CONFIGURATION; COMPLIANCE; IDENTITY].

Definition all_platforms : list PlatformType :=
  [CATALYST_CENTER; MERAKI; THOUSANDEYES; WEBEX; XDR; SECURITY_CLOUD_CONTROL;
   APPDYNAMICS; NEXUS_DASHBOARD; SDWAN; ISE; SPLUNK; HYPERSHIELD; SERVICENOW;
   NETBOX; INFER].

Definition role_index (r : MIGARole) : nat :=
  match r with
  | OBSERVABILITY => 0 | SECURITY => 1 | AUTOMATION => 2
  | CONFIGURATION => 3 | COMPLIANCE => 4 | IDENTITY => 5
  end%nat.

Definition platform_index (p : PlatformType) : nat :=
  match p with
  | CATALYST_CENTER => 0 | MERAKI => 1 | THOUSANDEYES => 2 | WEBEX => 3
  | XDR => 4 | SECURITY_CLOUD_CONTROL => 5 | APPDYNAMICS => 6
  | NEXUS_DASHBOARD => 7 | SDWAN => 8 | ISE => 9 | SPLUNK => 10
  | HYPERSHIELD => 11 | SERVICENOW => 12 | NETBOX => 13 | INFER => 14
  end%nat.

#[global] Program Instance MIGARole_countable : Countable MIGARole :=
  inj_countable' role_index (fun n => nth n all_roles OBSERVABILITY) _.
Next Obligation. by intros []. Qed.

#[global] Program Instance PlatformType_countable : Countable PlatformType :=
  inj_countable' platform_index (fun n => nth n all_platforms INFER) _.
Next Obligation. by intros []. Qed.

(** The [.value] of the string-valued enums. *)
Definition role_value (r : MIGARole) : string :=
  match r with
  | OBSERVABILITY => "observability" | SECURITY => "security"
  | AUTOMATION => "automation" | CONFIGURATION => "configuration"
  | COMPLIANCE => "compliance" | IDENTITY => "identity"
  end.

Definition platform_value (p : PlatformType) : string :=
  match p with
  | CATALYST_CENTER => "catalyst_center" | MERAKI => "meraki"
  | THOUSANDEYES => "thousandeyes" | WEBEX => "webex" | XDR => "xdr"
  | SECURITY_CLOUD_CONTROL => "security_cloud_control"
  | APPDYNAMICS => "appdynamics" | NEXUS_DASHBOARD => "nexus_dashboard"
  | SDWAN => "sdwan" | ISE => "ise" | SPLUNK => "splunk"
  | HYPERSHIELD => "hypershield" | SERVICENOW => "servicenow"
  | NETBOX => "netbox" | INFER => "infer"
  end.

Definition severity_value (s : SeverityLevel) : string :=
  match s with
  | CRITICAL => "critical" | HIGH => "high" | MEDIUM => "medium"
  | LOW => "low" | INFO => "info"
  end.

(** [CorrelatedEvent]; [raw_data] is opaque and never read by the code
    embedded here, so it is left out. *)
Record CorrelatedEvent := {
  event_id : string;
  source_platform : PlatformType;
  event_type : string;
  severity : SeverityLevel;
  timestamp : Z;
  affected_entities : list string;
  tags : list string;
  correlation_group : option string;
}.

#[global] Instance CorrelatedEvent_eq_dec : EqDecision CorrelatedEvent.
Proof. solve_decision. Defined.

(** [CorrelatedEvent.overlaps_with]:
    [abs((self.timestamp - other.timestamp).total_seconds()) <= window_seconds
     and bool(set(self.affected_entities) & set(other.affected_entities))]. *)
Definition overlaps_with (self other : CorrelatedEvent) (window_seconds : Z) : bool :=
  let delta := Z.abs (timestamp self - timestamp other) in
  (delta <=? window_seconds * 1000000)
  && bool_decide
       ((list_to_set (affected_entities self) : gset string)
          ∩ list_to_set (affected_entities other) ≠ ∅).

Record PlatformCapability := {
  cap_tool_name : string;
  cap_description : string;
  cap_roles : list MIGARole;
  cap_read_only : bool;
  cap_destructive : bool;
  cap_requires_approval : bool;
  cap_platform : PlatformType;
}.

End Models.

(** ** miga_shared/agntcy/__init__.py *)

Module Agntcy.
Import Models.

(** [OASFRecord]; the opaque [metadata] dict is left out. *)
Record OASFRecord := {
  name : string;
  version : string;
  description : string;
  platform : option PlatformType;
  skills : list string;
  domains : list string;
  capabilities : list PlatformCapability;
  roles : list MIGARole;
  transport : string;
  endpoint : string;
}.

(** *** The HTTP client seen from [DirectoryClient]

    What one request of [httpx.AsyncClient] can do: answer, or raise one of
    the transport errors of httpx ([httpx.TransportError] and its
    subclasses). *)
Inductive TransportError :=
| ConnectError | ReadError | WriteError | CloseError
| ConnectTimeout | ReadTimeout | WriteTimeout | PoolTimeout
| LocalProtocolError | RemoteProtocolError
| ProxyError | UnsupportedProtocol.

#[global] Instance TransportError_eq_dec : EqDecision TransportError.
Proof. solve_decision. Defined.

(** A response: its status code and, for the two calls that read the body,
    what [resp.json()] followed by the decoding of the body gives ([None]
    when that raises). *)
Record Response (A : Type) := {
  status_code : Z;
  json : option A;
}.
Arguments status_code {A} _.
Arguments json {A} _.

Inductive Outcome (A : Type) :=
| Answers (resp : Response A)
| Raises (e : TransportError).
Arguments Answers {A} _.
Arguments Raises {A} _.

(** [resp.raise_for_status()] raises [HTTPStatusError] unless the status is
    a success (2xx). *)
Definition raise_for_status (status : Z) : bool :=
  negb ((200 <=? status) && (status <=? 299)).

(** [DirectoryClient.register]: the body is the JSON object of the answer;
    [cid = resp.json().get("cid", resp.json().get("id", "unknown"))].
    [except httpx.ConnectError] gives ["standalone"], the later
    [except Exception] gives ["error"]. *)
Definition register (post : Outcome (gmap string string)) : string :=
  match post with
  | Raises ConnectError => "standalone"
  | Raises _ => "error"
  | Answers resp =>
      if raise_for_status (status_code resp) then "error"
      else match json resp with
           | None => "error"
           | Some body =>
               default (default "unknown" (body !! "id")) (body !! "cid")
           end
  end.

(** [DirectoryClient.discover]: the decoded body is the list of records
    ([OASFRecord.from_dict] of each); every exception gives []. *)
Definition discover (get : Outcome (list OASFRecord)) : list OASFRecord :=
  match get with
  | Raises _ => []
  | Answers resp =>
      if raise_for_status (status_code resp) then []
      else default [] (json resp)
  end.

(** [DirectoryClient.deregister]: [resp.status_code < 400], [False] on any
    exception.  The id only selects the URL of the request. *)
Definition deregister (cid : string) (delete : string -> Outcome unit) : bool :=
  match delete ("/v1/records/" +:+ cid) with
  | Answers resp => status_code resp <? 400
  | Raises _ => false
  end.

(** [DirectoryClient.health]. *)
Definition health (get : Outcome unit) : bool :=
  match get with
  | Answers resp => status_code resp =? 200
  | Raises _ => false
  end.

(** The [finally] block of [miga_lifespan] (server_base.py):
    [if cid and cid not in ("standalone", "error"): await directory.deregister(cid)].
    The result is the list of ids [deregister] is called with. *)
Definition lifespan_deregisters (cid : string) : list string :=
  if Py.truthy (Some cid)
     && negb (bool_decide (cid ∈ ["standalone"; "error"]))
  then [cid] else [].

(** [IdentityBadge]; the opaque [claims] dict is left out. *)
Record IdentityBadge := {
  subject : string;
  issuer : string;
  badge_type : string;
  public_key : option string;
  signature : option string;
}.

(** [os.getenv] reads the process environment. *)
Definition getenv (environ : gmap string string) (key : string) : option string :=
  environ !! key.

(** [IdentityBadge.verify]. *)
Definition verify (environ : gmap string string) (self : IdentityBadge) : bool :=
  if bool_decide (getenv environ "MIGA_ENV" = Some "development") then true
  else Py.truthy (Py.and_ (signature self) (public_key self)).

(** *** Vocabulary of the statements about the badge *)

(** A string option that holds a non-empty string. *)
Definition non_empty (o : option string) : Prop :=
  exists s, o = Some s /\ s <> "".

End Agntcy.

(** ** packages/gateway/server.py *)

Module Gateway.
Import Models.

(** [RoutingEntry]: maps a tool to its platform server endpoint. *)
Record RoutingEntry := {
  tool_name : string;
  endpoint : string;
  platform : PlatformType;
  roles : list MIGARole;
  read_only : bool;
  requires_approval : bool;
}.

#[global] Instance RoutingEntry_eq_dec : EqDecision RoutingEntry.
Proof. solve_decision. Defined.

Record RoutingTable := {
  _by_tool : gmap string RoutingEntry;
  _by_role : gmap MIGARole (list RoutingEntry);
  _by_platform : gmap PlatformType (list RoutingEntry);
  _endpoints : gmap string string;
  _last_refresh : Q;
}.

(** [{r: [] for r in MIGARole}]. *)
Definition empty_by_role : gmap MIGARole (list RoutingEntry) :=
  list_to_map ((fun r => (r, [])) <$> all_roles).

(** [RoutingTable.__init__]. *)
Definition init : RoutingTable :=
  {| _by_tool := ∅; _by_role := empty_by_role; _by_platform := ∅;
     _endpoints := ∅; _last_refresh := 0%Q |}.

(** The [RoutingEntry(...)] built in the inner loop of [load_from_oasf]. *)
Definition make_entry (record : Agntcy.OASFRecord) (cap : PlatformCapability)
  : RoutingEntry :=
  {| tool_name := cap_tool_name cap;
     endpoint := Agntcy.endpoint record;
     platform := cap_platform cap;
     roles := cap_roles cap;
     read_only := cap_read_only cap;
     requires_approval := cap_requires_approval cap |}.

(** The three index updates of the inner loop:
    [self._by_tool[cap.tool_name] = entry],
    [self._by_role[role].append(entry)] for each role (the key is always
    there, see [empty_by_role]), and
    [self._by_platform.setdefault(cap.platform, []).append(entry)]. *)
Definition add_entry (self : RoutingTable) (entry : RoutingEntry) : RoutingTable :=
  {| _by_tool := <[tool_name entry := entry]> (_by_tool self);
     _by_role :=
       foldl (fun m role => alter (fun l => l ++ [entry]) role m)
             (_by_role self) (roles entry);
     _by_platform :=
       <[platform entry :=
           default [] (_by_platform self !! platform entry) ++ [entry]]>
         (_by_platform self);
     _endpoints := _endpoints self;
     _last_refresh := _last_refresh self |}.

(** One iteration of the outer loop. *)
Definition load_record (self : RoutingTable) (record : Agntcy.OASFRecord)
  : RoutingTable :=
  let self1 :=
    {| _by_tool := _by_tool self; _by_role := _by_role self;
       _by_platform := _by_platform self;
       _endpoints := <[Agntcy.name record := Agntcy.endpoint record]> (_endpoints self);
       _last_refresh := _last_refresh self |} in
  foldl (fun t cap => add_entry t (make_entry record cap)) self1
        (Agntcy.capabilities record).

(** [RoutingTable.load_from_oasf]; [now] is what [time.time()] returns. *)
Definition load_from_oasf (self : RoutingTable) (records : list Agntcy.OASFRecord)
    (now : Q) : RoutingTable :=
  let cleared :=
    {| _by_tool := ∅; _by_role := empty_by_role; _by_platform := ∅;
       _endpoints := ∅; _last_refresh := _last_refresh self |} in
  let loaded := foldl load_record cleared records in
  {| _by_tool := _by_tool loaded; _by_role := _by_role loaded;
     _by_platform := _by_platform loaded; _endpoints := _endpoints loaded;
     _last_refresh := now |}.

Definition tools_for_role (self : RoutingTable) (role : MIGARole) : list RoutingEntry :=
  default [] (_by_role self !! role).

Definition tools_for_platform (self : RoutingTable) (p : PlatformType)
  : list RoutingEntry :=
  default [] (_by_platform self !! p).

Definition get_tool (self : RoutingTable) (name : string) : option RoutingEntry :=
  _by_tool self !! name.

Definition all_endpoints (self : RoutingTable) : gmap string string :=
  _endpoints self.

(** *** The forwarder and the fan-out engine *)

(** [RoleQueryInput]; the arguments object is opaque to the gateway. *)
Record RoleQueryInput := {
  q_query : string;
  q_platforms : option (list string);
  q_tool_name : option string;
  q_arguments : gmap string string;
}.

(** What [MCPForwarder.call_tool] returns: the [{"error": ...}] object of
    one of its three error paths, or the result of the call. *)
Inductive CallResult :=
| Unreachable (endpoint : string)          (* except httpx.ConnectError *)
| ForwardingError (e : option Agntcy.TransportError)
                                           (* except Exception; None: status or decoding *)
| RpcError (message : string)              (* "error" in result *)
| RpcResult (result : string).             (* result.get("result", result) *)

(** The body of a JSON-RPC answer. *)
Inductive RpcBody :=
| BodyError (message : option string)
| BodyResult (result : string).

(** [MCPForwarder.call_tool], given what the POST to [{endpoint}/mcp] does. *)
Definition call_tool (post : Agntcy.Outcome RpcBody) (endpoint : string) : CallResult :=
  match post with
  | Agntcy.Raises Agntcy.ConnectError => Unreachable endpoint
  | Agntcy.Raises e => ForwardingError (Some e)
  | Agntcy.Answers resp =>
      if Agntcy.raise_for_status (Agntcy.status_code resp) then ForwardingError None
      else match Agntcy.json resp with
           | None => ForwardingError None
           | Some (BodyError m) => RpcError (default "Unknown error" m)
           | Some (BodyResult r) => RpcResult r
           end
  end.

(** The effects a gateway request can have on the outside world. *)
Inductive Effect :=
| Post (endpoint tool : string) (arguments : gmap string string)
    (* the HTTP POST of call_tool *)
| Publish (channel : string) (data : gmap string string)
    (* RedisPubSub.publish *)
| Audit (tool : string) (action_type : string).
    (* creation of an AuditLogEntry *)

(** A computation that returns a value and records its effects in order. *)
Definition Traced (A : Type) : Type := A * list Effect.

#[global] Instance Traced_ret : MRet Traced := fun A a => (a, []).

#[global] Instance Traced_bind : MBind Traced := fun A B k m =>
  let (b, t) := k (fst m) in (b, snd m ++ t).

(** The downstream world: what the POST to an endpoint answers. *)
Definition World := string -> string -> gmap string string -> Agntcy.Outcome RpcBody.

Definition fwd_call_tool (world : World) (endpoint tool : string)
    (arguments : gmap string string) : Traced CallResult :=
  (call_tool (world endpoint tool arguments) endpoint, [Post endpoint tool arguments]).

(** [asyncio.gather] over the calls, in task order. *)
Fixpoint gather {A} (tasks : list (Traced A)) : Traced (list A) :=
  match tasks with
  | [] => mret []
  | t :: rest => r ← t; rs ← gather rest; mret (r :: rs)
  end.

(** The answer of [_fan_out], one constructor per [return]. *)
Inductive Reply :=
| NotFound (tool : string)
    (* "Tool `x` not found in routing table." *)
| Direct (result : CallResult)
    (* json.dumps(result) *)
| NoTools (role : MIGARole)
    (* "No tools available for role ..." *)
| Listing (role : MIGARole) (entries : list RoutingEntry)
    (* "Available Tools" *)
| Summary (role : MIGARole) (results : list (RoutingEntry * CallResult)).
    (* "Cross-Platform Summary" *)

Definition is_summary_tool (entry : RoutingEntry) : bool :=
  Py.contains "health" (tool_name entry)
  || Py.contains "overview" (tool_name entry)
  || Py.contains "status" (tool_name entry).

(** [_fan_out(role, params, ctx)] on the routing table [routing]. *)
Definition _fan_out (routing : RoutingTable) (world : World)
    (role : MIGARole) (params : RoleQueryInput) : Traced Reply :=
  let entries := tools_for_role routing role in
  if Py.truthy (q_tool_name params) then
    let name := default "" (q_tool_name params) in
    match get_tool routing name with
    | None => mret (NotFound name)
    | Some entry =>
        result ← fwd_call_tool world (endpoint entry) (tool_name entry)
                   (q_arguments params);
        mret (Direct result)
    end
  else
    let entries :=
      match q_platforms params with
      | Some (p :: ps) =>
          filter (fun e => platform_value (platform e) ∈ p :: ps) entries
      | _ => entries
      end in
    match entries with
    | [] => mret (NoTools role)
    | _ =>
        let tasks := filter (fun e => is_summary_tool e = true) entries in
        match tasks with
        | [] => mret (Listing role entries)
        | _ =>
            results ← gather ((fun e => fwd_call_tool world (endpoint e) (tool_name e) ∅)
                                <$> tasks);
            mret (Summary role (zip tasks results))
        end
    end.

(** *** Vocabulary of the statements about the routing table *)

(** Every entry [load_from_oasf] builds, in the order it builds them. *)
Definition all_entries (records : list Agntcy.OASFRecord) : list RoutingEntry :=
  records ≫= (fun record => make_entry record <$> Agntcy.capabilities record).

(** One copy of [entry] for each time [role] is listed in its roles. *)
Definition role_copies (role : MIGARole) (entry : RoutingEntry) : list RoutingEntry :=
  replicate (length (filter (fun r => r = role) (roles entry))) entry.

(** "Exactly one Routing Entry per tool name in every index": whatever
    entry an index holds is the one [get_tool] gives for its name. *)
Definition one_entry_per_tool (t : RoutingTable) : Prop :=
  (forall role e, e ∈ tools_for_role t role -> get_tool t (tool_name e) = Some e)
  /\ (forall p e, e ∈ tools_for_platform t p -> get_tool t (tool_name e) = Some e).

(** "An approval:request envelope is published before or concurrent with
    the dispatch, and an audit entry is created": the trace holds a
    publication on the approval channel at or before the POST to the
    entry's endpoint, and an audit record. *)
Definition approval_requested (trace : list Effect) (entry : RoutingEntry) : Prop :=
  (exists i j data arguments,
      trace !! i = Some (Publish "miga:approval:request" data)
      /\ trace !! j = Some (Post (endpoint entry) (tool_name entry) arguments)
      /\ (i <= j)%nat)
  /\ (exists k tool action, trace !! k = Some (Audit tool action)).

(** The three indexes of [t] hold what loading the entries [es] gives. *)
Definition indexes (es : list RoutingEntry) (t : RoutingTable) : Prop :=
  (forall n, _by_tool t !! n = last (filter (fun e => tool_name e = n) es))
  /\ (forall r, _by_role t !! r = Some (es ≫= role_copies r))
  /\ (forall p, default [] (_by_platform t !! p) = filter (fun e => platform e = p) es).

(** *** Scenarios *)

(** Two records that declare the same tool at different endpoints. *)
Definition ping : PlatformCapability :=
  {| cap_tool_name := "meraki_health"; cap_description := "";
     cap_roles := [OBSERVABILITY]; cap_read_only := true;
     cap_destructive := false; cap_requires_approval := false;
     cap_platform := MERAKI |}.

Definition backend (name endpoint : string) : Agntcy.OASFRecord :=
  {| Agntcy.name := name; Agntcy.version := "1.0.0"; Agntcy.description := "";
     Agntcy.platform := Some MERAKI; Agntcy.skills := []; Agntcy.domains := [];
     Agntcy.capabilities := [ping]; Agntcy.roles := [];
     Agntcy.transport := "streamable_http"; Agntcy.endpoint := endpoint |}.

(** A backend whose command runner requires approval, as catalyst_center
    declares it. *)
Definition run_command : PlatformCapability :=
  {| cap_tool_name := "catalyst_run_command";
     cap_description := "Execute CLI on device";
     cap_roles := [AUTOMATION]; cap_read_only := false;
     cap_destructive := false; cap_requires_approval := true;
     cap_platform := CATALYST_CENTER |}.

Definition catalyst : Agntcy.OASFRecord :=
  {| Agntcy.name := "catalyst_center_mcp"; Agntcy.version := "1.0.0";
     Agntcy.description := ""; Agntcy.platform := Some CATALYST_CENTER;
     Agntcy.skills := []; Agntcy.domains := [];
     Agntcy.capabilities := [run_command]; Agntcy.roles := [AUTOMATION];
     Agntcy.transport := "streamable_http";
     Agntcy.endpoint := "http://catalyst-center-mcp:8001" |}.

Definition run_command_call : RoleQueryInput :=
  {| q_query := ""; q_platforms := None;
     q_tool_name := Some "catalyst_run_command";
     q_arguments := {[ "command" := "show version" ]} |}.

Definition answering : World := fun _ _ _ =>
  Agntcy.Answers {| Agntcy.status_code := 200;
                    Agntcy.json := Some (BodyResult "submitted") |}.

End Gateway.

(** ** servers/infer_mcp/server.py *)

Module Infer.
Import Models.

(** *** Correlation engine *)

(** [_severity_rank]. *)
Definition _severity_rank (sev : string) : Z :=
  let s := Py.lower sev in
  if String.eqb s "critical" then 5
  else if String.eqb s "high" then 4
  else if String.eqb s "medium" then 3
  else if String.eqb s "low" then 2
  else if String.eqb s "info" then 1
  else 0.

(** One result of [correlate_events].  [events] holds the events of the
    group; the dict stores their [model_dump]. *)
Record CorrelationGroup := {
  correlation_id : string;
  event_count : nat;
  platforms : list string;
  g_severity : string;
  time_span_seconds : Q;
  g_affected_entities : list string;
  events : list CorrelatedEvent;
}.

(** The inner loop body of [correlate_events]: event [j] joins the group of
    the seed [ev] when it is unused and overlaps with the seed. *)
Definition absorb (sorted_events : list CorrelatedEvent) (ev : CorrelatedEvent)
    (window_seconds : Z) (st : list CorrelatedEvent * gset nat) (j : nat)
  : list CorrelatedEvent * gset nat :=
  let '(group, used) := st in
  if bool_decide (j ∈ used) then st
  else match sorted_events !! j with
       | Some other =>
           if overlaps_with ev other window_seconds
           then (group ++ [other], used ∪ {[ j ]})
           else st
       | None => st
       end.

(** The outer loop body: an unused event [i] seeds a group, which is kept
    when it has more than one member. *)
Definition seed (sorted_events : list CorrelatedEvent) (window_seconds : Z)
    (st : list (list CorrelatedEvent) * gset nat) (iev : nat * CorrelatedEvent)
  : list (list CorrelatedEvent) * gset nat :=
  let '(groups, used) := st in
  let '(i, ev) := iev in
  if bool_decide (i ∈ used) then st
  else
    let '(group, used') :=
      foldl (absorb sorted_events ev window_seconds) ([ev], used ∪ {[ i ]})
            (seq (S i) (length sorted_events - S i)) in
    (if (1 <? length group)%nat then groups ++ [group] else groups, used').

(** The groups of the first half of [correlate_events]. *)
Definition group_events (events : list CorrelatedEvent) (window_seconds : Z)
  : list (list CorrelatedEvent) :=
  let sorted_events := Py.sorted timestamp events in
  fst (foldl (seed sorted_events window_seconds) ([], ∅)
             (imap (fun i ev => (i, ev)) sorted_events)).

(** The dict built for one group; [cid] is its fresh [uuid4()].  The two
    [list(set(...))] have no specified order: they are given in the order in
    which [gset] enumerates them. *)
Definition describe_group (cid : string) (group : list CorrelatedEvent)
  : CorrelationGroup :=
  let first := default 0 (timestamp <$> head group) in
  let final := default 0 (timestamp <$> last group) in
  {| correlation_id := cid;
     event_count := length group;
     platforms :=
       elements (list_to_set ((fun e => platform_value (source_platform e)) <$> group)
                 : gset string);
     g_severity :=
       match group with
       | [] => ""
       | e :: rest =>
           severity_value
             (severity (Py.max_by (fun e => _severity_rank (severity_value (severity e)))
                                  e rest))
       end;
     time_span_seconds := Py.total_seconds (final - first);
     g_affected_entities :=
       elements (list_to_set (group ≫= affected_entities) : gset string);
     events := group |}.

Section Uuid.

(** The identifiers [uuid.uuid4()] hands out, in call order. *)
Variable uuid4 : nat -> string.

(** [correlate_events]. *)
Definition correlate_events (events : list CorrelatedEvent) (window_seconds : Z)
  : list CorrelationGroup :=
  match events with
  | [] => []
  | _ =>
      foldl (fun results group =>
               results ++ [describe_group (uuid4 (length results)) group])
            [] (group_events events window_seconds)
  end.

End Uuid.

(** *** Root-cause matcher *)

Record Signal := {
  s_platform : string;
  s_event_type : string;
  s_min_severity : string;
}.

Record Template := {
  t_id : string;
  t_name : string;
  t_description : string;
  t_signal_pattern : list Signal;
  t_correlation : string;
  t_root_cause : string;
  t_recommended_actions : list string;
}.

Definition ROOT_CAUSE_TEMPLATES : list Template := [
  {| t_id := "rca-wan-app-slowdown";
     t_name := "WAN Degradation → Application Slowdown";
     t_description := "ThousandEyes path loss + Meraki VPN tunnel instability → AppDynamics latency spike";
     t_signal_pattern := [
       {| s_platform := "thousandeyes"; s_event_type := "path_loss"; s_min_severity := "medium" |};
       {| s_platform := "meraki"; s_event_type := "vpn_tunnel_flap"; s_min_severity := "low" |} ];
     t_correlation := "shared_wan_segment";
     t_root_cause := "WAN path degradation between sites causing VPN instability and application latency";
     t_recommended_actions := [
       "Check ISP status page and circuit utilization";
       "Review SD-WAN policy for failover path availability";
       "Enable SLA-based path switching if not already active" ] |};
  {| t_id := "rca-switch-wireless-impact";
     t_name := "Switch Failure → Wireless Impact";
     t_description := "Catalyst Center switch error → Meraki AP disconnection → client drops";
     t_signal_pattern := [
       {| s_platform := "catalyst_center"; s_event_type := "device_unreachable"; s_min_severity := "high" |};
       {| s_platform := "meraki"; s_event_type := "ap_offline"; s_min_severity := "medium" |} ];
     t_correlation := "shared_infrastructure";
     t_root_cause := "Upstream switch failure causing access point disconnections and client drops";
     t_recommended_actions := [
       "Verify switch stack/HA status in Catalyst Center";
       "Check power delivery to affected APs (PoE budget)";
       "Review spanning-tree topology for convergence issues" ] |};
  {| t_id := "rca-lateral-movement";
     t_name := "Lateral Movement Detection";
     t_description := "XDR anomalous traffic + ISE unusual authentication + Meraki new flows";
     t_signal_pattern := [
       {| s_platform := "xdr"; s_event_type := "suspicious_traffic"; s_min_severity := "medium" |};
       {| s_platform := "meraki"; s_event_type := "new_flow_spike"; s_min_severity := "low" |} ];
     t_correlation := "shared_endpoint";
     t_root_cause := "Potential lateral movement — compromised endpoint scanning internal network";
     t_recommended_actions := [
       "Isolate affected endpoint via ISE/Meraki quarantine VLAN";
       "Trigger XDR full investigation on source IP/MAC";
       "Review Secure Firewall logs for C2 beacon patterns";
       "Notify SOC for incident response" ] |};
  {| t_id := "rca-dns-cascade";
     t_name := "DNS Failure → Multi-Platform Cascade";
     t_description := "ThousandEyes DNS resolution failure → widespread connectivity issues";
     t_signal_pattern := [
       {| s_platform := "thousandeyes"; s_event_type := "dns_failure"; s_min_severity := "high" |};
       {| s_platform := "meraki"; s_event_type := "client_connectivity_drop"; s_min_severity := "medium" |} ];
     t_correlation := "dns_dependency";
     t_root_cause := "DNS infrastructure failure causing cascading connectivity failures across platforms";
     t_recommended_actions := [
       "Verify DNS server health and response times";
       "Check if secondary/tertiary DNS servers are reachable";
       "Review DHCP-assigned DNS vs. static configurations";
       "Consider enabling DNS caching at branch level" ] |};
  {| t_id := "rca-cert-expiry-cascade";
     t_name := "Certificate Expiry → Authentication Cascade";
     t_description := "Security Cloud Control cert alert + ISE auth failures + XDR anomalies";
     t_signal_pattern := [
       {| s_platform := "security_cloud_control"; s_event_type := "certificate_expiry"; s_min_severity := "medium" |} ];
     t_correlation := "certificate_chain";
     t_root_cause := "Expiring or expired certificates causing authentication failures across services";
     t_recommended_actions := [
       "Identify all certificates expiring within 30 days";
       "Initiate emergency certificate renewal workflow";
       "Verify certificate chain trust on all dependent services";
       "Update certificate monitoring alerts" ] |}
].

(** The argument of [match_root_cause]: the two keys it reads.  An event is
    the dict of its string-valued fields. *)
Record GroupDict := {
  gd_platforms : list string;
  gd_events : list (gmap string string);
}.

(** [e.model_dump(mode="json")], restricted to the string-valued fields. *)
Definition model_dump (e : CorrelatedEvent) : gmap string string :=
  {[ "event_id" := event_id e;
     "source_platform" := platform_value (source_platform e);
     "event_type" := event_type e;
     "severity" := severity_value (severity e) ]}.

Definition as_dict (g : CorrelationGroup) : GroupDict :=
  {| gd_platforms := platforms g; gd_events := model_dump <$> events g |}.

Record RootCause := {
  template_id : string;
  rc_name : string;
  root_cause : string;
  rc_confidence : Q;
  recommended_actions : list string;
  matched_signals : nat;
}.

(** The test of the innermost [if] of [match_root_cause]. *)
Definition event_meets (signal : Signal) (event : gmap string string) : bool :=
  bool_decide (event !! "source_platform" = Some (s_platform signal))
  && (_severity_rank (s_min_severity signal)
      <=? _severity_rank (default "info" (event !! "severity"))).

(** The two inner loops: one count per signal that some event meets. *)
Definition count_matches (pattern : list Signal) (events : list (gmap string string))
  : nat :=
  foldl (fun match_count signal =>
           if existsb (event_meets signal) events then S match_count else match_count)
        0%nat pattern.

(** The loop over the templates. *)
Fixpoint match_templates (templates : list Template) (platforms : gset string)
    (events : list (gmap string string)) : option RootCause :=
  match templates with
  | [] => None
  | template :: rest =>
      let required_platforms : gset string :=
        list_to_set (s_platform <$> t_signal_pattern template) in
      if bool_decide (required_platforms ⊆ platforms) then
        let match_count := count_matches (t_signal_pattern template) events in
        if (match_count =? length (t_signal_pattern template))%nat then
          Some {| template_id := t_id template;
                  rc_name := t_name template;
                  root_cause := t_root_cause template;
                  rc_confidence :=
                    ((85 # 100) + (5 # 100) * inject_Z (Z.of_nat match_count))%Q;
                  recommended_actions := t_recommended_actions template;
                  matched_signals := length (t_signal_pattern template) |}
        else match_templates rest platforms events
      else match_templates rest platforms events
  end.

(** [match_root_cause]. *)
Definition match_root_cause (correlated_group : GroupDict) : option RootCause :=
  match_templates ROOT_CAUSE_TEMPLATES
                  (list_to_set (gd_platforms correlated_group))
                  (gd_events correlated_group).

(** *** Anomaly detection

    The detector over exact rational arithmetic: the mean, the variance and
    the test are those of the real numbers, as the specification reads them.
    The code computes them in floats; that detector is [InferFloat]. *)

(** One record of [detect_anomalies].  The dict also carries a description
    and the mean, the recent interval and the deviation rounded to one
    decimal; the record keeps the exact mean, recent interval and variance
    they are computed from. *)
Record Anomaly := {
  anomaly_id : string;
  a_platform : string;
  a_event_type : string;
  a_pattern : string;
  mean_interval : Q;
  recent_interval : Q;
  a_variance : Q;
  a_confidence : Q;
  a_severity : string;
}.

(** [buckets[key].append(ts)] on a [defaultdict(list)], which keeps its keys
    in insertion order. *)
Fixpoint bucket_append (key : string) (ts : Z) (buckets : list (string * list Z))
  : list (string * list Z) :=
  match buckets with
  | [] => [(key, [ts])]
  | (k, l) :: rest =>
      if String.eqb k key then (k, l ++ [ts]) :: rest
      else (k, l) :: bucket_append key ts rest
  end.

(** [f"{e.source_platform.value}:{e.event_type}"]. *)
Definition bucket_key (e : CorrelatedEvent) : string :=
  platform_value (source_platform e) +:+ ":" +:+ event_type e.

Definition fill_buckets (events : list CorrelatedEvent) : list (string * list Z) :=
  foldl (fun buckets e => bucket_append (bucket_key e) (timestamp e) buckets) [] events.

(** [[(sorted_ts[i + 1] - sorted_ts[i]).total_seconds() for i in range(len(sorted_ts) - 1)]]. *)
Fixpoint intervals (sorted_ts : list Z) : list Q :=
  match sorted_ts with
  | a :: (b :: _) as rest => Py.total_seconds (b - a) :: intervals rest
  | _ => []
  end.

Definition mean (xs : list Q) : Q :=
  (Py.sum xs / inject_Z (Z.of_nat (length xs)))%Q.

(** [sum((x - mean_interval) ** 2 for x in intervals) / len(intervals)]. *)
Definition variance (xs : list Q) : Q :=
  (Py.sum ((fun x => (x - mean xs) ^ 2) <$> xs) / inject_Z (Z.of_nat (length xs)))%Q.

(** [std_dev > 0 and recent_interval < (mean_interval - 2 * std_dev)] where
    [std_dev = variance ** 0.5].  The square root is not rational; the test
    is computed in its squared form, which [frequency_spike_sqrt] proves
    equivalent over the reals. *)
Definition frequency_spike (mean_interval recent_interval variance : Q) : bool :=
  Py.Qlt_bool 0 variance
  && Py.Qlt_bool recent_interval mean_interval
  && Py.Qlt_bool (4 * variance) ((mean_interval - recent_interval) ^ 2).

(** The same test as the source writes it, over the reals. *)
Definition frequency_spike_R (mean_interval recent_interval variance : R) : Prop :=
  let std_dev := sqrt variance in
  (std_dev > 0 /\ recent_interval < mean_interval - 2 * std_dev)%R.

Section Detector.

Variable uuid4 : nat -> string.

(** [ANOMALY_SENSITIVITY], read from the environment (default 0.85). *)
Variable ANOMALY_SENSITIVITY : Q.

(** The body of the loop over [buckets.items()]. *)
Definition inspect_bucket (anomalies : list Anomaly) (bucket : string * list Z)
  : list Anomaly :=
  let '(key, timestamps) := bucket in
  if (length timestamps <? 3)%nat then anomalies
  else
    let sorted_ts := Py.sorted (fun t => t) timestamps in
    let intervals := intervals sorted_ts in
    match intervals with
    | [] => anomalies
    | _ =>
        let mean_interval := mean intervals in
        if Qeq_bool mean_interval 0 then anomalies
        else
          let recent_interval := default mean_interval (last intervals) in
          let variance := variance intervals in
          if frequency_spike mean_interval recent_interval variance then
            match Py.split_colon key with
            | None => anomalies
            | Some (platform, event_type) =>
                anomalies ++ [
                  {| anomaly_id := uuid4 (length anomalies);
                     a_platform := platform;
                     a_event_type := event_type;
                     a_pattern := "frequency_spike";
                     mean_interval := mean_interval;
                     recent_interval := recent_interval;
                     a_variance := variance;
                     a_confidence := Qmin (95 # 100) (ANOMALY_SENSITIVITY + (5 # 100));
                     a_severity :=
                       if Py.Qlt_bool recent_interval (mean_interval * (2 # 10))
                       then "high" else "medium" |} ]
            end
          else anomalies
    end.

(** [detect_anomalies]. *)
Definition detect_anomalies (events : list CorrelatedEvent) : list Anomaly :=
  if (length events <? 5)%nat then []
  else foldl inspect_bucket [] (fill_buckets events).

End Detector.

(** *** Predictive failure analysis *)

(** One record of [predict_failures].  The dict names the platforms
    [affected_platform] (one string) for a cascading failure and
    [affected_platforms] (a list) for a complex incident; the record keeps a
    list for both.  The description and the recommended actions are left
    out. *)
Record Prediction := {
  prediction_id : string;
  p_type : string;
  risk_level : string;
  p_confidence : Q;
  p_affected_platforms : list string;
  time_horizon_minutes : Z;
}.

(** [platform_counts[platform] += 1] on a [defaultdict(int)]. *)
Fixpoint count_up (key : string) (counts : list (string * nat)) : list (string * nat) :=
  match counts with
  | [] => [(key, 1%nat)]
  | (k, n) :: rest =>
      if String.eqb k key then (k, S n) :: rest else (k, n) :: count_up key rest
  end.

(** An entry of [_incident_history]. *)
Record Incident := {
  i_timestamp : Z;
  i_correlation_id : string;
  i_rca : RootCause;
  i_platforms : list string;
  i_severity : string;
}.

Section Predictor.

Variable uuid4 : nat -> string.

(** [predict_failures]; the history is accepted and not read. *)
Definition predict_failures (events : list CorrelatedEvent) (history : list Incident)
  : list Prediction :=
  let current_platforms : gset string :=
    list_to_set ((fun e => platform_value (source_platform e)) <$> events) in
  let current_severities := (fun e => severity_value (severity e)) <$> events in
  let platform_counts :=
    foldl (fun counts e =>
             if 4 <=? _severity_rank (severity_value (severity e))
             then count_up (platform_value (source_platform e)) counts
             else counts)
          [] events in
  let predictions :=
    foldl (fun predictions '(platform, count) =>
             if (3 <=? count)%nat then
               predictions ++ [
                 {| prediction_id := uuid4 (length predictions);
                    p_type := "cascading_failure";
                    risk_level := "high";
                    p_confidence :=
                      Qmin (90 # 100) ((6 # 10) + inject_Z (Z.of_nat count) * (1 # 10));
                    p_affected_platforms := [platform];
                    time_horizon_minutes := 30 |} ]
             else predictions)
          [] platform_counts in
  if (3 <=? size current_platforms)%nat
     && existsb (fun s => 3 <=? _severity_rank s) current_severities
  then
    predictions ++ [
      {| prediction_id := uuid4 (length predictions);
         p_type := "complex_incident";
         risk_level := if (4 <=? size current_platforms)%nat then "critical" else "high";
         p_confidence := 70 # 100;
         p_affected_platforms := elements current_platforms;
         time_horizon_minutes := 15 |} ]
  else predictions.

(** *** Risk score *)

(** What [network_risk_score] reports: the total, its tier and the three
    components.  The scores are floats that only ever hold integers. *)
Record RiskReport := {
  total : Z;
  tier : string;
  event_score : Z;
  anomaly_score : Z;
  prediction_score : Z;
}.

(** [{"critical": 15, "high": 8, "medium": 3, "low": 1, "info": 0}.get(s, 0)]. *)
Definition severity_weight (s : string) : Z :=
  if String.eqb s "critical" then 15
  else if String.eqb s "high" then 8
  else if String.eqb s "medium" then 3
  else if String.eqb s "low" then 1
  else 0.

(** [network_risk_score] at time [now], on the three in-memory stores. *)
Definition network_risk_score (now : Z) (_event_buffer : list CorrelatedEvent)
    (_anomaly_log : list Anomaly) (_incident_history : list Incident)
    (include_predictions include_anomalies : bool) : RiskReport :=
  let recent_events :=
    filter (fun e => now - timestamp e < 3600 * 1000000) _event_buffer in
  let score :=
    foldl (fun score e => score + severity_weight (severity_value (severity e)))
          0 recent_events in
  let event_score := Z.min 60 score in
  let anomaly_score :=
    if include_anomalies then
      let recent_anomalies :=
        filter (fun a => Qle_bool (7 # 10) (a_confidence a) = true) _anomaly_log in
      Z.min 20 (Z.of_nat (length recent_anomalies) * 5)
    else 0 in
  let prediction_score :=
    if include_predictions then
      let predictions := predict_failures recent_events _incident_history in
      Z.min 20
        (foldl (fun prediction_score p =>
                  if String.eqb (risk_level p) "critical" then prediction_score + 15
                  else if String.eqb (risk_level p) "high" then prediction_score + 8
                  else prediction_score)
               0 predictions)
    else 0 in
  let total := Z.min 100 (event_score + anomaly_score + prediction_score) in
  {| total := total;
     tier := if total <=? 25 then "LOW"
             else if total <=? 50 then "MODERATE"
             else if total <=? 75 then "ELEVATED"
             else "CRITICAL";
     event_score := event_score;
     anomaly_score := anomaly_score;
     prediction_score := prediction_score |}.

End Predictor.

(** *** Vocabulary of the statements about the engine *)

(** A template matches a group as the specification words it: every
    platform of its pattern is among the group's platforms, and each signal
    has an event of its platform, of at least its severity, and of its event
    type. *)
Definition event_meets_spec (signal : Signal) (event : gmap string string) : bool :=
  bool_decide (event !! "source_platform" = Some (s_platform signal))
  && (_severity_rank (s_min_severity signal)
      <=? _severity_rank (default "info" (event !! "severity")))
  && bool_decide (event !! "event_type" = Some (s_event_type signal)).

Definition template_matches_spec (template : Template) (g : GroupDict) : bool :=
  forallb (fun signal => bool_decide (s_platform signal ∈ gd_platforms g))
          (t_signal_pattern template)
  && forallb (fun signal => existsb (event_meets_spec signal) (gd_events g))
             (t_signal_pattern template).

(** The same without the comparison of event types. *)
Definition template_matches (template : Template) (g : GroupDict) : bool :=
  forallb (fun signal => bool_decide (s_platform signal ∈ gd_platforms g))
          (t_signal_pattern template)
  && forallb (fun signal => existsb (event_meets signal) (gd_events g))
             (t_signal_pattern template).

(** The answer built from a template with [k] matched signals. *)
Definition diagnosis (template : Template) : RootCause :=
  {| template_id := t_id template;
     rc_name := t_name template;
     root_cause := t_root_cause template;
     rc_confidence :=
       ((85 # 100)
        + (5 # 100) * inject_Z (Z.of_nat (length (t_signal_pattern template))))%Q;
     recommended_actions := t_recommended_actions template;
     matched_signals := length (t_signal_pattern template) |}.

(** Specified from the words of the matcher's contract: the first template,
    in catalog order, that matches. *)
Definition match_root_cause_spec (g : GroupDict) : option RootCause :=
  diagnosis <$> head (filter (fun t => template_matches_spec t g = true)
                             ROOT_CAUSE_TEMPLATES).

(** The timestamps of the events of one (platform, event-type) key, in
    input order, and the intervals between them once sorted. *)
Definition key_timestamps (p : PlatformType) (ty : string)
    (events : list CorrelatedEvent) : list Z :=
  timestamp <$> filter (fun e => source_platform e = p /\ event_type e = ty) events.

Definition key_intervals (p : PlatformType) (ty : string)
    (events : list CorrelatedEvent) : list Q :=
  intervals (Py.sorted (fun t => t) (key_timestamps p ty events)).

(** The anomalies reported for one key. *)
Definition reported_for (p : PlatformType) (ty : string) (anomalies : list Anomaly)
  : list Anomaly :=
  filter (fun a => a_platform a = platform_value p /\ a_event_type a = ty) anomalies.

(** Two events co-occur when some group holds both. *)
Definition co_occur (a b : CorrelatedEvent) (groups : list CorrelationGroup) : Prop :=
  exists g, g ∈ groups /\ a ∈ events g /\ b ∈ events g.

(** Sum of the weights [w] over a list. *)
Definition weighted_sum {A} (w : A -> Z) (l : list A) : Z :=
  foldr (fun x acc => w x + acc) 0 l.

(** The weights of the risk score. *)
Definition level_weight (s : SeverityLevel) : Z :=
  match s with
  | CRITICAL => 15 | HIGH => 8 | MEDIUM => 3 | LOW => 1 | INFO => 0
  end.

#[global] Instance Qle_dec (x y : Q) : Decision (x <= y)%Q.
Proof.
  destruct (Qlt_le_dec y x) as [Hlt|Hle]; [right|left; exact Hle].
  by apply Qlt_not_le.
Defined.

Definition risk_weight (p : Prediction) : Z :=
  if decide (risk_level p = "critical") then 15
  else if decide (risk_level p = "high") then 8 else 0.

(** The risk score as the formula [min(100, e + a + p)] gives it when the
    anomaly and prediction components are always counted. *)
Definition all_components_score (uuid4 : nat -> string) (now : Z)
    (_event_buffer : list CorrelatedEvent) (_anomaly_log : list Anomaly)
    (_incident_history : list Incident) : Z :=
  let recent := filter (fun e => now - timestamp e < 3600 * 1000000) _event_buffer in
  let e := Z.min 60 (weighted_sum (fun ev => level_weight (severity ev)) recent) in
  let a := Z.min 20 (5 * Z.of_nat (length (filter
                       (fun x => (7 # 10 <= a_confidence x)%Q) _anomaly_log))) in
  let p := Z.min 20 (weighted_sum risk_weight
                       (predict_failures uuid4 recent _incident_history)) in
  Z.min 100 (e + a + p).

(** The timestamps under the string key [k], in input order. *)
Definition string_key_timestamps (k : string) (events : list CorrelatedEvent) : list Z :=
  timestamp <$> filter (fun e => bucket_key e = k) events.

(** A list, or [None] when it is empty. *)
Definition non_empty_list (l : list Z) : option (list Z) :=
  match l with [] => None | _ => Some l end.

(** The anomaly record of a key with the given intervals. *)
Definition spike_record (sensitivity : Q) (id platform event_type : string)
    (xs : list Q) : Anomaly :=
  {| anomaly_id := id;
     a_platform := platform;
     a_event_type := event_type;
     a_pattern := "frequency_spike";
     mean_interval := mean xs;
     recent_interval := default (mean xs) (last xs);
     a_variance := variance xs;
     a_confidence := Qmin (95 # 100) (sensitivity + (5 # 100));
     a_severity :=
       if Py.Qlt_bool (default (mean xs) (last xs)) (mean xs * (2 # 10))
       then "high" else "medium" |}.

(** What one bucket adds to the anomalies. *)
Definition bucket_anomaly (sensitivity : Q) (id : string) (bucket : string * list Z)
  : option Anomaly :=
  let xs := intervals (Py.sorted (fun t => t) bucket.2) in
  if (length bucket.2 <? 3)%nat then None
  else if Qeq_bool (mean xs) 0 then None
  else if frequency_spike (mean xs) (default (mean xs) (last xs)) (variance xs)
  then (fun '(platform, event_type) => spike_record sensitivity id platform event_type xs)
         <$> Py.split_colon bucket.1
  else None.

(** *** Scenarios *)

(** A DNS failure seen by ThousandEyes with a client connectivity drop seen
    by Meraki: the signals of the template [rca-dns-cascade]. *)
Definition dns_outage : GroupDict :=
  {| gd_platforms := ["thousandeyes"; "meraki"];
     gd_events := [
       {[ "source_platform" := "thousandeyes"; "event_type" := "dns_failure";
          "severity" := "high" ]};
       {[ "source_platform" := "meraki"; "event_type" := "client_connectivity_drop";
          "severity" := "medium" ]} ] |}.

Definition burst (p : PlatformType) (ty : string) (ts : list Z) : list CorrelatedEvent :=
  (fun t => {| event_id := ""; source_platform := p; event_type := ty;
               severity := INFO; timestamp := t; affected_entities := [];
               tags := []; correlation_group := None |}) <$> ts.

(** A logged anomaly of confidence 0.9. *)
Definition logged_spike : Anomaly :=
  {| anomaly_id := "a1"; a_platform := "xdr"; a_event_type := "alert";
     a_pattern := "frequency_spike"; mean_interval := 50; recent_interval := 1;
     a_variance := 400; a_confidence := 9 # 10; a_severity := "high" |}.

(** Four alerts of one key, the last one second after the third. *)
Definition four_alerts : list CorrelatedEvent :=
  burst XDR "alert" [0; 60000000; 120000000; 121000000].

(** Seven alerts of one key, a minute apart except the last, which follows
    the sixth by one second: the spike is reported, with severity [high]. *)
Definition seven_alerts : list CorrelatedEvent :=
  burst XDR "alert"
        [0; 60000000; 120000000; 180000000; 240000000; 300000000; 301000000].

(** Three events of the same instant: [ev_b] shares an entity with each of
    the other two, which share none. *)
Definition simultaneous (id : string) (entities : list string) : CorrelatedEvent :=
  {| event_id := id; source_platform := XDR; event_type := "alert";
     severity := LOW; timestamp := 0; affected_entities := entities;
     tags := []; correlation_group := None |}.

Definition ev_a : CorrelatedEvent := simultaneous "a" ["host-x"].
Definition ev_b : CorrelatedEvent := simultaneous "b" ["host-x"; "host-y"].
Definition ev_c : CorrelatedEvent := simultaneous "c" ["host-y"].

(** The seed scenario: a path loss and, a minute later, a tunnel flap at the
    same site. *)
Definition path_loss : CorrelatedEvent :=
  {| event_id := "e1"; source_platform := THOUSANDEYES; event_type := "path_loss";
     severity := MEDIUM; timestamp := 0; affected_entities := ["site-a"];
     tags := []; correlation_group := None |}.

Definition tunnel_flap : CorrelatedEvent :=
  {| event_id := "e2"; source_platform := MERAKI; event_type := "vpn_tunnel_flap";
     severity := LOW; timestamp := 60000000; affected_entities := ["site-a"];
     tags := []; correlation_group := None |}.

End Infer.

(** ** packages/webex_bot/nlp/__init__.py *)

(** *** The regular expressions of the pattern table

    The fragment of Python's [re] syntax the table uses: literals,
    [(?:...)] groups, alternation, [\s], [.], and the postfix operators
    [*], [+] and [?], matched against texts of ASCII characters.  Matching
    is by derivatives; [ReFacts.search_matches]
    proves that it finds a pattern exactly in the strings that have a
    matching substring, which is what a backtracking search decides on this
    fragment. *)

Module Re.

Inductive regex :=
| Void                          (* matches nothing *)
| Eps                           (* the empty string *)
| Chr (c : ascii)               (* a literal character *)
| AnyChar                       (* [.]: anything but a newline *)
| Whitespace                    (* [\s] *)
| Seq (r1 r2 : regex)
| Alt (r1 r2 : regex)
| Star (r : regex).

Definition is_meta (c : ascii) : bool :=
  bool_decide (c ∈ ["("; ")"; "|"; "*"; "+"; "?"; "."; "\"]%char).

(** Apply the postfix operators that follow an atom. *)
Fixpoint postfix (r : regex) (s : string) : regex * string :=
  match s with
  | String "*" s' => postfix (Star r) s'
  | String "+" s' => postfix (Seq r (Star r)) s'
  | String "?" s' => postfix (Alt r Eps) s'
  | _ => (r, s)
  end.

(** Recursive descent; [fuel] bounds the nesting and the number of items,
    the length of the pattern is enough. *)
Fixpoint parse_alt (fuel : nat) (s : string) : option (regex * string) :=
  match fuel with
  | O => None
  | S fuel =>
      let parse_atom (s : string) : option (regex * string) :=
        match s with
        | String "(" (String "?" (String ":" s')) =>
            match parse_alt fuel s' with
            | Some (r, String ")" s'') => Some (postfix r s'')
            | _ => None
            end
        | String "\" (String "s" s') => Some (postfix Whitespace s')
        | String "." s' => Some (postfix AnyChar s')
        | String c s' => if is_meta c then None else Some (postfix (Chr c) s')
        | EmptyString => None
        end in
      let fix parse_seq (n : nat) (s : string) : option (regex * string) :=
        match n with
        | O => None
        | S n =>
            match s with
            | EmptyString | String "|" _ | String ")" _ => Some (Eps, s)
            | _ =>
                match parse_atom s with
                | Some (r, s') =>
                    match parse_seq n s' with
                    | Some (Eps, s'') => Some (r, s'')
                    | Some (r', s'') => Some (Seq r r', s'')
                    | None => None
                    end
                | None => None
                end
            end
        end in
      match parse_seq fuel s with
      | Some (r, String "|" s') =>
          match parse_alt fuel s' with
          | Some (r', s'') => Some (Alt r r', s'')
          | None => None
          end
      | other => other
      end
  end.

(** [re.compile(pattern)]; [None] when the pattern is not in the fragment. *)
Definition compile (pattern : string) : option regex :=
  match parse_alt (S (String.length pattern)) pattern with
  | Some (r, EmptyString) => Some r
  | _ => None
  end.

Fixpoint nullable (r : regex) : bool :=
  match r with
  | Void | Chr _ | AnyChar | Whitespace => false
  | Eps | Star _ => true
  | Seq r1 r2 => nullable r1 && nullable r2
  | Alt r1 r2 => nullable r1 || nullable r2
  end.

(** The derivative of [r] by the character [c], under [re.IGNORECASE]. *)
Fixpoint deriv (c : ascii) (r : regex) : regex :=
  match r with
  | Void | Eps => Void
  | Chr d => if Ascii.eqb (Py.lower_ascii c) (Py.lower_ascii d) then Eps else Void
  | AnyChar => if Ascii.eqb c "010"%char then Void else Eps
  | Whitespace => if Py.isspace c then Eps else Void
  | Seq r1 r2 =>
      if nullable r1 then Alt (Seq (deriv c r1) r2) (deriv c r2)
      else Seq (deriv c r1) r2
  | Alt r1 r2 => Alt (deriv c r1) (deriv c r2)
  | Star r1 => Seq (deriv c r1) (Star r1)
  end.

(** Some prefix of [s] matches [r]. *)
Fixpoint match_prefix (r : regex) (s : string) : bool :=
  nullable r
  || match s with
     | String c s' => match_prefix (deriv c r) s'
     | EmptyString => false
     end.

(** Some substring of [s] matches [r]. *)
Fixpoint search_regex (r : regex) (s : string) : bool :=
  match_prefix r s
  || match s with
     | String _ s' => search_regex r s'
     | EmptyString => false
     end.

(** [bool(re.search(pattern, s, re.IGNORECASE))], for a text [s] of ASCII
    characters. *)
Definition search (pattern s : string) : bool :=
  match compile pattern with
  | Some r => search_regex r s
  | None => false
  end.

(** What it means for a string to match a regular expression, letters
    compared without regard to case. *)
Inductive matches : regex -> string -> Prop :=
| matches_eps : matches Eps ""
| matches_chr c d :
    Py.lower_ascii c = Py.lower_ascii d -> matches (Chr d) (String c "")
| matches_any c : c <> "010"%char -> matches AnyChar (String c "")
| matches_space c : Py.isspace c = true -> matches Whitespace (String c "")
| matches_seq r1 r2 s1 s2 :
    matches r1 s1 -> matches r2 s2 -> matches (Seq r1 r2) (s1 +:+ s2)
| matches_alt_l r1 r2 s : matches r1 s -> matches (Alt r1 r2) s
| matches_alt_r r1 r2 s : matches r2 s -> matches (Alt r1 r2) s
| matches_star_nil r : matches (Star r) ""
| matches_star_cons r s1 s2 :
    matches r s1 -> matches (Star r) s2 -> matches (Star r) (s1 +:+ s2).

(** *** Vocabulary of the statements about stripping

    A pattern whose every match begins and ends with a character that is
    not whitespace finds the same matches in a text and in the stripped
    text.  The three analyses below are sufficient conditions, read off
    the expression. *)

(** Every match of [r] begins with a character that is not whitespace. *)
Fixpoint solid_start (r : regex) : bool :=
  match r with
  | Void => true
  | Eps | AnyChar | Whitespace | Star _ => false
  | Chr c => negb (Py.isspace c)
  | Seq r1 _ => solid_start r1
  | Alt r1 r2 => solid_start r1 && solid_start r2
  end.

(** Every match of [r] is empty or ends with a character that is not
    whitespace. *)
Fixpoint weak_end (r : regex) : bool :=
  match r with
  | Void | Eps => true
  | AnyChar | Whitespace => false
  | Chr c => negb (Py.isspace c)
  | Seq r1 r2 | Alt r1 r2 => weak_end r1 && weak_end r2
  | Star r1 => weak_end r1
  end.

(** Every match of [r] ends with a character that is not whitespace. *)
Fixpoint solid_end (r : regex) : bool :=
  match r with
  | Void => true
  | Eps | AnyChar | Whitespace | Star _ => false
  | Chr c => negb (Py.isspace c)
  | Seq r1 r2 => solid_end r2 || (weak_end r2 && solid_end r1)
  | Alt r1 r2 => solid_end r1 && solid_end r2
  end.

Fixpoint last_char (s : string) : option ascii :=
  match s with
  | EmptyString => None
  | String c s' => match last_char s' with Some d => Some d | None => Some c end
  end.

Fixpoint all_space (s : string) : bool :=
  match s with
  | EmptyString => true
  | String c s' => Py.isspace c && all_space s'
  end.

Definition starts_solid (s : string) : Prop :=
  match s with String c _ => Py.isspace c = false | EmptyString => False end.

Definition ends_solid (s : string) : Prop :=
  match last_char s with Some d => Py.isspace d = false | None => False end.

(** Some substring of [s] matches [r]. *)
Definition has_match (r : regex) (s : string) : Prop :=
  exists s0 m s2, s = s0 +:+ m +:+ s2 /\ matches r m.

End Re.

Module Nlp.

Inductive IntentCategory :=
| OBSERVABILITY | SECURITY | AUTOMATION | CONFIGURATION | COMPLIANCE | IDENTITY
| STATUS | HELP | UNKNOWN.

#[global] Instance IntentCategory_eq_dec : EqDecision IntentCategory.
Proof. solve_decision. Defined.

(** [ParsedIntent].  [arguments] is filled by the entity extraction that
    follows the classification; it is not part of this embedding.  [Text]
    is Python's [str]. *)
Record ParsedIntent (Text : Type) := {
  category : IntentCategory;
  tool_name : option string;
  platform : option string;
  confidence : Q;
  raw_text : Text;
}.
Arguments category {Text} _.
Arguments tool_name {Text} _.
Arguments platform {Text} _.
Arguments confidence {Text} _.
Arguments raw_text {Text} _.

Definition INTENT_PATTERNS : list (string * IntentCategory * option string * Q) := [
  (* Status / health *)
  ("(?:network|overall)\s*(?:status|health|overview)", STATUS, None, 95 # 100);
  ("(?:is|are)\s+(?:the\s+)?(?:network|things)\s+(?:ok|healthy|up|down)", STATUS, None, 90 # 100);
  ("how(?:'s| is)\s+(?:the\s+)?network", STATUS, None, 90 # 100);
  (* Platform-specific health *)
  ("(?:meraki|dashboard)\s+(?:health|status|overview|devices)", OBSERVABILITY, Some "meraki", 90 # 100);
  ("(?:catalyst|dnac?|catalyst.center)\s+(?:health|status|issues?|devices?)", OBSERVABILITY, Some "catalyst_center", 90 # 100);
  ("(?:thousandeyes|te|path)\s+(?:health|status|tests?|alerts?)", OBSERVABILITY, Some "thousandeyes", 90 # 100);
  ("(?:wireless|wifi|wi-fi)\s+(?:health|status|clients?)", OBSERVABILITY, Some "meraki", 85 # 100);
  (* Security *)
  ("(?:security|threat|xdr)\s+(?:events?|incidents?|alerts?|threats?)", SECURITY, Some "xdr", 90 # 100);
  ("(?:malware|amp|ids|ips)\s+(?:events?|detections?|alerts?)", SECURITY, None, 90 # 100);
  ("(?:lateral\s+movement|suspicious|anomal)", SECURITY, None, 85 # 100);
  ("(?:firewall|fw)\s+(?:rules?|policies?|status)", SECURITY, Some "security_cloud_control", 85 # 100);
  ("(?:hypershield|ebpf)\s+(?:status|enforcement|flows?)", SECURITY, Some "hypershield", 85 # 100);
  (* INFER-specific *)
  ("(?:correlat|root.cause|rca)", OBSERVABILITY, Some "infer", 90 # 100);
  ("(?:predict|forecast)\s+(?:fail|outage|incident)", OBSERVABILITY, Some "infer", 90 # 100);
  ("(?:anomal|unusual|abnormal)\s+(?:pattern|behavior|traffic)", OBSERVABILITY, Some "infer", 85 # 100);
  ("risk\s+score", COMPLIANCE, Some "infer", 90 # 100);
  (* Automation *)
  ("(?:run|execute)\s+(?:command|cli|show)", AUTOMATION, Some "catalyst_center", 90 # 100);
  ("(?:remediat|fix|restart|reboot)", AUTOMATION, None, 80 # 100);
  ("quarantine\s+(?:endpoint|device|mac)", AUTOMATION, Some "ise", 90 # 100);
  (* Configuration *)
  ("(?:show|get)\s+(?:config|configuration|running)", CONFIGURATION, None, 85 # 100);
  ("(?:topology|site.hierarchy|fabric)", CONFIGURATION, None, 80 # 100);
  ("(?:list|show)\s+(?:networks?|devices?|inventory)", CONFIGURATION, None, 80 # 100);
  (* Compliance *)
  ("(?:compliance|posture|audit|certificate)", COMPLIANCE, None, 85 # 100);
  ("(?:policy\s+drift|regulatory)", COMPLIANCE, None, 80 # 100);
  (* Identity *)
  ("(?:who|session|authentication|radius|dot1x)", IDENTITY, Some "ise", 85 # 100);
  ("(?:profil|endpoint\s+type|device\s+type)", IDENTITY, Some "ise", 80 # 100);
  (* Help *)
  ("(?:help|what\s+can\s+you|capabilities|tools?|commands?)", HELP, None, 95 # 100)
].

(** *** Vocabulary of the statements about the classifier *)

Definition row_pattern (row : string * IntentCategory * option string * Q) : string :=
  row.1.1.1.

Definition row_category (row : string * IntentCategory * option string * Q)
  : IntentCategory := row.1.1.2.

Definition row_platform (row : string * IntentCategory * option string * Q)
  : option string := row.1.2.

Definition row_confidence (row : string * IntentCategory * option string * Q) : Q :=
  row.2.

Section Classifier.

(** The text of a message is a Python [str], a sequence of code points.
    What [recognize_intent] does with it is done by three calls into the
    interpreter and its [re] library, which are the parameters of the
    classifier: [text.strip()], [s.lower()], and whether
    [re.search(pattern, s, re.IGNORECASE)] finds a match.  The patterns are
    the ASCII literals of the table. *)
Variable Text : Type.
Variable strip : Text -> Text.
Variable lower : Text -> Text.
Variable search : string -> Text -> bool.

(** The classification loop of [recognize_intent] over a pattern table. *)
Definition scan (patterns : list (string * IntentCategory * option string * Q))
    (text normalized : Text) : option (ParsedIntent Text) :=
  foldl (fun best '(pattern, category, platform, confidence) =>
           if search pattern normalized then
             let intent :=
               {| category := category; tool_name := None; platform := platform;
                  confidence := confidence; raw_text := text |} in
             match best with
             | None => Some intent
             | Some b =>
                 if Py.Qlt_bool (Nlp.confidence b) confidence then Some intent else best
             end
           else best)
        None patterns.

(** [recognize_intent], up to the entity extraction. *)
Definition recognize_intent (text : Text) : ParsedIntent Text :=
  let normalized := lower (strip text) in
  match scan INTENT_PATTERNS text normalized with
  | Some best => best
  | None =>
      {| category := UNKNOWN; tool_name := None; platform := None;
         confidence := 0; raw_text := text |}
  end.

(** The intent built from a row. *)
Definition intent_of (text : Text) (row : string * IntentCategory * option string * Q)
  : ParsedIntent Text :=
  {| category := row_category row; tool_name := None; platform := row_platform row;
     confidence := row_confidence row; raw_text := text |}.

(** Row [i] is the winner among the rows of [patterns] that match
    [normalized]: it matches, no matching row has a higher confidence, and
    every matching row before it has a strictly lower one. *)
Definition wins (patterns : list (string * IntentCategory * option string * Q))
    (normalized : Text) (i : nat)
    (row : string * IntentCategory * option string * Q) : Prop :=
  patterns !! i = Some row
  /\ search (row_pattern row) normalized = true
  /\ forall j row', patterns !! j = Some row' ->
       search (row_pattern row') normalized = true ->
       (row_confidence row' <= row_confidence row)%Q
       /\ ((j < i)%nat -> (row_confidence row' < row_confidence row)%Q).

(** One iteration of [scan]. *)
Definition step (text normalized : Text) (best : option (ParsedIntent Text))
    (row : string * IntentCategory * option string * Q) : option (ParsedIntent Text) :=
  if search (row_pattern row) normalized then
    match best with
    | None => Some (intent_of text row)
    | Some b =>
        if Py.Qlt_bool (confidence b) (row_confidence row)
        then Some (intent_of text row) else best
    end
  else best.

End Classifier.

Arguments scan {Text} search patterns text normalized.
Arguments recognize_intent {Text} strip lower search text.
Arguments intent_of {Text} text row.
Arguments wins {Text} search patterns normalized i row.
Arguments step {Text} search text normalized best row.

(** *** The classifier on ASCII texts

    On texts of ASCII characters the three calls are computed by [Py.strip],
    [Py.lower] and the matcher [Re.search]. *)
Definition recognize_ascii (text : string) : ParsedIntent string :=
  recognize_intent Py.strip Py.lower Re.search text.

End Nlp.

Module Correlation.
Import Models Infer.

(** The events of [l], numbered from [i], whose number is not in [used]. *)
Fixpoint unused (i : nat) (used : gset nat) (l : list CorrelatedEvent)
  : list CorrelatedEvent :=
  match l with
  | [] => []
  | x :: l' => (if decide (i ∈ used) then [] else [x]) ++ unused (S i) used l'
  end.

(** The grouping as a recursion on the sorted events: the first event seeds
    a group and takes, in order, every later event that overlaps with it;
    the events it leaves are grouped in the same way.  [fuel] bounds the
    number of seeds. *)
Fixpoint greedy (fuel : nat) (sorted_events : list CorrelatedEvent) (window_seconds : Z)
  : list (list CorrelatedEvent) :=
  match fuel, sorted_events with
  | S fuel, ev :: rest =>
      let taken := filter (fun o => overlaps_with ev o window_seconds = true) rest in
      let left := filter (fun o => overlaps_with ev o window_seconds <> true) rest in
      match taken with
      | [] => greedy fuel left window_seconds
      | _ => (ev :: taken) :: greedy fuel left window_seconds
      end
  | _, _ => []
  end.

End Correlation.

(** ** miga_shared/utils/redis_bus.py *)

Module RedisBus.

(** [RedisPubSub], with handlers of type [H]: whether [connect()] obtained a
    client, the handlers of each channel, and the channels subscribed to at
    the server. *)
Record RedisPubSub (H : Type) := {
  connected : bool;
  _handlers : gmap string (list H);
  subscribed : list string;
}.
Arguments connected {H} _.
Arguments _handlers {H} _.
Arguments subscribed {H} _.

(** [RedisPubSub.__init__]. *)
Definition init {H} : RedisPubSub H :=
  {| connected := false; _handlers := ∅; subscribed := [] |}.

(** [RedisPubSub.subscribe]:
    [self._handlers.setdefault(channel, []).append(handler)], and the
    subscription at the server when there is a connection. *)
Definition subscribe {H} (self : RedisPubSub H) (channel : string) (handler : H)
  : RedisPubSub H :=
  {| connected := connected self;
     _handlers :=
       <[channel := default [] (_handlers self !! channel) ++ [handler]]>
         (_handlers self);
     subscribed :=
       if connected self then subscribed self ++ [channel] else subscribed self |}.

(** [RedisPubSub.publish]: the number of receivers the server reports, 0
    without a connection or when the server call raises ([None]). *)
Definition publish {H D} (self : RedisPubSub H) (redis_publish : string -> D -> option Z)
    (channel : string) (data : D) : Z :=
  if connected self then default 0 (redis_publish channel data) else 0.

(** The channels of the convenience methods [publish_event],
    [publish_alert], [request_approval] and [publish_telemetry]. *)
Definition event_channel : string := "miga:events:correlated".
Definition alert_channel : string := "miga:alerts:security".
Definition approval_channel : string := "miga:approval:request".
Definition telemetry_channel (platform : string) : string :=
  "miga:telemetry:" +:+ platform.

(** What [pubsub.listen()] yields. *)
Record Message := {
  m_type : string;
  m_channel : string;
  m_data : string;
}.

(** The body of the loop of [_listen] for one message: the handler calls it
    makes, in order.  [loads] is [json.loads] ([None] on a
    [JSONDecodeError]); [raw s] is the dict [{"raw": s}].  An exception of a
    handler is logged and the loop goes on. *)
Definition deliver {H D} (self : RedisPubSub H) (loads : string -> option D)
    (raw : string -> D) (msg : Message) : list (H * string * D) :=
  if negb (String.eqb (m_type msg) "message") then []
  else
    let ch := m_channel msg in
    let data := default (raw (m_data msg)) (loads (m_data msg)) in
    (fun handler => (handler, ch, data)) <$> default [] (_handlers self !! ch).

End RedisBus.

(** ** servers/infer_mcp/server.py: the lifespan and its handlers *)

Module InferLifespan.
Import Models.

(** A JSON value as the handlers see it: a string, an object, or anything
    else (number, boolean, null, array). *)
Inductive Value :=
| VStr (s : string)
| VDict
| VOther.

(** [PlatformType(value)] and [SeverityLevel(value)]: the member with that
    value; [None] when there is none ([ValueError]). *)
Definition PlatformType_of (value : string) : option PlatformType :=
  head (filter (fun p => platform_value p = value) all_platforms).

Definition all_severities : list SeverityLevel := [CRITICAL; HIGH; MEDIUM; LOW; INFO].

Definition SeverityLevel_of (value : string) : option SeverityLevel :=
  head (filter (fun s => severity_value s = value) all_severities).

(** [str_strip_whitespace=True]: pydantic trims a string field with Rust's
    [str::trim], whose ASCII whitespace is tab, newline, vertical tab, form
    feed, carriage return and space. *)
Definition is_whitespace (c : ascii) : bool :=
  let n := nat_of_ascii c in
  (((9 <=? n)%nat && (n <=? 13)%nat) || (n =? 32)%nat)%bool.

Fixpoint trim_start (s : string) : string :=
  match s with
  | String c s' => if is_whitespace c then trim_start s' else s
  | EmptyString => EmptyString
  end.

Fixpoint trim_end (s : string) : string :=
  match s with
  | EmptyString => EmptyString
  | String c s' =>
      match trim_end s' with
      | EmptyString => if is_whitespace c then EmptyString else String c EmptyString
      | r => String c r
      end
  end.

Definition trim (s : string) : string := trim_end (trim_start s).

(** [data.get(key, default)] read as a string: [None] when the value is not
    one. *)
Definition get_str (data : gmap string Value) (key default : string) : option string :=
  match data !! key with
  | None => Some default
  | Some (VStr s) => Some s
  | Some _ => None
  end.

(** The event [_on_security_alert] builds, [None] when building it raises:
    [PlatformType(...)] or [SeverityLevel(...)] finds no member, or the
    validation of [CorrelatedEvent] refuses [event_type] (not a string) or
    [raw_data] (not an object).  [now] and [fresh_id] are the defaults of
    [timestamp] and [event_id]. *)
Definition security_alert_event (now : Z) (fresh_id : string) (data : gmap string Value)
  : option CorrelatedEvent :=
  source ← get_str data "source" "xdr" ≫= PlatformType_of;
  ty ← get_str data "event_type" "security_alert";
  sev ← get_str data "severity" "medium" ≫= SeverityLevel_of;
  match data !! "data" with
  | None | Some VDict =>
      Some {| event_id := fresh_id; source_platform := source;
              event_type := trim ty; severity := sev; timestamp := now;
              affected_entities := []; tags := []; correlation_group := None |}
  | Some _ => None
  end.

(** [_on_security_alert]: the buffer after the call. *)
Definition _on_security_alert (_event_buffer : list CorrelatedEvent) (now : Z)
    (fresh_id : string) (data : gmap string Value) : list CorrelatedEvent :=
  match security_alert_event now fresh_id data with
  | Some event => _event_buffer ++ [event]
  | None => _event_buffer
  end.

(** [_on_correlated_event]: the buffer after the call.  [validate data] is
    the event the constructor of [CorrelatedEvent] builds from the payload,
    [None] when the validation raises.
    [_event_buffer[-5000:]] on a buffer of more than 10000 events is its
    last 5000. *)
Definition _on_correlated_event (validate : gmap string Value -> option CorrelatedEvent)
    (_event_buffer : list CorrelatedEvent) (data : gmap string Value)
  : list CorrelatedEvent :=
  match validate data with
  | Some event =>
      let buffer := _event_buffer ++ [event] in
      if 10000 <? Z.of_nat (length buffer)
      then drop (length buffer - Z.to_nat 5000) buffer
      else buffer
  | None => _event_buffer
  end.

(** The two handlers. *)
Inductive Handler := OnCorrelatedEvent | OnSecurityAlert.

(** The subscriptions of [app_lifespan], in the order it makes them. *)
Definition subscriptions : list (string * Handler) :=
  [("miga:events:correlated", OnCorrelatedEvent);
   ("miga:alerts:security", OnSecurityAlert)]
  ++ ((fun platform => ("miga:telemetry:" +:+ platform_value platform, OnCorrelatedEvent))
        <$> all_platforms).

Definition subscribe_all (bus : RedisBus.RedisPubSub Handler) : RedisBus.RedisPubSub Handler :=
  foldl (fun bus '(channel, handler) => RedisBus.subscribe bus channel handler)
        bus subscriptions.

(** *** Vocabulary *)

(** [CorrelatedEvent.model_dump(mode="json")] by classes of values:
    [isoformat] renders the timestamp. *)
Definition model_dump_json (isoformat : Z -> string) (e : CorrelatedEvent)
  : gmap string Value :=
  {[ "event_id" := VStr (event_id e);
     "source_platform" := VStr (platform_value (source_platform e));
     "event_type" := VStr (event_type e);
     "severity" := VStr (severity_value (severity e));
     "timestamp" := VStr (isoformat (timestamp e));
     "affected_entities" := VOther;
     "raw_data" := VDict;
     "tags" := VOther;
     "correlation_group" :=
       match correlation_group e with Some s => VStr s | None => VOther end ]}.

(** The handlers a message on [channel] is delivered to. *)
Definition handlers_of (bus : RedisBus.RedisPubSub Handler) (channel : string)
  : list Handler :=
  default [] (RedisBus._handlers bus !! channel).

End InferLifespan.

Module Forecast.
Import Models Infer.

(** *** Vocabulary of the statements about the predictions *)

(** The events of a platform whose severity is high or critical. *)
Definition high_events (p : PlatformType) (events : list CorrelatedEvent)
  : list CorrelatedEvent :=
  filter (fun e => source_platform e = p /\ (severity e = HIGH \/ severity e = CRITICAL))
         events.

(** The platforms the events come from, each once. *)
Definition distinct_platforms (events : list CorrelatedEvent) : list PlatformType :=
  remove_dups (source_platform <$> events).

(** The first loop of [predict_failures]: the number of high-severity
    events of each platform, in the order of their first such event. *)
Definition platform_counts (events : list CorrelatedEvent) : list (string * nat) :=
  foldl (fun counts e =>
           if 4 <=? _severity_rank (severity_value (severity e))
           then count_up (platform_value (source_platform e)) counts
           else counts)
        [] events.

(** The prediction of a cascading failure. *)
Definition cascading_failure (id platform : string) (count : nat) : Prediction :=
  {| prediction_id := id;
     p_type := "cascading_failure";
     risk_level := "high";
     p_confidence := Qmin (90 # 100) ((6 # 10) + inject_Z (Z.of_nat count) * (1 # 10));
     p_affected_platforms := [platform];
     time_horizon_minutes := 30 |}.

(** A prediction without its identifier. *)
Definition anonymous (P : Prediction) : Prediction :=
  {| prediction_id := ""; p_type := p_type P; risk_level := risk_level P;
     p_confidence := p_confidence P; p_affected_platforms := p_affected_platforms P;
     time_horizon_minutes := time_horizon_minutes P |}.

End Forecast.

Module InferTools.
Import Models Infer.

(** [detect_anomalies_tool]: the anomalies it reports and the anomaly log
    after the call.  [now] is [datetime.now(timezone.utc)]. *)
Definition detect_anomalies_tool (uuid4 : nat -> string) (ANOMALY_SENSITIVITY : Q)
    (now : Z) (_event_buffer : list CorrelatedEvent) (_anomaly_log : list Anomaly)
    (lookback_minutes : Z) (min_confidence : Q) : list Anomaly * list Anomaly :=
  let cutoff := now - lookback_minutes * 60 * 1000000 in
  let events := filter (fun e => cutoff <= timestamp e) _event_buffer in
  let anomalies := detect_anomalies uuid4 ANOMALY_SENSITIVITY events in
  let anomalies :=
    filter (fun a => Qle_bool min_confidence (a_confidence a) = true) anomalies in
  match anomalies with
  | [] => ([], _anomaly_log)
  | _ => (anomalies, _anomaly_log ++ anomalies)
  end.

End InferTools.

(** ** packages/gateway/server.py: static fallback, startup and refresh *)

Module GatewayStartup.
Import Models Gateway.

(** [c.upper()] on an ASCII character, and [s.upper()]. *)
Definition upper_ascii (c : ascii) : ascii :=
  let n := nat_of_ascii c in
  if ((97 <=? n)%nat && (n <=? 122)%nat)%bool then ascii_of_nat (n - 32) else c.

Fixpoint upper (s : string) : string :=
  match s with
  | EmptyString => EmptyString
  | String c s' => String (upper_ascii c) (upper s')
  end.

(** [s.replace(old, new)] for a non-empty [old]: every occurrence of [old],
    found from left to right without overlap, becomes [new].  [skip] counts
    the characters of an occurrence still to pass over. *)
Fixpoint replace_from (old new : string) (skip : nat) (s : string) : string :=
  match s with
  | EmptyString => EmptyString
  | String c s' =>
      match skip with
      | S skip' => replace_from old new skip' s'
      | O =>
          if String.prefix old s
          then new +:+ replace_from old new (String.length old - 1) s'
          else String c (replace_from old new 0 s')
      end
  end.

Definition replace (old new s : string) : string := replace_from old new 0 s.

(** The table of [_build_static_records]. *)
Definition servers : list (string * PlatformType * string) := [
  ("catalyst_center_mcp", CATALYST_CENTER, "8001");
  ("meraki_mcp", MERAKI, "8002");
  ("thousandeyes_mcp", THOUSANDEYES, "8003");
  ("webex_mcp", WEBEX, "8004");
  ("xdr_mcp", XDR, "8005");
  ("security_cloud_control_mcp", SECURITY_CLOUD_CONTROL, "8006");
  ("infer_mcp", INFER, "8007");
  ("appdynamics_mcp", APPDYNAMICS, "8008");
  ("nexus_dashboard_mcp", NEXUS_DASHBOARD, "8009");
  ("sdwan_mcp", SDWAN, "8010");
  ("ise_mcp", ISE, "8011");
  ("splunk_mcp", SPLUNK, "8012");
  ("hypershield_mcp", HYPERSHIELD, "8013")
].

(** [_build_static_records]: one record per server, with the defaults of
    [OASFRecord] for the fields it does not give. *)
Definition _build_static_records (environ : gmap string string)
  : list Agntcy.OASFRecord :=
  (fun '(name, platform, default_port) =>
     let port :=
       default default_port
               (Agntcy.getenv environ (replace "_MCP" "_MCP" (upper name) +:+ "_PORT")) in
     let host := replace "_" "-" name in
     {| Agntcy.name := name; Agntcy.version := "1.0.0"; Agntcy.description := "";
        Agntcy.platform := Some platform; Agntcy.skills := []; Agntcy.domains := [];
        Agntcy.capabilities := []; Agntcy.roles := [];
        Agntcy.transport := "streamable_http";
        Agntcy.endpoint := "http://" +:+ host +:+ ":" +:+ port |})
    <$> servers.

(** The start of [app_lifespan]: the records of the directory, or the static
    ones when it gives none, are loaded.  [get] is what the GET of
    [discover] does. *)
Definition startup (routing : RoutingTable) (environ : gmap string string)
    (get : Agntcy.Outcome (list Agntcy.OASFRecord)) (now : Q) : RoutingTable :=
  let records := Agntcy.discover get in
  let records :=
    match records with
    | [] => _build_static_records environ
    | _ => records
    end in
  load_from_oasf routing records now.

(** One turn of [_refresh_loop]. *)
Definition refresh (routing : RoutingTable)
    (get : Agntcy.Outcome (list Agntcy.OASFRecord)) (now : Q) : RoutingTable :=
  match Agntcy.discover get with
  | [] => routing
  | fresh => load_from_oasf routing fresh now
  end.

(** *** Vocabulary *)

(** The entries a fan-out considers: those of the role, restricted to the
    platforms asked for when some are. *)
Definition candidates (routing : RoutingTable) (role : MIGARole)
    (platforms : option (list string)) : list RoutingEntry :=
  match platforms with
  | Some (p :: ps) =>
      filter (fun e => platform_value (platform e) ∈ p :: ps) (tools_for_role routing role)
  | _ => tools_for_role routing role
  end.

(** The health, overview and status tools among them. *)
Definition summary_tools (routing : RoutingTable) (role : MIGARole)
    (platforms : option (list string)) : list RoutingEntry :=
  filter (fun e => is_summary_tool e = true) (candidates routing role platforms).

(** Two tables with the same indexes and endpoints. *)
Definition same_routes (t1 t2 : RoutingTable) : Prop :=
  _by_tool t1 = _by_tool t2 /\ _by_role t1 = _by_role t2
  /\ _by_platform t1 = _by_platform t2 /\ _endpoints t1 = _endpoints t2.

End GatewayStartup.

(** ** miga_shared/agntcy/__init__.py: the wire form of a record *)

Module AgntcyWire.
Import Models Agntcy.

(** The dicts [to_dict] builds and [from_dict] reads, as typed trees: a key
    that is absent is [None]; a key that is present holds a value of the
    type [to_dict] writes.  [rd_tools] is
    [data["modules"]["mcp_server"]["tools"]]; a [platform] that is [null] is
    read as absent. *)
Record ToolDict := {
  td_name : option string;
  td_description : option string;
  td_roles : option (list string);
  td_read_only : option bool;
  td_destructive : option bool;
  td_requires_approval : option bool;
}.

Record Attributes := {
  at_platform : option string;
  at_roles : option (list string);
  at_transport : option string;
  at_endpoint : option string;
}.

Record RecordDict := {
  rd_name : option string;
  rd_version : option string;
  rd_description : option string;
  rd_attributes : option Attributes;
  rd_skills : option (list string);
  rd_domains : option (list string);
  rd_tools : option (list ToolDict);
}.

(** [MIGARole(value)]: the member with that value, [None] when there is
    none ([ValueError]). *)
Definition MIGARole_of (value : string) : option MIGARole :=
  head (filter (fun r => role_value r = value) all_roles).

(** [OASFRecord.to_dict]. *)
Definition to_dict (self : OASFRecord) : RecordDict :=
  {| rd_name := Some (name self);
     rd_version := Some (version self);
     rd_description := Some (description self);
     rd_attributes :=
       Some {| at_platform := platform_value <$> platform self;
               at_roles := Some (role_value <$> roles self);
               at_transport := Some (transport self);
               at_endpoint := Some (endpoint self) |};
     rd_skills := Some (skills self);
     rd_domains := Some (domains self);
     rd_tools :=
       Some ((fun c =>
                {| td_name := Some (cap_tool_name c);
                   td_description := Some (cap_description c);
                   td_roles := Some (role_value <$> cap_roles c);
                   td_read_only := Some (cap_read_only c);
                   td_destructive := Some (cap_destructive c);
                   td_requires_approval := Some (cap_requires_approval c) |})
               <$> capabilities self) |}.

(** The capability [from_dict] builds from one tool; [t["name"]] raises
    when the key is absent, [MIGARole(r)] when [r] is no role. *)
Definition capability_of (platform : option PlatformType) (t : ToolDict)
  : option PlatformCapability :=
  tool_name ← td_name t;
  roles ← mapM MIGARole_of (default [] (td_roles t));
  Some {| cap_tool_name := tool_name;
          cap_description := default "" (td_description t);
          cap_roles := roles;
          cap_read_only := default true (td_read_only t);
          cap_destructive := default false (td_destructive t);
          cap_requires_approval := default false (td_requires_approval t);
          cap_platform := default INFER platform |}.

(** [attrs.get("platform")] is falsy when absent or empty. *)
Definition platform_of (attrs : Attributes) : option (option PlatformType) :=
  match at_platform attrs with
  | Some p =>
      if String.eqb p "" then Some None else Some <$> InferLifespan.PlatformType_of p
  | None => Some None
  end.

(** [OASFRecord.from_dict]; [None] when it raises. *)
Definition from_dict (data : RecordDict) : option OASFRecord :=
  let attrs :=
    default {| at_platform := None; at_roles := None; at_transport := None;
               at_endpoint := None |} (rd_attributes data) in
  let tools := default [] (rd_tools data) in
  platform ← platform_of attrs;
  roles ← mapM MIGARole_of (default [] (at_roles attrs));
  capabilities ← mapM (capability_of platform) tools;
  Some {| name := default "" (rd_name data);
          version := default "1.0.0" (rd_version data);
          description := default "" (rd_description data);
          platform := platform;
          skills := default [] (rd_skills data);
          domains := default [] (rd_domains data);
          capabilities := capabilities;
          roles := roles;
          transport := default "streamable_http" (at_transport attrs);
          endpoint := default "" (at_endpoint attrs) |}.

(** [DirectoryClient.discover] on the wire: the body of the answer is the
    list of dicts; an exception of [from_dict] is caught like any other. *)
Definition discover_records (get : Outcome (list RecordDict)) : list OASFRecord :=
  discover
    match get with
    | Answers resp =>
        Answers {| status_code := status_code resp;
                   json := json resp ≫= mapM from_dict |}
    | Raises e => Raises e
    end.

(** *** Vocabulary *)

(** [self] with the platform of every capability set to [p]. *)
Definition with_capability_platform (p : PlatformType) (self : OASFRecord) : OASFRecord :=
  {| name := name self; version := version self; description := description self;
     platform := platform self; skills := skills self; domains := domains self;
     capabilities :=
       (fun c =>
          {| cap_tool_name := cap_tool_name c; cap_description := cap_description c;
             cap_roles := cap_roles c; cap_read_only := cap_read_only c;
             cap_destructive := cap_destructive c;
             cap_requires_approval := cap_requires_approval c;
             cap_platform := p |}) <$> capabilities self;
     roles := roles self; transport := transport self; endpoint := endpoint self |}.

(** A role name that is not the value of a [MIGARole]. *)
Definition unknown_role (value : string) : Prop :=
  forall r : MIGARole, role_value r <> value.

(** A platform name that is neither empty nor the value of a
    [PlatformType]. *)
Definition unknown_platform (value : string) : Prop :=
  value <> "" /\ forall p : PlatformType, platform_value p <> value.

End AgntcyWire.

(** ** miga_shared/clients/__init__.py *)

Module Clients.

(** A response as [_request] reads it.  [retry_after] is
    [resp.headers.get("Retry-After")]: [None] when the header is absent,
    otherwise what [float()] makes of its value ([Some None] when [float]
    raises [ValueError]).  [json] is [resp.json()], [None] when it raises. *)
Record Response (A : Type) := {
  status_code : Z;
  retry_after : option (option Q);
  text : string;
  json : option A;
}.
Arguments status_code {A} _.
Arguments retry_after {A} _.
Arguments text {A} _.
Arguments json {A} _.

(** What [self._http.request] does: answer, or raise a transport error. *)
Inductive Outcome (A : Type) :=
| Answers (resp : Response A)
| Raises (e : Agntcy.TransportError).
Arguments Answers {A} _.
Arguments Raises {A} _.

(** The subclasses of [httpx.TimeoutException]. *)
Definition is_timeout (e : Agntcy.TransportError) : bool :=
  match e with
  | Agntcy.ConnectTimeout | Agntcy.ReadTimeout | Agntcy.WriteTimeout
  | Agntcy.PoolTimeout => true
  | _ => false
  end.

(** The exceptions the handlers of [_request] catch. *)
Inductive Caught :=
| HTTPStatusError (status : Z)            (* resp.raise_for_status() *)
| Transport (e : Agntcy.TransportError)   (* self._http.request *)
| ValueError                              (* float() of the Retry-After header *)
| JSONDecodeError.                        (* resp.json() *)

(** The message of the [PlatformAPIError] raised, one constructor per
    [raise]. *)
Inductive Message :=
| AuthFailed                               (* "Auth failed" *)
| NotFound (path : string)                 (* f"Not found: {path}" *)
| ResponseText (text : string)             (* e.response.text[:500] *)
| Str (e : Caught)                         (* str(e) *)
| FailedAfterRetries (last_err : option Caught).
                                           (* f"Failed after 3 retries: {last_err}" *)

Record PlatformAPIError := {
  platform : string;
  message : Message;
  error_status : option Z;
}.

Inductive Result (A : Type) :=
| Returned (value : option A)   (* None: the [None] of a 204 *)
| Raised (e : PlatformAPIError).
Arguments Returned {A} _.
Arguments Raised {A} _.

(** What a call does to the outside world, in order. *)
Inductive Event :=
| Requested (method path : string)   (* self._http.request(method, path) *)
| Slept (seconds : Q).               (* asyncio.sleep *)

Definition MAX_RETRIES : nat := 3.
Definition BACKOFF : list Q := [1%Q; 2%Q; 4%Q].

(** [BACKOFF[attempt]]; [attempt] ranges over [range(MAX_RETRIES)], so the
    index is always in range. *)
Definition backoff (attempt : nat) : Q := default 0%Q (BACKOFF !! attempt).

(** How one iteration of the loop ends. *)
Inductive Step (A : Type) :=
| Return (value : option A)
| Raise (e : PlatformAPIError)
| Continue (slept : list Q) (last_err : option Caught).
Arguments Return {A} _.
Arguments Raise {A} _.
Arguments Continue {A} _ _.

Section Request.
Context {A : Type}.
Variable platform_name : string.
Variables method path : string.

(** The body of the loop of [_request], given what the request does. *)
Definition attempt_once (outcome : Outcome A) (attempt : nat)
    (last_err : option Caught) : Step A :=
  match outcome with
  | Answers resp =>
      if status_code resp =? 429 then
        match retry_after resp with
        | Some None =>
            Raise {| platform := platform_name; message := Str ValueError;
                     error_status := None |}
        | Some (Some wait) => Continue [wait] last_err
        | None => Continue [backoff attempt] last_err
        end
      else if Agntcy.raise_for_status (status_code resp) then
        let sc := status_code resp in
        if (sc =? 401) || (sc =? 403) then
          Raise {| platform := platform_name; message := AuthFailed;
                   error_status := Some sc |}
        else if sc =? 404 then
          Raise {| platform := platform_name; message := NotFound path;
                   error_status := Some 404 |}
        else if (500 <=? sc) && (attempt <? MAX_RETRIES - 1)%nat then
          Continue [backoff attempt] (Some (HTTPStatusError sc))
        else
          Raise {| platform := platform_name;
                   message := ResponseText (substring 0 500 (text resp));
                   error_status := Some sc |}
      else if negb (status_code resp =? 204) then
        match json resp with
        | Some value => Return (Some value)
        | None =>
            Raise {| platform := platform_name; message := Str JSONDecodeError;
                     error_status := None |}
        end
      else Return None
  | Raises e =>
      if is_timeout e then
        if (attempt <? MAX_RETRIES - 1)%nat
        then Continue [backoff attempt] (Some (Transport e))
        else Continue [] (Some (Transport e))
      else
        Raise {| platform := platform_name; message := Str (Transport e);
                 error_status := None |}
  end.

(** The loop over the attempts that are left; [http attempt] is what the
    request of that attempt does. *)
Fixpoint attempts (http : nat -> Outcome A) (todo : list nat)
    (last_err : option Caught) : Result A * list Event :=
  match todo with
  | [] =>
      (Raised {| platform := platform_name;
                 message := FailedAfterRetries last_err;
                 error_status := None |}, [])
  | attempt :: todo =>
      match attempt_once (http attempt) attempt last_err with
      | Return value => (Returned value, [Requested method path])
      | Raise e => (Raised e, [Requested method path])
      | Continue slept last_err =>
          let (result, events) := attempts http todo last_err in
          (result, Requested method path :: (Slept <$> slept) ++ events)
      end
  end.

(** [CiscoAPIClient._request]. *)
Definition _request (http : nat -> Outcome A) : Result A * list Event :=
  attempts http (seq 0 MAX_RETRIES) None.

End Request.

(** *** Vocabulary *)

(** The requests of a trace. *)
Definition requests (events : list Event) : list (string * string) :=
  omap (fun ev => match ev with Requested m p => Some (m, p) | Slept _ => None end)
       events.

(** The request is answered with a success, and [value] is what the call
    returns for it. *)
Definition success {A} (outcome : Outcome A) (value : option A) : Prop :=
  exists resp, outcome = Answers resp
    /\ 200 <= status_code resp <= 299
    /\ (if decide (status_code resp = 204) then value = None
        else is_Some (json resp) /\ value = json resp).

(** The request is rate limited (with a [Retry-After] that [float] reads,
    or none), answered with a server error, or timed out. *)
Definition transient {A} (outcome : Outcome A) : Prop :=
  match outcome with
  | Answers resp =>
      (status_code resp = 429 /\ retry_after resp <> Some None)
      \/ 500 <= status_code resp
  | Raises e => is_timeout e = true
  end.

(** The request is answered 429. *)
Definition rate_limited {A} (outcome : Outcome A) (wait : option Q) : Prop :=
  exists resp, outcome = Answers resp /\ status_code resp = 429
    /\ retry_after resp = Some <$> wait.

(** *** Scenarios *)

(** Three rate limits; the second carries [Retry-After: 3600]. *)
Definition rate_limits : nat -> Outcome unit := fun attempt =>
  Answers {| status_code := 429;
             retry_after := if decide (attempt = 1%nat) then Some (Some 3600%Q) else None;
             text := ""; json := None |}.

End Clients.

(** ** miga_shared/auth/__init__.py *)

Module Auth.

(** [_TokenCache._store]: key to (token, expiry).  The clock [time.time()]
    is an argument of the operations that read it. *)
Definition _TokenCache := gmap string (string * Q).

(** [_TokenCache.get]: the token and the store it leaves. *)
Definition get (self : _TokenCache) (key : string) (now : Q)
  : option string * _TokenCache :=
  match self !! key with
  | Some (tok, exp) =>
      if Py.Qlt_bool now (exp - 60) then (Some tok, self)
      else (None, delete key self)
  | None => (None, self)
  end.

(** [_TokenCache.put]. *)
Definition put (self : _TokenCache) (key token : string) (expires_in : Z) (now : Q)
  : _TokenCache :=
  <[key := (token, (now + inject_Z expires_in)%Q)]> self.

(** [EntraIDAuth], after [__init__]. *)
Record EntraIDAuth := {
  tenant_id : string;
  client_id : string;
  client_secret : string;
  authority : string;
}.

(** The body of the token endpoint's answer, as [get_token] reads it. *)
Record TokenBody := {
  access_token : option string;
  expires_in : option Z;
}.

(** The POST of [get_token]: the URL and the form fields that vary. *)
Record TokenRequest := {
  url : string;
  form_client_id : string;
  form_client_secret : string;
  form_scope : string;
}.

(** Why [get_token] raises [AuthenticationError]. *)
Inductive AuthFailure :=
| TransportFailure (e : Agntcy.TransportError)
| StatusFailure (status : Z)      (* resp.raise_for_status() *)
| BodyFailure                     (* resp.json() *)
| KeyError_access_token.          (* data["access_token"] *)

Inductive TokenResult :=
| Token (token : string)
| AuthenticationError (why : AuthFailure).

Section GetToken.
(** [hashlib.sha256(s.encode()).hexdigest()]. *)
Variable sha256_hexdigest : string -> string.

Definition cache_key (self : EntraIDAuth) (scope : string) : string :=
  sha256_hexdigest (client_id self +:+ ":" +:+ scope).

Definition token_request (self : EntraIDAuth) (scope : string) : TokenRequest :=
  {| url := authority self +:+ "/oauth2/v2.0/token";
     form_client_id := client_id self;
     form_client_secret := client_secret self;
     form_scope := scope |}.

(** [EntraIDAuth.get_token] on the module-level [_cache].  [now] is the
    clock when the cache is read, [later] when the fetched token is stored;
    [post] is what the POST does.  Returns the result, the cache and the
    requests sent. *)
Definition get_token (self : EntraIDAuth) (scope : string) (now later : Q)
    (post : Agntcy.Outcome TokenBody) (_cache : _TokenCache)
  : TokenResult * _TokenCache * list TokenRequest :=
  let (cached, _cache) := get _cache (cache_key self scope) now in
  if Py.truthy cached then (Token (default "" cached), _cache, [])
  else
    let sent := [token_request self scope] in
    match post with
    | Agntcy.Raises e => (AuthenticationError (TransportFailure e), _cache, sent)
    | Agntcy.Answers resp =>
        if Agntcy.raise_for_status (Agntcy.status_code resp)
        then (AuthenticationError (StatusFailure (Agntcy.status_code resp)), _cache, sent)
        else
          match Agntcy.json resp with
          | None => (AuthenticationError BodyFailure, _cache, sent)
          | Some data =>
              match access_token data with
              | None => (AuthenticationError KeyError_access_token, _cache, sent)
              | Some token =>
                  (Token token,
                   put _cache (cache_key self scope) token
                       (default 3600 (expires_in data)) later,
                   sent)
              end
          end
    end.

End GetToken.

(** *** Vocabulary *)

(** The token endpoint answers with [token], valid [lifetime] seconds. *)
Definition grants (post : Agntcy.Outcome TokenBody) (token : string) (lifetime : Z)
  : Prop :=
  exists resp data,
    post = Agntcy.Answers resp
    /\ Agntcy.raise_for_status (Agntcy.status_code resp) = false
    /\ Agntcy.json resp = Some data
    /\ access_token data = Some token
    /\ default 3600 (expires_in data) = lifetime.

End Auth.

(** ** packages/webex_bot/app.py *)

Module Bot.
Import Nlp.

(** One item of the [content] list of an MCP result. *)
Record ContentItem := {
  item_type : option string;
  item_text : option string;
}.

(** The body of the gateway's JSON-RPC answer as [call_gateway] reads it:
    an object with an ["error"] (and its [message], when it has one), or an
    object whose [result.content] is a list of items (empty when absent). *)
Inductive GatewayBody :=
| BodyError (message : option string)
| BodyContent (content : list ContentItem).

(** The string [call_gateway] returns, one constructor per [return]. *)
Inductive GatewayReply :=
| GatewayError (message : string)      (* "Gateway error: {message}" *)
| Texts (texts : list string)          (* "\n".join(texts) *)
| Dump                                 (* json.dumps(result.get("result", result)) *)
| Unreachable                          (* except httpx.ConnectError *)
| CommunicationError.                  (* except Exception *)

(** [call_gateway], given what the POST to [{GATEWAY_URL}/mcp] does. *)
Definition call_gateway (post : Agntcy.Outcome GatewayBody) : GatewayReply :=
  match post with
  | Agntcy.Raises Agntcy.ConnectError => Unreachable
  | Agntcy.Raises _ => CommunicationError
  | Agntcy.Answers resp =>
      if Agntcy.raise_for_status (Agntcy.status_code resp) then CommunicationError
      else match Agntcy.json resp with
           | None => CommunicationError
           | Some (BodyError message) => GatewayError (default "Unknown" message)
           | Some (BodyContent content) =>
               let texts :=
                 (fun c => default "" (item_text c))
                   <$> filter (fun c => item_type c = Some "text") content in
               match texts with
               | [] => Dump
               | _ => Texts texts
               end
           end
  end.

(** The arguments object of the gateway call: the two keys [handle_intent]
    sets and [intent.arguments], the entities found in the text (its keys
    are the six entity types, so it overwrites neither). *)
Record CallArguments (E : Type) := {
  arg_platforms : option (list string);
  arg_tool_name : option string;
  arg_entities : E;
}.
Arguments arg_platforms {E} _.
Arguments arg_tool_name {E} _.
Arguments arg_entities {E} _.

(** What the bot posts to the room. *)
Inductive Message :=
| Help                                (* markdown=format_help() *)
| NotSure                             (* markdown="I'm not sure what you're asking ..." *)
| Checking                            (* text="Checking..." *)
| Result (reply : GatewayReply).      (* markdown=result *)

Inductive Effect (E : Type) :=
| Send (room_id : string) (m : Message)                  (* webex_send_message *)
| Call (tool_name : string) (arguments : CallArguments E).   (* call_gateway *)
Arguments Send {E} _ _.
Arguments Call {E} _ _.

(** [INTENT_TO_TOOL]. *)
Definition INTENT_TO_TOOL (c : IntentCategory) : option string :=
  match c with
  | OBSERVABILITY => Some "observability"
  | SECURITY => Some "security"
  | AUTOMATION => Some "automation"
  | CONFIGURATION => Some "configuration"
  | COMPLIANCE => Some "compliance"
  | IDENTITY => Some "identity"
  | STATUS => Some "network_status"
  | HELP | UNKNOWN => None
  end.

Section Handle.
Context {E Text : Type}.

(** The outside world of one call of [handle_intent]: whether WebEx accepts
    the n-th message the call posts ([raise_for_status] does not raise), and
    what the POST to the gateway does. *)
Variable webex_accepts : nat -> bool.
Variable gateway : string -> CallArguments E -> Agntcy.Outcome GatewayBody.

(** [handle_intent(intent, room_id)]; [arguments] is [intent.arguments].
    Returns whether the call ended without raising, and its effects. *)
Definition handle_intent (intent : ParsedIntent Text) (arguments : E) (room_id : string)
  : bool * list (Effect E) :=
  if decide (category intent = HELP) then
    (webex_accepts 0%nat, [Send room_id Help])
  else
    let proceed (tool_name : string) :=
      let arguments :=
        {| arg_platforms :=
             if Py.truthy (platform intent)
             then Some [default "" (platform intent)] else None;
           arg_tool_name :=
             if Py.truthy (Nlp.tool_name intent) then Nlp.tool_name intent else None;
           arg_entities := arguments |} in
      if webex_accepts 0%nat then
        let result := call_gateway (gateway tool_name arguments) in
        (webex_accepts 1%nat,
         [Send room_id Checking; Call tool_name arguments;
          Send room_id (Result result)])
      else (false, [Send room_id Checking]) in
    if decide (category intent = UNKNOWN) then
      if Py.Qlt_bool (confidence intent) (1 # 2) then
        (webex_accepts 0%nat, [Send room_id NotSure])
      else proceed "observability"
    else proceed (default "observability" (INTENT_TO_TOOL (category intent))).

End Handle.

(** *** Vocabulary *)

(** The gateway calls of a trace. *)
Definition calls {E} (effects : list (Effect E)) : list (string * CallArguments E) :=
  omap (fun ev => match ev with Call t a => Some (t, a) | Send _ _ => None end) effects.

(** The messages of a trace. *)
Definition messages {E} (effects : list (Effect E)) : list Message :=
  omap (fun ev => match ev with Send _ m => Some m | Call _ _ => None end) effects.

End Bot.

(** ** Python floats *)

Module PyFloat.

(** The operations on [float] that [detect_anomalies] and its tool perform.
    The interpreter leaves two of them to the platform and to its version:
    [x ** y] is the C library's [pow], which is not correctly rounded, and
    [sum] adds from the left up to CPython 3.11 and compensates the rounding
    errors from 3.12 on.  What is proved of the detector is therefore proved
    for every arithmetic of this signature. *)
Record Arithmetic := {
  num : Type;                          (* float *)
  of_int : Z -> num;                   (* an int operand of a float operation *)
  literal : Q -> num;                  (* a decimal literal *)
  total_seconds : Z -> num;            (* timedelta.total_seconds(), of microseconds *)
  fsum : list num -> num;              (* sum(xs) *)
  fadd : num -> num -> num;            (* x + y *)
  fsub : num -> num -> num;            (* x - y *)
  fmul : num -> num -> num;            (* x * y *)
  fdiv : num -> num -> num;            (* x / y *)
  fpow : num -> num -> num;            (* x ** y *)
  flt : num -> num -> bool;            (* x < y *)
  fle : num -> num -> bool;            (* x <= y *)
  feq : num -> num -> bool;            (* x == y *)
  round1 : num -> num;                 (* round(x, 1) *)
}.

(** [min(x, y)]: the first of the smallest. *)
Definition fmin (A : Arithmetic) (x y : num A) : num A :=
  if flt A y x then y else x.

(** *** IEEE 754 binary64 *)

(** The float nearest to a rational, ties to even: how a decimal literal is
    read and how [int / int] and [float(int)] round. *)
Definition ofQ (q : Q) : float :=
  match Qnum q with
  | Z0 => 0%float
  | Zpos p =>
      SF2Prim (SFdiv prec emax (S754_finite false p 0) (S754_finite false (Qden q) 0))
  | Zneg p =>
      SF2Prim (SFdiv prec emax (S754_finite true p 0) (S754_finite false (Qden q) 0))
  end.

(** The nearest integer, ties to even. *)
Definition round_half_even (q : Q) : Z :=
  let d := Z.pos (Qden q) in
  let k := Qnum q / d in
  let rem := Qnum q mod d in
  if 2 * rem <? d then k
  else if d <? 2 * rem then k + 1
  else if Z.even k then k else k + 1.

(** [round(x, 1)]: the decimal with one digit after the point nearest to the
    value of [x], ties to even, read back as a float; the sign is kept. *)
Definition round1_binary64 (x : float) : float :=
  match Prim2SF x with
  | S754_finite s m e =>
      let magnitude :=
        if (0 <=? e)%Z then inject_Z (Z.pos m * 2 ^ e) else (Z.pos m # 2 ^ Z.to_pos (- e))%Q in
      let y := ofQ (round_half_even (10 * magnitude)%Q # 10) in
      if s then (- y)%float else y
  | _ => x
  end.

(** [x ** y] at the two exponents [detect_anomalies] uses, where the C
    library returns the rounded product and the rounded square root at the
    operands of the scenarios of this file. *)
Definition pow_binary64 (x y : float) : float :=
  if (y =? 2)%float then (x * x)%float
  else if (y =? 0.5)%float then PrimFloat.sqrt x
  else PrimFloat.nan.

(** [sum] up to CPython 3.11: the floats are added from the left. *)
Definition sum_left (xs : list float) : float :=
  foldl PrimFloat.add 0%float xs.

(** [sum] from CPython 3.12 on: Neumaier's compensated summation. *)
Definition cs_add (total : float * float) (x : float) : float * float :=
  let '(hi, lo) := total in
  let t := (hi + x)%float in
  if (PrimFloat.abs x <=? PrimFloat.abs hi)%float then (t, (lo + ((hi - t) + x))%float)
  else (t, (lo + ((x - t) + hi))%float).

Definition sum_compensated (xs : list float) : float :=
  let '(hi, lo) := foldl cs_add (0%float, 0%float) xs in
  if negb (lo =? 0)%float && (PrimFloat.abs lo <? PrimFloat.infinity)%float then (hi + lo)%float else hi.

Definition binary64_with (sum : list float -> float) : Arithmetic :=
  {| num := float;
     of_int := fun z => ofQ (inject_Z z);
     literal := ofQ;
     total_seconds := fun microseconds => ofQ (microseconds # 1000000);
     fsum := sum;
     fadd := PrimFloat.add;
     fsub := PrimFloat.sub;
     fmul := PrimFloat.mul;
     fdiv := PrimFloat.div;
     fpow := pow_binary64;
     flt := PrimFloat.ltb;
     fle := PrimFloat.leb;
     feq := PrimFloat.eqb;
     round1 := round1_binary64 |}.

Definition binary64 : Arithmetic := binary64_with sum_left.

Definition binary64_compensated : Arithmetic := binary64_with sum_compensated.

End PyFloat.

(** ** servers/infer_mcp/server.py: the anomaly detector in float arithmetic *)

Module InferFloat.
Import Models PyFloat.

(** One record of [detect_anomalies], without its description. *)
Record Anomaly (F : Type) := {
  anomaly_id : string;
  a_platform : string;
  a_event_type : string;
  a_pattern : string;
  mean_interval_seconds : F;
  recent_interval_seconds : F;
  std_dev : F;
  a_confidence : F;
  a_severity : string;
}.
Arguments anomaly_id {F} _.
Arguments a_platform {F} _.
Arguments a_event_type {F} _.
Arguments a_pattern {F} _.
Arguments mean_interval_seconds {F} _.
Arguments recent_interval_seconds {F} _.
Arguments std_dev {F} _.
Arguments a_confidence {F} _.
Arguments a_severity {F} _.

Section Detector.

Variable A : Arithmetic.
Variable uuid4 : nat -> string.

(** [ANOMALY_SENSITIVITY], read from the environment (default 0.85). *)
Variable ANOMALY_SENSITIVITY : num A.

(** [[(sorted_ts[i + 1] - sorted_ts[i]).total_seconds() for i in range(len(sorted_ts) - 1)]]. *)
Fixpoint intervals (sorted_ts : list Z) : list (num A) :=
  match sorted_ts with
  | a :: (b :: _) as rest => total_seconds A (b - a) :: intervals rest
  | _ => []
  end.

(** [sum(intervals) / len(intervals)]. *)
Definition mean (intervals : list (num A)) : num A :=
  fdiv A (fsum A intervals) (of_int A (Z.of_nat (length intervals))).

(** [sum((x - mean_interval) ** 2 for x in intervals) / len(intervals)]. *)
Definition variance (intervals : list (num A)) : num A :=
  let mean_interval := mean intervals in
  fdiv A (fsum A ((fun x => fpow A (fsub A x mean_interval) (of_int A 2)) <$> intervals))
         (of_int A (Z.of_nat (length intervals))).

(** [variance ** 0.5]. *)
Definition deviation (intervals : list (num A)) : num A :=
  fpow A (variance intervals) (literal A (5 # 10)).

(** [std_dev > 0 and recent_interval < (mean_interval - 2 * std_dev)]. *)
Definition frequency_spike (mean_interval recent_interval std_dev : num A) : bool :=
  flt A (of_int A 0) std_dev
  && flt A recent_interval (fsub A mean_interval (fmul A (of_int A 2) std_dev)).

(** The body of the loop over [buckets.items()]. *)
Definition inspect_bucket (anomalies : list (Anomaly (num A))) (bucket : string * list Z)
  : list (Anomaly (num A)) :=
  let '(key, timestamps) := bucket in
  if (length timestamps <? 3)%nat then anomalies
  else
    let sorted_ts := Py.sorted (fun t => t) timestamps in
    let intervals := intervals sorted_ts in
    match intervals with
    | [] => anomalies
    | _ =>
        let mean_interval := mean intervals in
        if feq A mean_interval (of_int A 0) then anomalies
        else
          let recent_interval := default mean_interval (last intervals) in
          let std_dev := deviation intervals in
          if frequency_spike mean_interval recent_interval std_dev then
            match Py.split_colon key with
            | None => anomalies
            | Some (platform, event_type) =>
                anomalies ++ [
                  {| anomaly_id := uuid4 (length anomalies);
                     a_platform := platform;
                     a_event_type := event_type;
                     a_pattern := "frequency_spike";
                     mean_interval_seconds := round1 A mean_interval;
                     recent_interval_seconds := round1 A recent_interval;
                     std_dev := round1 A std_dev;
                     a_confidence :=
                       fmin A (literal A (95 # 100))
                            (fadd A ANOMALY_SENSITIVITY (literal A (5 # 100)));
                     a_severity :=
                       if flt A recent_interval (fmul A mean_interval (literal A (2 # 10)))
                       then "high" else "medium" |} ]
            end
          else anomalies
    end.

(** [detect_anomalies]. *)
Definition detect_anomalies (events : list CorrelatedEvent) : list (Anomaly (num A)) :=
  if (length events <? 5)%nat then []
  else foldl inspect_bucket [] (Infer.fill_buckets events).

(** [detect_anomalies_tool]: the anomalies it reports and the anomaly log
    after the call.  [now] is [datetime.now(timezone.utc)]. *)
Definition detect_anomalies_tool (now : Z) (_event_buffer : list CorrelatedEvent)
    (_anomaly_log : list (Anomaly (num A))) (lookback_minutes : Z)
    (min_confidence : num A) : list (Anomaly (num A)) * list (Anomaly (num A)) :=
  let cutoff := now - lookback_minutes * 60 * 1000000 in
  let events := filter (fun e => cutoff <= timestamp e) _event_buffer in
  let anomalies := detect_anomalies events in
  let anomalies :=
    filter (fun a => fle A min_confidence (a_confidence a) = true) anomalies in
  match anomalies with
  | [] => ([], _anomaly_log)
  | _ => (anomalies, _anomaly_log ++ anomalies)
  end.

(** *** Vocabulary *)

(** The intervals of one (platform, event-type) key. *)
Definition key_intervals (p : PlatformType) (ty : string)
    (events : list CorrelatedEvent) : list (num A) :=
  intervals (Py.sorted (fun t => t) (Infer.key_timestamps p ty events)).

(** The anomalies reported for one key. *)
Definition reported_for (p : PlatformType) (ty : string)
    (anomalies : list (Anomaly (num A))) : list (Anomaly (num A)) :=
  filter (fun a => a_platform a = platform_value p /\ a_event_type a = ty) anomalies.

(** The anomaly record of a key with the given intervals. *)
Definition spike_record (id platform event_type : string) (xs : list (num A))
  : Anomaly (num A) :=
  {| anomaly_id := id;
     a_platform := platform;
     a_event_type := event_type;
     a_pattern := "frequency_spike";
     mean_interval_seconds := round1 A (mean xs);
     recent_interval_seconds := round1 A (default (mean xs) (last xs));
     std_dev := round1 A (deviation xs);
     a_confidence :=
       fmin A (literal A (95 # 100)) (fadd A ANOMALY_SENSITIVITY (literal A (5 # 100)));
     a_severity :=
       if flt A (default (mean xs) (last xs)) (fmul A (mean xs) (literal A (2 # 10)))
       then "high" else "medium" |}.

(** The test a key passes to be reported: it has at least three events, its
    mean interval is not zero, and its most recent interval is a spike. *)
Definition passes (timestamps : list Z) : bool :=
  let xs := intervals (Py.sorted (fun t => t) timestamps) in
  (3 <=? length timestamps)%nat
  && negb (feq A (mean xs) (of_int A 0))
  && frequency_spike (mean xs) (default (mean xs) (last xs)) (deviation xs).

(** What one bucket adds to the anomalies. *)
Definition bucket_anomaly (id : string) (bucket : string * list Z)
  : option (Anomaly (num A)) :=
  if passes bucket.2
  then (fun '(platform, event_type) =>
          spike_record id platform event_type
                       (intervals (Py.sorted (fun t => t) bucket.2)))
         <$> Py.split_colon bucket.1
  else None.

End Detector.

Arguments reported_for {A} p ty anomalies.

(** *** Scenario *)

(** Six alerts of one key, five seconds apart except the last, which follows
    the fifth by two seconds.  Of the five intervals 5, 5, 5, 5, 2 the mean
    is 4.4 and the deviation 1.2: the last interval is the mean minus two
    deviations, not less. *)
Definition six_alerts : list CorrelatedEvent :=
  Infer.burst MERAKI "alert" [0; 5000000; 10000000; 15000000; 20000000; 22000000].

End InferFloat.

(* ===================================================================== *)
(** * Theorems                                                             *)
(* ===================================================================== *)

Module AgntcyFacts.
Import Models Agntcy.

Lemma truthy_non_empty o : Py.truthy o = true <-> non_empty o.
Proof.
  unfold non_empty. destruct o as [s|]; simpl.
  - rewrite negb_true_iff. split.
    + intros H. exists s. split; [done|]. intros ->. by rewrite String.eqb_refl in H.
    + intros (s' & [= <-] & Hne). by apply String.eqb_neq.
  - split; [done|]. by intros (s & ? & _).
Qed.

Lemma truthy_and a b :
  Py.truthy (Py.and_ a b) = (Py.truthy a && Py.truthy b)%bool.
Proof. unfold Py.and_. by destruct (Py.truthy a) eqn:E; simpl; rewrite ?E. Qed.

(** C10. [verify()] is [True] whenever [MIGA_ENV] is ["development"],
    whatever the badge holds; otherwise it is [True] exactly when both the
    signature and the public key are non-empty. *)
Theorem verify_development_or_signed (environ : gmap string string) (b : IdentityBadge) :
  (getenv environ "MIGA_ENV" = Some "development" -> verify environ b = true)
  /\ (getenv environ "MIGA_ENV" <> Some "development" ->
      (verify environ b = true <->
       non_empty (signature b) /\ non_empty (public_key b))).
Proof.
  unfold verify. split.
  - intros Hdev. by rewrite bool_decide_eq_true_2.
  - intros Hprod. rewrite bool_decide_eq_false_2 by done.
    rewrite truthy_and, andb_true_iff, !truthy_non_empty. tauto.
Qed.

(** C6 (as stated) fails: a read timeout is a transport error on which
    [register] answers ["error"], and [deregister] of the sentinel
    ["standalone"] fails when the directory cannot be reached. *)
Lemma register_timeout_deregister_sentinel :
  register (Raises ReadTimeout) <> "standalone"
  /\ deregister "standalone" (fun _ => Raises ConnectError) <> true.
Proof. split; discriminate. Qed.

(** C6 (amended). On a connection error [register] returns ["standalone"],
    on every other transport error ["error"]; [discover] returns the empty
    list on every transport error.  [deregister] does not look at the id:
    it returns [True] exactly when the DELETE is answered with a status
    below 400; the sentinels are filtered by the server lifespan, which
    never calls [deregister] with them. *)
Theorem directory_client_on_transport_error :
  (forall e : TransportError,
      register (Raises e) = if decide (e = ConnectError) then "standalone" else "error")
  /\ (forall e : TransportError, discover (Raises e) = [])
  /\ (forall cid delete,
        deregister cid delete = true <->
        exists resp, delete ("/v1/records/" +:+ cid) = Answers resp
                     /\ status_code resp < 400)
  /\ lifespan_deregisters "standalone" = []
  /\ lifespan_deregisters "error" = [].
Proof.
  split; [|split; [|split; [|split]]].
  - by intros [].
  - done.
  - intros cid delete. unfold deregister.
    destruct (delete _) as [resp|e].
    + rewrite Z.ltb_lt. split; [eauto|]. by intros (? & [= <-] & ?).
    + split; [done|]. by intros (? & ? & _).
  - done.
  - done.
Qed.

End AgntcyFacts.

Module GatewayFacts.
Import Models Gateway.

(** *** The indexes after a load *)

Lemma empty_by_role_lookup r : empty_by_role !! r = Some [].
Proof. by destruct r. Qed.

Lemma indexes_cleared now :
  indexes [] {| _by_tool := ∅; _by_role := empty_by_role; _by_platform := ∅;
                _endpoints := ∅; _last_refresh := now |}.
Proof.
  split; [|split]; simpl.
  - intros n. by rewrite lookup_empty.
  - apply empty_by_role_lookup.
  - intros p. by rewrite lookup_empty.
Qed.

Lemma append_roles_lookup (e : RoutingEntry) (rs : list MIGARole)
    (m : gmap MIGARole (list RoutingEntry)) (r : MIGARole) :
  foldl (fun m role => alter (fun l => l ++ [e]) role m) m rs !! r
  = (fun l => l ++ replicate (length (filter (fun r' => r' = r) rs)) e) <$> m !! r.
Proof.
  revert m. induction rs as [|r0 rs IH]; intros m; simpl.
  - destruct (m !! r); simpl; [|done]. by rewrite app_nil_r.
  - rewrite IH, lookup_alter, filter_cons.
    destruct (decide (r0 = r)) as [->|Hne]; simpl.
    + destruct (m !! r); simpl; [|done]. by rewrite <- app_assoc.
    + done.
Qed.

Lemma indexes_add_entry es t e :
  indexes es t -> indexes (es ++ [e]) (add_entry t e).
Proof.
  intros (Htool & Hrole & Hplat). split; [|split]; simpl.
  - intros n. rewrite filter_app, lookup_insert.
    destruct (decide (tool_name e = n)) as [<-|Hne].
    + rewrite filter_cons_True by done. simpl. apply eq_sym, last_snoc.
    + rewrite filter_cons_False by done. simpl. by rewrite app_nil_r.
  - intros r. rewrite append_roles_lookup, Hrole. simpl.
    rewrite bind_app. simpl. by rewrite app_nil_r.
  - intros p. rewrite filter_app, lookup_insert.
    destruct (decide (platform e = p)) as [<-|Hne]; simpl.
    + rewrite Hplat, filter_cons_True by done. done.
    + rewrite Hplat, filter_cons_False by done. simpl. by rewrite app_nil_r.
Qed.

Lemma indexes_add_entries record caps : forall es t,
  indexes es t ->
  indexes (es ++ (make_entry record <$> caps))
          (foldl (fun t cap => add_entry t (make_entry record cap)) t caps).
Proof.
  induction caps as [|cap caps IH]; intros es t Hinv; simpl.
  - by rewrite app_nil_r.
  - rewrite (cons_middle _ es), app_assoc. apply IH. by apply indexes_add_entry.
Qed.

Lemma indexes_load_record es t record :
  indexes es t ->
  indexes (es ++ (make_entry record <$> Agntcy.capabilities record))
          (load_record t record).
Proof. intros Hinv. unfold load_record. by apply indexes_add_entries. Qed.

Lemma indexes_load_records records : forall es t,
  indexes es t ->
  indexes (es ++ all_entries records) (foldl load_record t records).
Proof.
  induction records as [|record records IH]; intros es t Hinv; cbn [foldl].
  - unfold all_entries. simpl. by rewrite app_nil_r.
  - unfold all_entries. rewrite bind_cons, app_assoc.
    apply IH. by apply indexes_load_record.
Qed.

Lemma indexes_load_from_oasf self records now :
  indexes (all_entries records) (load_from_oasf self records now).
Proof.
  pose proof (indexes_load_records records [] _ (indexes_cleared (_last_refresh self)))
    as (Htool & Hrole & Hplat).
  split; [|split]; simpl; done.
Qed.

(** The record that wins a tool name: the last one that declares it. *)
Lemma get_tool_last_record self records1 record records2 caps1 cap caps2 now :
  Agntcy.capabilities record = caps1 ++ cap :: caps2 ->
  Forall (fun c => cap_tool_name c <> cap_tool_name cap) caps2 ->
  Forall (fun r => Forall (fun c => cap_tool_name c <> cap_tool_name cap)
                          (Agntcy.capabilities r)) records2 ->
  get_tool (load_from_oasf self (records1 ++ record :: records2) now)
           (cap_tool_name cap)
  = Some (make_entry record cap).
Proof.
  intros Hcaps Hlater_caps Hlater_records.
  destruct (indexes_load_from_oasf self (records1 ++ record :: records2) now)
    as (Htool & _ & _).
  unfold get_tool. rewrite Htool. unfold all_entries.
  rewrite bind_app, bind_cons, Hcaps, fmap_app, fmap_cons, !filter_app.
  rewrite (filter_cons _ (make_entry record cap)), decide_True by done.
  assert (Hcaps2 : filter (fun e => tool_name e = cap_tool_name cap)
                          (make_entry record <$> caps2) = []).
  { clear -Hlater_caps. induction Hlater_caps as [|c caps2 Hc _ IH]; [done|].
    rewrite fmap_cons, filter_cons, decide_False by done. apply IH. }
  assert (Hrecords2 :
            filter (fun e => tool_name e = cap_tool_name cap)
                   (records2 ≫= (fun r => make_entry r <$> Agntcy.capabilities r))
            = []).
  { clear -Hlater_records.
    induction Hlater_records as [|r records2 Hr _ IH]; [done|].
    rewrite bind_cons, filter_app, IH, app_nil_r.
    induction Hr as [|c caps Hc _ IHc]; [done|].
    rewrite fmap_cons, filter_cons, decide_False by done. apply IHc. }
  rewrite Hcaps2, Hrecords2, !app_nil_r, app_assoc. apply last_snoc.
Qed.

(** C3 (as stated) fails: after loading two records that both declare
    [meraki_health], the by-role (and by-platform) index still holds the
    entry of the first record, which is not the one [get_tool] returns. *)
Lemma load_from_oasf_keeps_shadowed_entry :
  ~ one_entry_per_tool
      (load_from_oasf init [backend "a" "http://a:1"; backend "b" "http://b:2"] 0).
Proof.
  intros [Hrole _].
  specialize (Hrole OBSERVABILITY (make_entry (backend "a" "http://a:1") ping)).
  assert (Hin : make_entry (backend "a" "http://a:1") ping
                ∈ tools_for_role
                    (load_from_oasf init
                       [backend "a" "http://a:1"; backend "b" "http://b:2"] 0)
                    OBSERVABILITY).
  { unfold tools_for_role.
    destruct (indexes_load_from_oasf init
                [backend "a" "http://a:1"; backend "b" "http://b:2"] 0)
      as (_ & -> & _).
    simpl. apply list_elem_of_here. }
  specialize (Hrole Hin). unfold get_tool in Hrole.
  destruct (indexes_load_from_oasf init
              [backend "a" "http://a:1"; backend "b" "http://b:2"] 0)
    as (Htool & _ & _).
  rewrite Htool in Hrole. vm_compute in Hrole. discriminate.
Qed.

(** C3 (amended). After [load_from_oasf(records)] the by-tool index holds
    one entry per tool name, the one built from the last record (and
    capability) that declares the name, and [get_tool] returns it; the
    by-role and by-platform indexes hold every entry built, in record
    order, those of earlier records with the same tool name included. *)
Theorem load_from_oasf_last_wins_by_tool (self : RoutingTable)
    (records : list Agntcy.OASFRecord) (now : Q) :
  let t := load_from_oasf self records now in
  (forall n, get_tool t n = last (filter (fun e => tool_name e = n) (all_entries records)))
  /\ (forall r, tools_for_role t r = all_entries records ≫= role_copies r)
  /\ (forall p, tools_for_platform t p
                = filter (fun e => platform e = p) (all_entries records)).
Proof.
  intros t. destruct (indexes_load_from_oasf self records now) as (Htool & Hrole & Hplat).
  split; [|split].
  - intros n. apply Htool.
  - intros r. unfold tools_for_role, t. by rewrite Hrole.
  - intros p. apply Hplat.
Qed.

(** *** Direct calls through a role meta-tool *)

Lemma fan_out_direct routing world role params name entry :
  q_tool_name params = Some name -> name <> "" ->
  get_tool routing name = Some entry ->
  _fan_out routing world role params
  = (Direct (call_tool (world (endpoint entry) (tool_name entry) (q_arguments params))
                       (endpoint entry)),
     [Post (endpoint entry) (tool_name entry) (q_arguments params)]).
Proof.
  intros Hname Hne Hget. unfold _fan_out. rewrite Hname. simpl.
  apply String.eqb_neq in Hne. rewrite Hne. simpl. by rewrite Hget.
Qed.

Lemma catalyst_routing_run_command :
  get_tool (load_from_oasf init [catalyst] 0) "catalyst_run_command"
  = Some (make_entry catalyst run_command).
Proof.
  destruct (indexes_load_from_oasf init [catalyst] 0) as (Htool & _ & _).
  unfold get_tool. by rewrite Htool.
Qed.

(** C2 (as stated) fails: a direct call of [catalyst_run_command], whose
    routing entry has [requires_approval] set, publishes nothing on the
    approval channel and records no audit entry. *)
Lemma fan_out_direct_call_requests_no_approval :
  requires_approval (make_entry catalyst run_command) = true
  /\ ~ approval_requested
         (snd (_fan_out (load_from_oasf init [catalyst] 0) answering
                        AUTOMATION run_command_call))
         (make_entry catalyst run_command).
Proof.
  split; [done|].
  rewrite (fan_out_direct _ _ _ _ "catalyst_run_command"
             (make_entry catalyst run_command))
    by (done || apply catalyst_routing_run_command).
  intros [(i & j & data & arguments & Hi & _) _].
  simpl in Hi. destruct i as [|i]; simpl in Hi; [discriminate|].
  by rewrite lookup_nil in Hi.
Qed.

(** C2 (amended). A direct call through a role meta-tool that resolves to
    a routing entry, whatever its [requires_approval] flag, has exactly one
    effect: the POST of the call, with the caller's arguments, to the
    entry's endpoint.  The gateway publishes nothing on the bus and creates
    no audit entry; its reply is the forwarder's result. *)
Theorem fan_out_direct_call_only_forwards (routing : RoutingTable) (world : World)
    (role : MIGARole) (params : RoleQueryInput) (name : string)
    (entry : RoutingEntry) :
  q_tool_name params = Some name -> name <> "" ->
  get_tool routing name = Some entry ->
  let (reply, trace) := _fan_out routing world role params in
  reply = Direct (call_tool (world (endpoint entry) (tool_name entry)
                                   (q_arguments params)) (endpoint entry))
  /\ trace = [Post (endpoint entry) (tool_name entry) (q_arguments params)]
  /\ (forall channel data, Publish channel data ∉ trace)
  /\ (forall tool action, Audit tool action ∉ trace).
Proof.
  intros Hname Hne Hget. rewrite (fan_out_direct _ _ _ _ _ _ Hname Hne Hget).
  split; [done|]. split; [done|].
  split; intros ? ? Hin; apply list_elem_of_singleton in Hin; discriminate.
Qed.

(** The direct call of [catalyst_run_command] on the table loaded from the
    Catalyst Center record. *)
Lemma fan_out_direct_call_only_forwards_witness :
  q_tool_name run_command_call = Some "catalyst_run_command"
  /\ "catalyst_run_command" <> ""
  /\ get_tool (load_from_oasf init [catalyst] 0) "catalyst_run_command"
     = Some (make_entry catalyst run_command)
  /\ (let (reply, trace) :=
        _fan_out (load_from_oasf init [catalyst] 0) answering AUTOMATION
                 run_command_call in
      reply = Direct (call_tool
                        (answering (endpoint (make_entry catalyst run_command))
                                   (tool_name (make_entry catalyst run_command))
                                   (q_arguments run_command_call))
                        (endpoint (make_entry catalyst run_command)))
      /\ trace = [Post (endpoint (make_entry catalyst run_command))
                       (tool_name (make_entry catalyst run_command))
                       (q_arguments run_command_call)]
      /\ (forall channel data, Publish channel data ∉ trace)
      /\ (forall tool action, Audit tool action ∉ trace)).
Proof.
  split; [reflexivity|]. split; [discriminate|].
  split; [apply catalyst_routing_run_command|].
  apply (fan_out_direct_call_only_forwards
           (load_from_oasf init [catalyst] 0) answering AUTOMATION
           run_command_call "catalyst_run_command"
           (make_entry catalyst run_command)).
  - reflexivity.
  - discriminate.
  - apply catalyst_routing_run_command.
Defined.

End GatewayFacts.

Module PyFacts.

Lemma Qlt_bool_iff (x y : Q) : Py.Qlt_bool x y = true <-> (x < y)%Q.
Proof.
  unfold Py.Qlt_bool. rewrite negb_true_iff, <- not_true_iff_false, Qle_bool_iff.
  split; [apply Qnot_le_lt | apply Qlt_not_le].
Qed.

Lemma Qlt_bool_false (x y : Q) : Py.Qlt_bool x y = false <-> (y <= x)%Q.
Proof.
  unfold Py.Qlt_bool. rewrite negb_false_iff. apply Qle_bool_iff.
Qed.

Lemma lower_ascii_idemp c : Py.lower_ascii (Py.lower_ascii c) = Py.lower_ascii c.
Proof. by destruct c as [[] [] [] [] [] [] [] []]. Qed.

Lemma lower_ascii_newline c :
  Ascii.eqb (Py.lower_ascii c) "010"%char = Ascii.eqb c "010"%char.
Proof. by destruct c as [[] [] [] [] [] [] [] []]. Qed.

Lemma isspace_lower c : Py.isspace (Py.lower_ascii c) = Py.isspace c.
Proof. by destruct c as [[] [] [] [] [] [] [] []]. Qed.

(** *** [sorted] *)

Section Sorted.

Context {A : Type} (key : A -> Z).

#[local] Instance key_lt_antisymm : AntiSymm (=) (Py.key_lt key).
Proof. intros x y Hxy Hyx. unfold Py.key_lt in *. lia. Qed.

Lemma insert_by_Permutation x l : Py.insert_by key x l ≡ₚ x :: l.
Proof.
  induction l as [|y l IH]; simpl; [done|].
  destruct (key x <=? key y); [done|]. rewrite IH. apply Permutation_swap.
Qed.

Lemma sorted_Permutation l : Py.sorted key l ≡ₚ l.
Proof.
  induction l as [|x l IH]; simpl; [done|].
  fold (Py.sorted key l). by rewrite insert_by_Permutation, IH.
Qed.

Lemma insert_by_StronglySorted x l :
  StronglySorted (Py.key_lt key) l ->
  Forall (fun y => key y <> key x) l ->
  StronglySorted (Py.key_lt key) (Py.insert_by key x l).
Proof.
  induction 1 as [|y l Hsorted IH Hy]; intros Hfresh; simpl.
  - repeat constructor.
  - apply Forall_cons in Hfresh as [Hyx Hfresh].
    destruct (Z.leb_spec (key x) (key y)) as [Hle|Hgt].
    + constructor; [by constructor|].
      constructor; [unfold Py.key_lt; lia|].
      eapply Forall_impl; [exact Hy|]. unfold Py.key_lt. intros z ?. lia.
    + constructor; [by apply IH|].
      rewrite insert_by_Permutation. constructor; [unfold Py.key_lt; lia|done].
Qed.

Lemma sorted_StronglySorted l :
  NoDup (key <$> l) -> StronglySorted (Py.key_lt key) (Py.sorted key l).
Proof.
  induction l as [|x l IH]; simpl; [constructor|].
  rewrite NoDup_cons. intros [Hx Hnd]. fold (Py.sorted key l).
  apply insert_by_StronglySorted; [by apply IH|].
  rewrite sorted_Permutation. apply Forall_forall. intros y Hy Heq.
  apply Hx. rewrite <- Heq. by apply list_elem_of_fmap_2.
Qed.

(** With pairwise distinct keys the result of [sorted] does not depend on the
    order of its input. *)
Lemma sorted_unique l1 l2 :
  l1 ≡ₚ l2 -> NoDup (key <$> l1) -> Py.sorted key l1 = Py.sorted key l2.
Proof.
  intros Hperm Hnd. apply (StronglySorted_unique (Py.key_lt key)).
  - by apply sorted_StronglySorted.
  - apply sorted_StronglySorted. by rewrite <- Hperm.
  - by rewrite !sorted_Permutation.
Qed.

End Sorted.

Section SortedLe.

Context {A : Type} (key : A -> Z).

Lemma insert_by_key_le x l :
  StronglySorted (Py.key_le key) l -> StronglySorted (Py.key_le key) (Py.insert_by key x l).
Proof.
  induction 1 as [|y l Hsorted IH Hy]; simpl.
  - repeat constructor.
  - destruct (Z.leb_spec (key x) (key y)) as [Hle|Hgt].
    + constructor; [by constructor|].
      constructor; [done|].
      eapply Forall_impl; [exact Hy|]. unfold Py.key_le. intros z ?. lia.
    + constructor; [done|].
      rewrite insert_by_Permutation. constructor; [unfold Py.key_le; lia|done].
Qed.

Lemma sorted_key_le l : StronglySorted (Py.key_le key) (Py.sorted key l).
Proof.
  induction l as [|x l IH]; simpl; [constructor|].
  by apply insert_by_key_le.
Qed.

End SortedLe.

(** *** [sum] *)

Lemma sum_foldl (l : list Q) : forall acc, (foldl Qplus acc l == acc + Py.sum l)%Q.
Proof.
  unfold Py.sum. induction l as [|x l IH]; intros acc; simpl.
  - Lqa.lra.
  - rewrite (IH (acc + x)%Q), (IH (0 + x)%Q). Lqa.lra.
Qed.

Lemma sum_cons x (l : list Q) : (Py.sum (x :: l) == x + Py.sum l)%Q.
Proof. unfold Py.sum at 1. simpl. rewrite sum_foldl. Lqa.lra. Qed.

(** *** [split] at the first colon *)

Lemma split_colon_join s : forall a b,
  Py.split_colon s = Some (a, b) -> s = a +:+ ":" +:+ b.
Proof.
  induction s as [|c s IH]; intros a b; simpl; [done|].
  destruct (Ascii.eqb_spec c ":"%char) as [->|Hc].
  - by intros [= <- <-].
  - destruct (Py.split_colon s) as [[a' b']|]; [|done].
    intros [= <- <-]. change (String c s = String c (a' +:+ ":" +:+ b')).
    f_equal. by apply IH.
Qed.

End PyFacts.

Module ReFacts.
Import Re.

(** *** The matcher decides the matching relation *)

Lemma append_cons c s1 s2 : String c s1 +:+ s2 = String c (s1 +:+ s2).
Proof. done. Qed.

Lemma append_eq_nil s1 s2 : s1 +:+ s2 = "" -> s1 = "" /\ s2 = "".
Proof. by destruct s1. Qed.

Lemma append_eq_cons s1 s2 c s :
  s1 +:+ s2 = String c s ->
  (s1 = "" /\ s2 = String c s) \/ (exists s1', s1 = String c s1' /\ s = s1' +:+ s2).
Proof.
  destruct s1 as [|c1 s1]; [by left|]. rewrite append_cons.
  intros [= -> <-]. right. by exists s1.
Qed.

Lemma nullable_matches r : nullable r = true <-> matches r "".
Proof.
  induction r as [| |d| | |r1 IH1 r2 IH2|r1 IH1 r2 IH2|r IH]; simpl.
  - split; [done|]. inversion 1.
  - split; [constructor|done].
  - split; [done|]. inversion 1.
  - split; [done|]. inversion 1.
  - split; [done|]. inversion 1.
  - rewrite andb_true_iff, IH1, IH2. split.
    + intros [H1 H2]. change "" with ("" +:+ ""). by constructor.
    + inversion 1 as [| | | |? ? s1 s2 H1 H2 Heq| | | |]; subst.
      apply append_eq_nil in H3 as [-> ->]. done.
  - rewrite orb_true_iff, IH1, IH2. split.
    + intros [?|?]; [by apply matches_alt_l|by apply matches_alt_r].
    + inversion 1; subst; [by left|by right].
  - split; [constructor|done].
Qed.

Lemma matches_star_cons_inv r c s :
  matches (Star r) (String c s) ->
  exists s1 s2, s = s1 +:+ s2 /\ matches r (String c s1) /\ matches (Star r) s2.
Proof.
  intros H. remember (Star r) as r' eqn:Hr. remember (String c s) as s' eqn:Hs.
  revert s Hs. induction H as [| | | | | | | |r0 s1 s2 H1 _ H2 IH2]; try discriminate.
  injection Hr as ->. intros s Hs.
  apply append_eq_cons in Hs as [[-> ->]|(s1' & -> & ->)].
  - by apply IH2.
  - by exists s1', s2.
Qed.

Lemma deriv_matches c r : forall s, matches (deriv c r) s <-> matches r (String c s).
Proof.
  induction r as [| |d| | |r1 IH1 r2 IH2|r1 IH1 r2 IH2|r IH]; intros s; simpl.
  - split; inversion 1.
  - split; inversion 1.
  - destruct (Ascii.eqb_spec (Py.lower_ascii c) (Py.lower_ascii d)) as [Heq|Hne].
    + split.
      * inversion 1; subst. by constructor.
      * inversion 1; subst. constructor.
    + split; inversion 1; subst. done.
  - destruct (Ascii.eqb_spec c "010"%char) as [->|Hne].
    + split; inversion 1; subst. done.
    + split.
      * inversion 1; subst. by constructor.
      * inversion 1; subst. constructor.
  - destruct (Py.isspace c) eqn:Hsp.
    + split.
      * inversion 1; subst. by constructor.
      * inversion 1; subst. constructor.
    + split; inversion 1; subst. congruence.
  - assert (Hseq : matches (Seq (deriv c r1) r2) s ->
                   matches (Seq r1 r2) (String c s)).
    { inversion 1 as [| | | |? ? s1 s2 H1 H2| | | |]; subst.
      apply IH1 in H1. change (String c (s1 +:+ s2)) with (String c s1 +:+ s2).
      by constructor. }
    assert (Hinv : matches (Seq r1 r2) (String c s) ->
                   matches (Seq (deriv c r1) r2) s
                   \/ (nullable r1 = true /\ matches (deriv c r2) s)).
    { inversion 1 as [| | | |? ? s1 s2 H1 H2 Heq| | | |]; subst.
      apply append_eq_cons in H3 as [[-> ->]|(s1' & -> & ->)].
      - right. split; [by apply nullable_matches|by apply IH2].
      - left. constructor; [by apply IH1|done]. }
    destruct (nullable r1) eqn:Hn.
    + split.
      * inversion 1; subst; [by apply Hseq|].
        apply IH2 in H3. change (String c s) with ("" +:+ String c s).
        constructor; [by apply nullable_matches|done].
      * intros [H|[_ H]]%Hinv; [by apply matches_alt_l|by apply matches_alt_r].
    + split; [done|]. by intros [H|[? _]]%Hinv.
  - split.
    + inversion 1; subst; [apply matches_alt_l|apply matches_alt_r];
        [by apply IH1|by apply IH2].
    + inversion 1; subst; [apply matches_alt_l|apply matches_alt_r];
        [by apply IH1|by apply IH2].
  - split.
    + inversion 1 as [| | | |? ? s1 s2 H1 H2| | | |]; subst.
      apply IH in H1. change (String c (s1 +:+ s2)) with (String c s1 +:+ s2).
      by constructor.
    + intros (s1 & s2 & -> & H1 & H2)%matches_star_cons_inv.
      constructor; [by apply IH|done].
Qed.

Lemma match_prefix_matches s : forall r,
  match_prefix r s = true <-> exists s1 s2, s = s1 +:+ s2 /\ matches r s1.
Proof.
  induction s as [|c s IH]; intros r; simpl.
  - rewrite orb_false_r, nullable_matches. split.
    + intros H. by exists "", "".
    + intros (s1 & s2 & Heq & H). symmetry in Heq.
      by apply append_eq_nil in Heq as [-> ->].
  - rewrite orb_true_iff, nullable_matches, IH. split.
    + intros [H|(s1 & s2 & -> & H)].
      * by exists "", (String c s).
      * exists (String c s1), s2. split; [done|]. by apply deriv_matches.
    + intros (s1 & s2 & Heq & H). symmetry in Heq.
      apply append_eq_cons in Heq as [[-> ->]|(s1' & -> & ->)].
      * by left.
      * right. exists s1', s2. split; [done|]. by apply deriv_matches.
Qed.

Lemma search_regex_matches r s :
  search_regex r s = true <->
  exists s0 s1 s2, s = s0 +:+ s1 +:+ s2 /\ matches r s1.
Proof.
  induction s as [|c s IH]; cbn [search_regex].
  - rewrite orb_false_r, match_prefix_matches. split.
    + intros (s1 & s2 & Heq & H). by exists "", s1, s2.
    + intros (s0 & s1 & s2 & Heq & H). symmetry in Heq.
      apply append_eq_nil in Heq as [-> Heq]. by exists s1, s2.
  - rewrite orb_true_iff, match_prefix_matches, IH. split.
    + intros [(s1 & s2 & Heq & H)|(s0 & s1 & s2 & -> & H)].
      * by exists "", s1, s2.
      * by exists (String c s0), s1, s2.
    + intros (s0 & s1 & s2 & Heq & H). destruct s0 as [|c0 s0];
        [change ("" +:+ s1 +:+ s2) with (s1 +:+ s2) in Heq|rewrite append_cons in Heq].
      * left. by exists s1, s2.
      * injection Heq as <- ->. right. by exists s0, s1, s2.
Qed.

(** [Re.search] finds a pattern exactly in the strings that have a substring
    matching its regular expression. *)
Lemma search_matches pattern r s :
  compile pattern = Some r ->
  (search pattern s = true <->
   exists s0 s1 s2, s = s0 +:+ s1 +:+ s2 /\ matches r s1).
Proof. intros Hc. unfold search. rewrite Hc. apply search_regex_matches. Qed.

(** *** Stripping the text

    A pattern that begins and ends solidly is found in a text exactly when
    it is found in the stripped text. *)

Lemma last_char_append s1 s2 :
  last_char (s1 +:+ s2)
  = match last_char s2 with Some d => Some d | None => last_char s1 end.
Proof.
  induction s1 as [|c s1 IH].
  - change ("" +:+ s2) with s2. by destruct (last_char s2).
  - rewrite append_cons. cbn [last_char]. rewrite IH.
    by destruct (last_char s2), (last_char s1).
Qed.

Lemma last_char_None s : last_char s = None -> s = "".
Proof. destruct s as [|c s]; [done|]. simpl. by destruct (last_char s). Qed.

Lemma ends_solid_append_r s1 s2 : ends_solid s2 -> ends_solid (s1 +:+ s2).
Proof.
  unfold ends_solid. rewrite last_char_append. by destruct (last_char s2).
Qed.

Lemma isspace_same_letter c d :
  Py.lower_ascii c = Py.lower_ascii d -> Py.isspace c = Py.isspace d.
Proof.
  intros H. by rewrite <- (PyFacts.isspace_lower c), H, PyFacts.isspace_lower.
Qed.

Lemma solid_start_matches r m :
  matches r m -> solid_start r = true -> starts_solid m.
Proof.
  induction 1 as [|c d Hcd| | |r1 r2 s1 s2 H1 IH1 H2 IH2|r1 r2 s H IH|r1 r2 s H IH| |];
    simpl; try done.
  - rewrite negb_true_iff. intros <-. by apply isspace_same_letter.
  - intros Hs. specialize (IH1 Hs). destruct s1; [done|]. by rewrite append_cons.
  - intros [? ?]%andb_true_iff. by apply IH.
  - intros [? ?]%andb_true_iff. by apply IH.
Qed.

Lemma weak_end_matches r m :
  matches r m -> weak_end r = true -> m = "" \/ ends_solid m.
Proof.
  induction 1 as [|c d Hcd|c Hc|c Hc|r1 r2 s1 s2 H1 IH1 H2 IH2|r1 r2 s H IH|r1 r2 s H IH|
                  r0|r0 s1 s2 H1 IH1 H2 IH2];
    cbn [weak_end].
  - by left.
  - rewrite negb_true_iff. intros Hd. right. unfold ends_solid. cbn [last_char].
    by rewrite (isspace_same_letter c d).
  - done.
  - done.
  - intros [Hw1 Hw2]%andb_true_iff.
    destruct (IH2 Hw2) as [->|He2].
    + destruct (IH1 Hw1) as [->|He1]; [by left|right].
      unfold ends_solid in *. by rewrite last_char_append.
    + right. by apply ends_solid_append_r.
  - intros [? ?]%andb_true_iff. by apply IH.
  - intros [? ?]%andb_true_iff. by apply IH.
  - by left.
  - intros Hw. cbn [weak_end] in IH2.
    destruct (IH2 Hw) as [->|He2].
    + destruct (IH1 Hw) as [->|He1]; [by left|right].
      unfold ends_solid in *. by rewrite last_char_append.
    + right. by apply ends_solid_append_r.
Qed.

Lemma solid_end_matches r m :
  matches r m -> solid_end r = true -> ends_solid m.
Proof.
  induction 1 as [|c d Hcd| | |r1 r2 s1 s2 H1 IH1 H2 IH2|r1 r2 s H IH|r1 r2 s H IH| |];
    simpl; try done.
  - rewrite negb_true_iff. intros Hd. unfold ends_solid. cbn [last_char].
    by rewrite (isspace_same_letter c d).
  - intros [Hs2|[Hw2 Hs1]%andb_true_iff]%orb_true_iff.
    + by apply ends_solid_append_r, IH2.
    + destruct (weak_end_matches _ _ H2 Hw2) as [->|He2].
      * unfold ends_solid in *. rewrite last_char_append. simpl. by apply IH1.
      * by apply ends_solid_append_r.
  - intros [? ?]%andb_true_iff. by apply IH.
  - intros [? ?]%andb_true_iff. by apply IH.
Qed.

Lemma has_match_cons r c s : has_match r s -> has_match r (String c s).
Proof. intros (s0 & m & s2 & -> & H). by exists (String c s0), m, s2. Qed.

Lemma has_match_drop_space r w s :
  solid_start r = true -> Py.isspace w = true ->
  has_match r (String w s) -> has_match r s.
Proof.
  intros Hr Hw (s0 & m & s2 & Heq & H).
  destruct s0 as [|c s0].
  - change ("" +:+ m +:+ s2) with (m +:+ s2) in Heq.
    pose proof (solid_start_matches _ _ H Hr) as Hm.
    destruct m as [|c m]; [done|]. rewrite append_cons in Heq.
    injection Heq as <- _. simpl in Hm. congruence.
  - rewrite append_cons in Heq. injection Heq as <- ->. by exists s0, m, s2.
Qed.

Lemma has_match_lstrip r s :
  solid_start r = true -> has_match r (Py.lstrip s) <-> has_match r s.
Proof.
  intros Hr. induction s as [|c s IH]; simpl; [done|].
  destruct (Py.isspace c) eqn:Hc; [|done].
  rewrite IH. split; [apply has_match_cons|by apply has_match_drop_space].
Qed.

Lemma append_app s1 s2 s3 : (s1 +:+ s2) +:+ s3 = s1 +:+ s2 +:+ s3.
Proof. induction s1 as [|c s1 IH]; [done|]. by rewrite !append_cons, IH. Qed.

Lemma all_space_append s1 s2 :
  all_space (s1 +:+ s2) = all_space s1 && all_space s2.
Proof.
  induction s1 as [|c s1 IH]; [done|].
  rewrite append_cons. simpl. rewrite IH. by rewrite andb_assoc.
Qed.

Lemma all_space_not_solid s : all_space s = true -> ~ ends_solid s.
Proof.
  unfold ends_solid. induction s as [|c s IH]; simpl; [by intros _ []|].
  intros [Hc Hs]%andb_true_iff. destruct (last_char s) as [d|]; [by apply IH|].
  congruence.
Qed.

Lemma rstrip_decomp s :
  exists ws, all_space ws = true /\ s = Py.rstrip s +:+ ws.
Proof.
  induction s as [|c s (ws & Hws & IH)]; simpl.
  - by exists "".
  - destruct (Py.rstrip s) as [|c' r] eqn:Hr.
    + change ("" +:+ ws) with ws in IH. subst s.
      destruct (Py.isspace c) eqn:Hc.
      * exists (String c ws). split; [|done]. simpl. by rewrite Hc.
      * by exists ws.
    + exists ws. split; [done|]. rewrite append_cons. by rewrite <- IH.
Qed.

Lemma prefix_before_spaces ws s2 : all_space ws = true -> forall m a,
  ends_solid m -> a +:+ ws = m +:+ s2 -> exists b, a = m +:+ b.
Proof.
  intros Hws. induction m as [|x m IH]; intros a Hm Heq; [done|].
  rewrite append_cons in Heq. destruct a as [|y a].
  - change ("" +:+ ws) with ws in Heq. subst ws. exfalso.
    change (String x (m +:+ s2)) with (String x m +:+ s2) in Hws.
    rewrite all_space_append in Hws. apply andb_true_iff in Hws as [Hws _].
    by apply (all_space_not_solid _ Hws).
  - rewrite append_cons in Heq. injection Heq as -> Heq.
    destruct m as [|x' m].
    + exists a. done.
    + destruct (IH a) as [b ->]; [|done|by exists b].
      unfold ends_solid in *. simpl in *. by destruct (last_char m).
Qed.

Lemma has_match_before_spaces r ws :
  solid_end r = true -> all_space ws = true -> forall s0 a m s2,
  matches r m -> a +:+ ws = s0 +:+ m +:+ s2 -> has_match r a.
Proof.
  intros Hr Hws. induction s0 as [|y s0 IH]; intros a m s2 Hm Heq.
  - change ("" +:+ m +:+ s2) with (m +:+ s2) in Heq.
    destruct (prefix_before_spaces ws s2 Hws m a) as [b ->]; [|done|].
    + by eapply solid_end_matches.
    + by exists "", m, b.
  - rewrite append_cons in Heq. destruct a as [|y' a].
    + change ("" +:+ ws) with ws in Heq. subst ws. exfalso.
      simpl in Hws. apply andb_true_iff in Hws as [_ Hws].
      rewrite !all_space_append in Hws.
      apply andb_true_iff in Hws as [_ Hws]. apply andb_true_iff in Hws as [Hws _].
      apply (all_space_not_solid _ Hws). by eapply solid_end_matches.
    + rewrite append_cons in Heq. injection Heq as -> Heq.
      apply has_match_cons. by eapply IH.
Qed.

Lemma has_match_rstrip r s :
  solid_end r = true -> has_match r (Py.rstrip s) <-> has_match r s.
Proof.
  intros Hr. destruct (rstrip_decomp s) as (ws & Hws & Heq). split.
  - intros (s0 & m & s2 & Hs & Hm). exists s0, m, (s2 +:+ ws).
    split; [|done]. by rewrite Heq, Hs, !append_app.
  - intros (s0 & m & s2 & Hs & Hm). rewrite Heq in Hs.
    by eapply has_match_before_spaces.
Qed.

Lemma search_regex_strip r s :
  solid_start r = true -> solid_end r = true ->
  search_regex r (Py.strip s) = search_regex r s.
Proof.
  intros Hstart Hend. apply eq_true_iff_eq.
  rewrite !search_regex_matches. unfold Py.strip.
  change (has_match r (Py.rstrip (Py.lstrip s)) <-> has_match r s).
  by rewrite has_match_rstrip, has_match_lstrip.
Qed.

End ReFacts.

Module NlpFacts.
Import Nlp.

(** *** Case-insensitive matching *)

Lemma deriv_lower c r : Re.deriv (Py.lower_ascii c) r = Re.deriv c r.
Proof.
  induction r as [| |d| | |r1 IH1 r2 IH2|r1 IH1 r2 IH2|r IH]; simpl;
    rewrite ?IH1, ?IH2, ?IH; try done.
  - by rewrite PyFacts.lower_ascii_idemp.
  - by rewrite PyFacts.lower_ascii_newline.
  - by rewrite PyFacts.isspace_lower.
Qed.

Lemma match_prefix_lower s : forall r,
  Re.match_prefix r (Py.lower s) = Re.match_prefix r s.
Proof.
  induction s as [|c s IH]; intros r; simpl; [done|].
  by rewrite deriv_lower, IH.
Qed.

Lemma search_lower pattern s : Re.search pattern (Py.lower s) = Re.search pattern s.
Proof.
  unfold Re.search. destruct (Re.compile pattern) as [r|]; [|done].
  induction s as [|c s IH]; simpl; [done|].
  rewrite IH. f_equal. f_equal. by rewrite deriv_lower, match_prefix_lower.
Qed.

(** Every pattern of the table is in the fragment [Re.compile] reads. *)
Lemma INTENT_PATTERNS_compile :
  Forall (fun row => is_Some (Re.compile (row_pattern row))) INTENT_PATTERNS.
Proof. repeat (constructor; [by eexists|]). constructor. Qed.

(** Every pattern of the table begins and ends with a character that is not
    whitespace, so stripping the text changes no match. *)
Lemma INTENT_PATTERNS_solid :
  Forall (fun row => exists r, Re.compile (row_pattern row) = Some r
                               /\ Re.solid_start r = true /\ Re.solid_end r = true)
         INTENT_PATTERNS.
Proof.
  repeat (constructor; [eexists; split; [reflexivity|by vm_compute]|]). constructor.
Qed.

Lemma search_strip row s :
  row ∈ INTENT_PATTERNS ->
  Re.search (row_pattern row) (Py.strip s) = Re.search (row_pattern row) s.
Proof.
  intros Hin. pose proof INTENT_PATTERNS_solid as Hall.
  rewrite Forall_forall in Hall. destruct (Hall row Hin) as (r & Hc & Hstart & Hend).
  unfold Re.search. rewrite Hc. by apply ReFacts.search_regex_strip.
Qed.

(** *** The scan keeps the best row *)

Section Scan.

Variable Text : Type.
Variable strip : Text -> Text.
Variable lower : Text -> Text.
Variable search : string -> Text -> bool.
Variables text normalized : Text.

Lemma scan_snoc patterns row :
  scan search (patterns ++ [row]) text normalized
  = step search text normalized (scan search patterns text normalized) row.
Proof.
  unfold scan. rewrite foldl_app. simpl. by destruct row as [[[pat cat] plat] conf].
Qed.

Lemma scan_none patterns :
  scan search patterns text normalized = None ->
  forall row, row ∈ patterns -> search (row_pattern row) normalized = false.
Proof.
  induction patterns as [|row0 patterns IH] using rev_ind; intros Hscan row Hin.
  - by apply elem_of_nil in Hin.
  - rewrite scan_snoc in Hscan. unfold step in Hscan.
    destruct (search (row_pattern row0) normalized) eqn:Hm.
    + destruct (scan search patterns text normalized) as [b|]; [|done].
      by destruct (Py.Qlt_bool _ _).
    + apply elem_of_app in Hin as [Hin|Hin]; [by apply IH|].
      apply list_elem_of_singleton in Hin. by subst.
Qed.

Lemma wins_snoc_skip patterns i row row0 :
  wins search patterns normalized i row ->
  search (row_pattern row0) normalized = false ->
  wins search (patterns ++ [row0]) normalized i row.
Proof.
  intros (Hi & Hm & Hbest) Hskip. split; [|split; [done|]].
  - by apply lookup_app_l_Some.
  - intros j row' Hj Hm'.
    destruct (decide (j < length patterns)%nat) as [Hlt|Hge].
    + rewrite lookup_app_l in Hj by done. by apply Hbest.
    + rewrite lookup_app_r in Hj by lia.
      destruct (j - length patterns)%nat; simpl in Hj; [|by rewrite lookup_nil in Hj].
      injection Hj as <-. congruence.
Qed.

Lemma wins_snoc_keep patterns i row row0 :
  wins search patterns normalized i row ->
  (row_confidence row0 <= row_confidence row)%Q ->
  wins search (patterns ++ [row0]) normalized i row.
Proof.
  intros (Hi & Hm & Hbest) Hle. split; [|split; [done|]].
  - by apply lookup_app_l_Some.
  - intros j row' Hj Hm'.
    destruct (decide (j < length patterns)%nat) as [Hlt|Hge].
    + rewrite lookup_app_l in Hj by done. by apply Hbest.
    + rewrite lookup_app_r in Hj by lia.
      destruct (j - length patterns)%nat; simpl in Hj; [|by rewrite lookup_nil in Hj].
      injection Hj as <-. split; [done|].
      apply lookup_lt_Some in Hi. lia.
Qed.

Lemma wins_snoc_replace patterns i row row0 :
  wins search patterns normalized i row ->
  search (row_pattern row0) normalized = true ->
  (row_confidence row < row_confidence row0)%Q ->
  wins search (patterns ++ [row0]) normalized (length patterns) row0.
Proof.
  intros (Hi & Hm & Hbest) Hm0 Hlt. split; [|split; [done|]].
  - by rewrite lookup_app_r, Nat.sub_diag by lia.
  - intros j row' Hj Hm'.
    destruct (decide (j < length patterns)%nat) as [Hj'|Hge].
    + rewrite lookup_app_l in Hj by done.
      destruct (Hbest j row' Hj Hm') as [Hle _].
      split; [|intros _]; [apply Qlt_le_weak|]; by eapply Qle_lt_trans.
    + rewrite lookup_app_r in Hj by lia.
      destruct (j - length patterns)%nat; simpl in Hj; [|by rewrite lookup_nil in Hj].
      injection Hj as <-. split; [apply Qle_refl|lia].
Qed.

Lemma wins_first patterns row0 :
  (forall row, row ∈ patterns -> search (row_pattern row) normalized = false) ->
  search (row_pattern row0) normalized = true ->
  wins search (patterns ++ [row0]) normalized (length patterns) row0.
Proof.
  intros Hnone Hm0. split; [|split; [done|]].
  - by rewrite lookup_app_r, Nat.sub_diag by lia.
  - intros j row' Hj Hm'.
    destruct (decide (j < length patterns)%nat) as [Hj'|Hge].
    + rewrite lookup_app_l in Hj by done.
      apply list_elem_of_lookup_2 in Hj. rewrite (Hnone _ Hj) in Hm'. discriminate.
    + rewrite lookup_app_r in Hj by lia.
      destruct (j - length patterns)%nat; simpl in Hj; [|by rewrite lookup_nil in Hj].
      injection Hj as <-. split; [apply Qle_refl|lia].
Qed.

Lemma scan_some patterns : forall best,
  scan search patterns text normalized = Some best ->
  exists i row, wins search patterns normalized i row /\ best = intent_of text row.
Proof.
  induction patterns as [|row0 patterns IH] using rev_ind; intros best Hscan.
  - discriminate.
  - rewrite scan_snoc in Hscan. unfold step in Hscan.
    destruct (search (row_pattern row0) normalized) eqn:Hm.
    + destruct (scan search patterns text normalized) as [b|] eqn:Hprev.
      * destruct (IH b eq_refl) as (i & row & Hwins & ->).
        destruct (Py.Qlt_bool _ _) eqn:Hlt; injection Hscan as <-.
        -- apply PyFacts.Qlt_bool_iff in Hlt.
           exists (length patterns), row0. split; [|done].
           by eapply wins_snoc_replace.
        -- apply PyFacts.Qlt_bool_false in Hlt.
           exists i, row. split; [|done]. by apply wins_snoc_keep.
      * injection Hscan as <-. exists (length patterns), row0. split; [|done].
        apply wins_first; [|done]. by apply scan_none.
    + destruct (IH best Hscan) as (i & row & Hwins & ->).
      exists i, row. split; [|done]. by apply wins_snoc_skip.
Qed.

End Scan.

Section Classifier.

Variable Text : Type.
Variable strip : Text -> Text.
Variable lower : Text -> Text.
Variable search : string -> Text -> bool.

(** C8. For every text, and whatever [str.strip], [str.lower] and
    [re.search] compute, the classifier scans the rows of the table in
    order, testing each pattern case-insensitively on the stripped and
    lowercased text, and returns the category, platform hint and confidence
    of the row of highest confidence among those that match, the earliest
    such row on equal confidence, with the text as received; when no row
    matches it returns category [unknown] with confidence 0. *)
Theorem recognize_intent_best_row (text : Text) :
  let normalized := lower (strip text) in
  let r := recognize_intent strip lower search text in
  raw_text r = text
  /\ tool_name r = None
  /\ (((forall row, row ∈ INTENT_PATTERNS ->
          search (row_pattern row) normalized = false)
       /\ category r = UNKNOWN /\ platform r = None /\ confidence r = 0%Q)
      \/ (exists i row,
            INTENT_PATTERNS !! i = Some row
            /\ search (row_pattern row) normalized = true
            /\ category r = row_category row
            /\ platform r = row_platform row
            /\ confidence r = row_confidence row
            /\ forall j row', INTENT_PATTERNS !! j = Some row' ->
                 search (row_pattern row') normalized = true ->
                 (row_confidence row' <= row_confidence row)%Q
                 /\ ((j < i)%nat -> (row_confidence row' < row_confidence row)%Q))).
Proof.
  intros normalized r. subst normalized r. unfold recognize_intent.
  destruct (scan search INTENT_PATTERNS text (lower (strip text))) as [best|] eqn:Hscan.
  - destruct (scan_some _ _ _ _ _ _ Hscan) as (i & row & (Hi & Hm & Hbest) & ->).
    split; [done|]. split; [done|]. right. exists i, row.
    split; [done|]. split; [done|]. split; [done|]. split; [done|]. split; [done|].
    done.
  - split; [done|]. split; [done|]. left. split; [|done]. intros row Hin.
    by eapply scan_none.
Qed.

End Classifier.

(** *** ASCII texts

    On a text of ASCII characters the normalisation is invisible to the
    patterns of the table: a row matches the stripped and lowercased text
    exactly when it matches the text as received. *)
Lemma search_normalized_ascii (text : string)
    (row : string * IntentCategory * option string * Q) :
  row ∈ INTENT_PATTERNS ->
  Re.search (row_pattern row) (Py.lower (Py.strip text))
  = Re.search (row_pattern row) text.
Proof. intros Hin. by rewrite search_lower, search_strip. Qed.


(** The seed scenarios of the classifier. *)
Example recognize_meraki_health :
  let r := recognize_ascii "meraki health" in
  category r = OBSERVABILITY /\ platform r = Some "meraki"
  /\ (confidence r == 90 # 100)%Q.
Proof. vm_compute. by repeat split. Qed.

Example recognize_help :
  let r := recognize_ascii "help" in
  category r = HELP /\ (confidence r == 95 # 100)%Q.
Proof. vm_compute. by repeat split. Qed.

Example recognize_weather :
  let r := recognize_ascii "what's the weather?" in
  category r = UNKNOWN /\ (confidence r == 0)%Q.
Proof. vm_compute. by repeat split. Qed.

(** A tie is won by the earlier row: "network status tools" matches the
    first and the last row, both of confidence 0.95. *)
Example recognize_tie_earlier_row :
  category (recognize_ascii "network status tools") = STATUS.
Proof. by vm_compute. Qed.

(** Case and surrounding whitespace do not matter. *)
Example recognize_padded_upper_case :
  let r := recognize_ascii "  Show me the RISK Score  " in
  category r = COMPLIANCE /\ platform r = Some "infer".
Proof. by vm_compute. Qed.

End NlpFacts.

Module InferFacts.
Import Models Infer.

(** *** Root-cause matching *)

Lemma count_matches_foldl pattern events : forall n,
  foldl (fun match_count signal =>
           if existsb (event_meets signal) events then S match_count else match_count)
        n pattern
  = (n + length (filter (fun s => existsb (event_meets s) events = true) pattern))%nat.
Proof.
  induction pattern as [|s pattern IH]; intros n; simpl; [lia|].
  rewrite IH, filter_cons. destruct (existsb (event_meets s) events); simpl; lia.
Qed.

Lemma count_matches_all pattern events :
  (count_matches pattern events =? length pattern)%nat
  = forallb (fun s => existsb (event_meets s) events) pattern.
Proof.
  unfold count_matches. rewrite count_matches_foldl. simpl.
  induction pattern as [|s pattern IH]; simpl; [done|].
  rewrite filter_cons. destruct (existsb (event_meets s) events); simpl.
  - apply IH.
  - apply Nat.eqb_neq. pose proof (length_filter
      (fun s => existsb (event_meets s) events = true) pattern). lia.
Qed.

Lemma required_platforms_subset pattern (platforms : list string) :
  bool_decide ((list_to_set (s_platform <$> pattern) : gset string)
               ⊆ list_to_set platforms)
  = forallb (fun signal => bool_decide (s_platform signal ∈ platforms)) pattern.
Proof.
  apply eq_true_iff_eq. rewrite bool_decide_eq_true, forallb_forall.
  split.
  - intros Hsub signal Hin. apply bool_decide_eq_true.
    apply (elem_of_list_to_set (C:=gset string)), Hsub, elem_of_list_to_set.
    apply list_elem_of_fmap. exists signal. split; [done|]. by apply list_elem_of_In.
  - intros Hall p Hp. apply elem_of_list_to_set in Hp.
    apply list_elem_of_fmap in Hp as (signal & -> & Hin).
    apply elem_of_list_to_set. apply list_elem_of_In in Hin.
    specialize (Hall _ Hin). by apply bool_decide_eq_true in Hall.
Qed.

(** What [match_root_cause] computes: the first template, in catalog order,
    each of whose signals has an event of its platform and of at least its
    severity.  The event types of the signals are never compared. *)
Lemma match_templates_first templates g :
  match_templates templates (list_to_set (gd_platforms g)) (gd_events g)
  = diagnosis <$> head (filter (fun t => template_matches t g = true) templates).
Proof.
  induction templates as [|t templates IH]; simpl; [done|].
  rewrite required_platforms_subset, count_matches_all, filter_cons.
  destruct (decide (template_matches t g = true)) as [Hm|Hm].
  - unfold template_matches in Hm. apply andb_true_iff in Hm as [Hplat Hsig].
    rewrite Hplat, Hsig. simpl. unfold diagnosis. do 5 f_equal.
    rewrite <- count_matches_all in Hsig. apply Nat.eqb_eq in Hsig. by rewrite Hsig.
  - apply not_true_is_false in Hm. unfold template_matches in Hm.
    apply andb_false_iff in Hm as [Hplat|Hsig].
    + rewrite Hplat. apply IH.
    + rewrite Hsig. by destruct (forallb (fun signal => bool_decide _) _).
Qed.

Lemma match_root_cause_first g :
  match_root_cause g
  = diagnosis <$> head (filter (fun t => template_matches t g = true)
                               ROOT_CAUSE_TEMPLATES).
Proof. apply match_templates_first. Qed.

(** C1. On the group [dns_outage] the first template that matches, event
    types included, is [rca-dns-cascade]; [match_root_cause] answers
    [rca-wan-app-slowdown], whose signals ask for the event types
    [path_loss] and [vpn_tunnel_flap] that no event of the group has. *)
Theorem match_root_cause_ignores_event_type :
  template_id <$> match_root_cause_spec dns_outage = Some "rca-dns-cascade"
  /\ template_id <$> match_root_cause dns_outage = Some "rca-wan-app-slowdown"
  /\ (forall event signal,
        event ∈ gd_events dns_outage ->
        signal ∈ [ {| s_platform := "thousandeyes"; s_event_type := "path_loss";
                      s_min_severity := "medium" |};
                   {| s_platform := "meraki"; s_event_type := "vpn_tunnel_flap";
                      s_min_severity := "low" |} ] ->
        event !! "event_type" <> Some (s_event_type signal)).
Proof.
  split; [by vm_compute|]. split; [by vm_compute|].
  intros event signal Hev Hsig. simpl in Hev.
  apply elem_of_cons in Hev as [->|Hev];
    [|apply list_elem_of_singleton in Hev as ->];
    (apply elem_of_cons in Hsig as [->|Hsig];
     [|apply list_elem_of_singleton in Hsig as ->]);
    by vm_compute.
Qed.

(** The rank of a severity only grows along [info, low, medium, high,
    critical], so an event that meets a signal meets every signal of the
    same platform with a lower minimum. *)
Lemma event_meets_weaker signal signal' event :
  s_platform signal = s_platform signal' ->
  _severity_rank (s_min_severity signal') <= _severity_rank (s_min_severity signal) ->
  event_meets signal event = true -> event_meets signal' event = true.
Proof.
  unfold event_meets. intros <- Hle. rewrite !andb_true_iff, !Z.leb_le.
  intros [? ?]. split; [done|lia].
Qed.

(** The template [rca-dns-cascade] is never the answer: whatever group meets
    its signals meets those of [rca-wan-app-slowdown], which comes first. *)
Lemma dns_cascade_unreachable g r :
  match_root_cause g = Some r -> template_id r <> "rca-dns-cascade".
Proof.
  rewrite match_root_cause_first. unfold ROOT_CAUSE_TEMPLATES.
  rewrite filter_cons. destruct (decide _) as [|Hwan]; simpl.
  { by intros [= <-]. }
  rewrite filter_cons. destruct (decide _); simpl.
  { by intros [= <-]. }
  rewrite filter_cons. destruct (decide _); simpl.
  { by intros [= <-]. }
  rewrite filter_cons. destruct (decide _) as [Hdns|]; simpl.
  { exfalso. apply Hwan. clear Hwan.
    unfold template_matches in *. simpl in *.
    rewrite !andb_true_r in *. rewrite !andb_true_iff in *.
    destruct Hdns as [[? ?] [Hte Hmer]]. split; [done|]. split.
    - rewrite existsb_exists in *. destruct Hte as (ev & ? & Hev).
      exists ev. split; [done|]. revert Hev. by apply event_meets_weaker.
    - rewrite existsb_exists in *. destruct Hmer as (ev & ? & Hev).
      exists ev. split; [done|]. revert Hev. by apply event_meets_weaker. }
  rewrite filter_cons. destruct (decide _); simpl.
  { by intros [= <-]. }
  done.
Qed.

(** The seed scenario: ThousandEyes path loss and a Meraki tunnel flap. *)
Example match_wan_app_slowdown :
  let g := {| gd_platforms := ["thousandeyes"; "meraki"];
              gd_events := [
                {[ "source_platform" := "thousandeyes"; "event_type" := "path_loss";
                   "severity" := "medium" ]};
                {[ "source_platform" := "meraki"; "event_type" := "vpn_tunnel_flap";
                   "severity" := "low" ]} ] |} in
  exists r, match_root_cause g = Some r
            /\ template_id r = "rca-wan-app-slowdown"
            /\ (rc_confidence r == 95 # 100)%Q.
Proof. eexists. split; [by vm_compute|]. by split. Qed.

(** *** Risk score *)

Lemma foldl_weighted_sum {A} (w : A -> Z) (step : Z -> A -> Z) (l : list A) :
  (forall acc x, step acc x = acc + w x) ->
  forall acc, foldl step acc l = acc + weighted_sum w l.
Proof.
  intros Hstep. induction l as [|x l IH]; intros acc; simpl; [lia|].
  rewrite IH, Hstep. lia.
Qed.

Lemma weighted_sum_nonneg {A} (w : A -> Z) (l : list A) :
  (forall x, 0 <= w x) -> 0 <= weighted_sum w l.
Proof.
  intros Hw. induction l as [|x l IH]; simpl; [lia|]. specialize (Hw x). lia.
Qed.

Lemma severity_weight_level s : severity_weight (severity_value s) = level_weight s.
Proof. by destruct s. Qed.

Lemma level_weight_nonneg s : 0 <= level_weight s.
Proof. destruct s; simpl; lia. Qed.

Lemma risk_weight_nonneg p : 0 <= risk_weight p.
Proof. unfold risk_weight. repeat case_decide; lia. Qed.

Lemma risk_step acc p :
  (if String.eqb (risk_level p) "critical" then acc + 15
   else if String.eqb (risk_level p) "high" then acc + 8 else acc)
  = acc + risk_weight p.
Proof.
  unfold risk_weight.
  destruct (String.eqb_spec (risk_level p) "critical") as [->|Hc].
  - by rewrite decide_True.
  - rewrite decide_False by done.
    destruct (String.eqb_spec (risk_level p) "high") as [->|Hh].
    + by rewrite decide_True.
    + rewrite decide_False by done. lia.
Qed.

(** C7 (as stated) fails: with the anomalies excluded, an empty buffer and
    one logged anomaly of confidence 0.9, the score is 0, where the formula
    with [a = min(20, 5 * 1)] gives 5. *)
Lemma network_risk_score_excluded_anomalies :
  total (network_risk_score (fun _ => "id") 0 [] [logged_spike] [] true false) = 0
  /\ all_components_score (fun _ => "id") 0 [] [logged_spike] [] = 5.
Proof. by vm_compute. Qed.

(** C7 (amended). Whatever the event buffer, the anomaly log and the
    incident history hold, and for both settings of each toggle, the risk
    score is [min(100, e + a + p)] and lies between 0 and 100, where [e] is
    the sum of the severity weights of the events of the last hour capped at
    60, [a] is 5 per logged anomaly of confidence at least 0.7 capped at 20
    when anomalies are included and 0 when they are not, and [p] is the sum
    of 15 per critical and 8 per high prediction capped at 20 when
    predictions are included and 0 when they are not; the tier is LOW on
    0-25, MODERATE on 26-50, ELEVATED on 51-75 and CRITICAL on 76-100. *)
Theorem network_risk_score_bounded_and_tiered (uuid4 : nat -> string) (now : Z)
    (_event_buffer : list CorrelatedEvent) (_anomaly_log : list Anomaly)
    (_incident_history : list Incident) (include_predictions include_anomalies : bool) :
  let report := network_risk_score uuid4 now _event_buffer _anomaly_log
                                   _incident_history include_predictions
                                   include_anomalies in
  let recent := filter (fun e => now - timestamp e < 3600 * 1000000) _event_buffer in
  let e := Z.min 60 (weighted_sum (fun ev => level_weight (severity ev)) recent) in
  let a := if include_anomalies
           then Z.min 20 (5 * Z.of_nat (length (filter
                            (fun x => (7 # 10 <= a_confidence x)%Q) _anomaly_log)))
           else 0 in
  let p := if include_predictions
           then Z.min 20 (weighted_sum risk_weight
                            (predict_failures uuid4 recent _incident_history))
           else 0 in
  0 <= total report <= 100
  /\ total report = Z.min 100 (e + a + p)
  /\ event_score report = e
  /\ anomaly_score report = a
  /\ prediction_score report = p
  /\ ((0 <= total report <= 25 /\ tier report = "LOW")
      \/ (26 <= total report <= 50 /\ tier report = "MODERATE")
      \/ (51 <= total report <= 75 /\ tier report = "ELEVATED")
      \/ (76 <= total report <= 100 /\ tier report = "CRITICAL")).
Proof.
  intros report recent e a p.
  assert (He : event_score report = e).
  { subst report e. simpl. f_equal.
    rewrite (foldl_weighted_sum (fun ev => level_weight (severity ev))).
    - done.
    - intros acc x. by rewrite severity_weight_level. }
  assert (Ha : anomaly_score report = a).
  { subst report a. simpl. destruct include_anomalies; [|done]. f_equal.
    rewrite Z.mul_comm. do 3 f_equal. apply list_filter_iff.
    intros x. apply Qle_bool_iff. }
  assert (Hp : prediction_score report = p).
  { subst report p. simpl. destruct include_predictions; [|done]. f_equal.
    rewrite (foldl_weighted_sum risk_weight); [done|]. apply risk_step. }
  assert (Htotal : total report = Z.min 100 (e + a + p)).
  { rewrite <- He, <- Ha, <- Hp. done. }
  assert (He0 : 0 <= e <= 60).
  { subst e. pose proof (weighted_sum_nonneg
      (fun ev => level_weight (severity ev)) recent
      (fun ev => level_weight_nonneg (severity ev))). lia. }
  assert (Ha0 : 0 <= a <= 20).
  { subst a. destruct include_anomalies; lia. }
  assert (Hp0 : 0 <= p <= 20).
  { subst p. destruct include_predictions; [|lia].
    pose proof (weighted_sum_nonneg risk_weight
      (predict_failures uuid4 recent _incident_history) risk_weight_nonneg). lia. }
  assert (Hrange : 0 <= total report <= 100) by lia.
  repeat (split; [done || lia|]).
  assert (Htier : tier report
                  = if total report <=? 25 then "LOW"
                    else if total report <=? 50 then "MODERATE"
                    else if total report <=? 75 then "ELEVATED" else "CRITICAL")
    by done.
  rewrite Htier. clear Htier.
  destruct (Z.leb_spec (total report) 25); [left; split; [lia|done]|].
  destruct (Z.leb_spec (total report) 50); [right; left; split; [lia|done]|].
  destruct (Z.leb_spec (total report) 75); [right; right; left; split; [lia|done]|].
  right; right; right. split; [lia|done].
Qed.

(** With both components included, which is the default of the tool, the
    score is the formula with all three components. *)
Lemma network_risk_score_all_components uuid4 now buffer log history :
  total (network_risk_score uuid4 now buffer log history true true)
  = all_components_score uuid4 now buffer log history.
Proof.
  unfold all_components_score. simpl. f_equal. f_equal; [f_equal|].
  - f_equal. rewrite (foldl_weighted_sum (fun ev => level_weight (severity ev)));
      [done|]. intros acc x. by rewrite severity_weight_level.
  - rewrite Z.mul_comm. do 4 f_equal. apply list_filter_iff.
    intros x. apply Qle_bool_iff.
  - f_equal. rewrite (foldl_weighted_sum risk_weight); [done|]. apply risk_step.
Qed.

(** *** Anomaly detection: the guard on the number of events *)

(** C9. On fewer than 5 events [detect_anomalies] returns the empty list,
    whatever the events are; in particular when a single key holds 3 or 4 of
    them. *)
Theorem detect_anomalies_fewer_than_five (uuid4 : nat -> string) (sensitivity : Q)
    (events : list CorrelatedEvent) :
  (length events < 5)%nat ->
  detect_anomalies uuid4 sensitivity events = [].
Proof.
  intros Hfew. unfold detect_anomalies.
  destruct (Nat.ltb_spec (length events) 5) as [_|Hge]; [done|lia].
Qed.

(** Four alerts of one key. *)
Lemma detect_anomalies_fewer_than_five_witness :
  (length four_alerts < 5)%nat
  /\ detect_anomalies (fun _ => "id") (85 # 100) four_alerts = [].
Proof.
  split.
  - simpl. lia.
  - apply (detect_anomalies_fewer_than_five (fun _ => "id") (85 # 100) four_alerts).
    simpl. lia.
Defined.

(** *** Correlation and the order of the input *)

Lemma group_events_reverse events window_seconds :
  NoDup (timestamp <$> events) ->
  group_events (reverse events) window_seconds = group_events events window_seconds.
Proof.
  intros Hnd. unfold group_events.
  rewrite (PyFacts.sorted_unique timestamp (reverse events) events).
  - done.
  - apply reverse_Permutation.
  - by rewrite reverse_Permutation.
Qed.

Lemma correlate_events_reverse uuid4 events window_seconds :
  NoDup (timestamp <$> events) ->
  correlate_events uuid4 (reverse events) window_seconds
  = correlate_events uuid4 events window_seconds.
Proof.
  intros Hnd. unfold correlate_events. rewrite group_events_reverse by done.
  destruct events as [|e events]; [done|].
  destruct (reverse (e :: events)) eqn:Hrev; [|done].
  apply (f_equal length) in Hrev. rewrite length_reverse in Hrev. discriminate.
Qed.

Lemma correlate_events_groups uuid4 events window_seconds :
  events <> [] ->
  Infer.events <$> correlate_events uuid4 events window_seconds
  = group_events events window_seconds.
Proof.
  intros Hne. unfold correlate_events. destruct events as [|e events]; [done|].
  generalize (group_events (e :: events) window_seconds). intros groups.
  induction groups as [|g groups IH] using rev_ind; [done|].
  rewrite foldl_app. simpl. by rewrite fmap_app, IH.
Qed.

Lemma co_occur_groups a b groups :
  co_occur a b groups <->
  exists group, group ∈ Infer.events <$> groups /\ a ∈ group /\ b ∈ group.
Proof.
  split.
  - intros (g & Hg & Ha & Hb). exists (Infer.events g).
    split; [by apply list_elem_of_fmap_2|done].
  - intros (group & Hg & Ha & Hb). apply list_elem_of_fmap in Hg as (g & -> & Hg).
    by exists g.
Qed.

(** C5 (as stated) fails: [ev_a] and [ev_b] are grouped together on the
    input [ev_a, ev_b, ev_c], and not on the reversed input, where [ev_c]
    seeds first and takes [ev_b]. *)
Lemma correlate_events_reversal_splits_group :
  co_occur ev_a ev_b (correlate_events (fun _ => "id") [ev_a; ev_b; ev_c] 300)
  /\ ~ co_occur ev_a ev_b
         (correlate_events (fun _ => "id") (reverse [ev_a; ev_b; ev_c]) 300).
Proof.
  rewrite !co_occur_groups, !correlate_events_groups by done.
  assert (group_events [ev_a; ev_b; ev_c] 300 = [[ev_a; ev_b]]) as -> by by vm_compute.
  assert (group_events (reverse [ev_a; ev_b; ev_c]) 300 = [[ev_c; ev_b]]) as ->
    by by vm_compute.
  split.
  - exists [ev_a; ev_b]. repeat split; set_solver.
  - intros (group & Hg & Ha & _). apply list_elem_of_singleton in Hg as ->.
    apply elem_of_cons in Ha as [Ha|Ha]; [discriminate|].
    apply list_elem_of_singleton in Ha. discriminate.
Qed.

(** C5 (amended). When no two events of the input carry the same timestamp,
    two events that appear together in a group of
    [correlate_events(events, window)] also appear together in a group of
    [correlate_events(reversed(events), window)]: the two calls build the
    same groups. *)
Theorem correlate_events_reversed_distinct_timestamps (uuid4 : nat -> string)
    (events : list CorrelatedEvent) (window_seconds : Z) (a b : CorrelatedEvent) :
  NoDup (timestamp <$> events) ->
  co_occur a b (correlate_events uuid4 events window_seconds) ->
  co_occur a b (correlate_events uuid4 (reverse events) window_seconds).
Proof. intros Hnd Hco. by rewrite correlate_events_reverse. Qed.

Lemma wan_events_co_occur :
  co_occur path_loss tunnel_flap
           (correlate_events (fun _ => "id") [path_loss; tunnel_flap] 300).
Proof.
  rewrite co_occur_groups, correlate_events_groups by done.
  assert (group_events [path_loss; tunnel_flap] 300 = [[path_loss; tunnel_flap]])
    as -> by by vm_compute.
  exists [path_loss; tunnel_flap]. repeat split; set_solver.
Qed.

(** The path loss and the tunnel flap, a minute apart at the same site. *)
Lemma correlate_events_reversed_distinct_timestamps_witness :
  NoDup (timestamp <$> [path_loss; tunnel_flap])
  /\ co_occur path_loss tunnel_flap
       (correlate_events (fun _ => "id") [path_loss; tunnel_flap] 300)
  /\ co_occur path_loss tunnel_flap
       (correlate_events (fun _ => "id") (reverse [path_loss; tunnel_flap]) 300).
Proof.
  assert (Hnd : NoDup (timestamp <$> [path_loss; tunnel_flap])).
  { apply (bool_decide_unpack _). by vm_compute. }
  split; [exact Hnd|]. split; [apply wan_events_co_occur|].
  apply (correlate_events_reversed_distinct_timestamps
           (fun _ => "id") [path_loss; tunnel_flap] 300 path_loss tunnel_flap Hnd).
  apply wan_events_co_occur.
Defined.

(** The seed scenarios of the correlation engine: one group of two events
    that the matcher diagnoses as a WAN degradation, and no group for
    disjoint entities. *)
Example correlate_wan_scenario :
  let groups := correlate_events (fun _ => "id") [path_loss; tunnel_flap] 300 in
  event_count <$> groups = [2%nat]
  /\ (fun g => template_id <$> match_root_cause (as_dict g)) <$> groups
     = [Some "rca-wan-app-slowdown"].
Proof. by vm_compute. Qed.

Example correlate_disjoint_entities :
  correlate_events (fun _ => "id")
    [simultaneous "a" ["host-a"]; simultaneous "b" ["host-b"]] 300 = [].
Proof. by vm_compute. Qed.

(** *** Anomaly detection, key by key *)

(** **** The spike test *)

Lemma frequency_spike_iff m r v :
  frequency_spike m r v = true <-> (0 < v /\ r < m /\ 4 * v < (m - r) ^ 2)%Q.
Proof.
  unfold frequency_spike. rewrite !andb_true_iff, !PyFacts.Qlt_bool_iff. tauto.
Qed.

Lemma frequency_spike_R_squared (m r v : R) :
  frequency_spike_R m r v <-> (0 < v /\ r < m /\ 4 * v < (m - r) * (m - r))%R.
Proof.
  unfold frequency_spike_R. cbv zeta. split.
  - intros [Hs Hr].
    assert (Hv : (0 < v)%R).
    { destruct (Rlt_le_dec 0 v) as [|Hneg]; [done|].
      rewrite (sqrt_neg_0 v Hneg) in Hs. Lra.lra. }
    pose proof (sqrt_sqrt v (Rlt_le _ _ Hv)) as Hsq.
    repeat split; [done|Lra.lra|]. Lra.nra.
  - intros (Hv & Hr & Hsq).
    pose proof (sqrt_lt_R0 v Hv) as Hs.
    pose proof (sqrt_sqrt v (Rlt_le _ _ Hv)) as Hss.
    split; [Lra.lra|]. Lra.nra.
Qed.

(** The rational test decides the test of the source, read over the reals. *)
Lemma frequency_spike_sqrt (m r v : Q) :
  frequency_spike m r v = true <-> frequency_spike_R (Q2R m) (Q2R r) (Q2R v).
Proof.
  rewrite frequency_spike_iff, frequency_spike_R_squared.
  assert (H0 : Q2R 0 = 0%R) by (unfold Q2R; simpl; Lra.lra).
  assert (H4 : Q2R 4 = 4%R) by (unfold Q2R; simpl; Lra.lra).
  assert (Hsq : Q2R ((m - r) ^ 2) = ((Q2R m - Q2R r) * (Q2R m - Q2R r))%R).
  { simpl. by rewrite Q2R_mult, Q2R_minus. }
  rewrite <- H0, <- H4, <- Hsq, <- Q2R_mult.
  split; intros (Hv & Hr & Hs); repeat split;
    first [by apply Qlt_Rlt | by apply Rlt_Qlt].
Qed.

Lemma Qsquare_nonneg (x : Q) : (0 <= x ^ 2)%Q.
Proof. simpl. Lqa.nra. Qed.

Lemma sum_squares_bound (m : Q) (xs : list Q) (x : Q) :
  x ∈ xs -> ((x - m) ^ 2 <= Py.sum ((fun x => (x - m) ^ 2)%Q <$> xs))%Q.
Proof.
  assert (Hnn : forall l : list Q, (0 <= Py.sum ((fun x => (x - m) ^ 2)%Q <$> l))%Q).
  { induction l as [|y l IH]; [done|]. rewrite fmap_cons, PyFacts.sum_cons.
    pose proof (Qsquare_nonneg (y - m)). Lqa.lra. }
  induction xs as [|y xs IH]; intros Hin; [by apply elem_of_nil in Hin|].
  rewrite fmap_cons, PyFacts.sum_cons. apply elem_of_cons in Hin as [->|Hin].
  - specialize (Hnn xs). Lqa.lra.
  - specialize (IH Hin). pose proof (Qsquare_nonneg (y - m)). Lqa.lra.
Qed.

(** The variance is at least the squared deviation of the last interval
    divided by the number of intervals, so the last interval is more than two
    deviations below the mean only among at least five intervals. *)
Lemma spike_needs_five_intervals (xs : list Q) :
  frequency_spike (mean xs) (default (mean xs) (last xs)) (variance xs) = true ->
  (4 < length xs)%nat.
Proof.
  rewrite frequency_spike_iff. intros (Hv & Hr & Hspike).
  destruct (last xs) as [r|] eqn:Hlast; [|simpl in Hr; Lqa.lra].
  change (default (mean xs) (Some r)) with r in *.
  apply last_Some_elem_of in Hlast.
  pose proof (sum_squares_bound (mean xs) xs r Hlast) as Hbound.
  destruct (le_lt_dec (length xs) 4) as [Hshort|]; [exfalso|lia].
  assert (Hlen : (0 < length xs)%nat).
  { destruct xs; [by apply elem_of_nil in Hlast|simpl; lia]. }
  unfold variance in Hv, Hspike.
  set (S := Py.sum ((fun x => (x - mean xs) ^ 2)%Q <$> xs)) in *.
  set (n := inject_Z (Z.of_nat (length xs))) in *.
  assert (Hn : (0 < n /\ n <= 4)%Q).
  { subst n. split.
    - change 0%Q with (inject_Z 0). rewrite <- Zlt_Qlt. lia.
    - change 4%Q with (inject_Z 4). rewrite <- Zle_Qle. lia. }
  assert (Hsq : ((mean xs - r) ^ 2 == (r - mean xs) ^ 2)%Q) by (simpl; ring).
  assert (HS : (S == n * (S / n))%Q) by (field; Lqa.lra).
  set (v := (S / n)%Q) in *.
  assert (Hnv : (n * v <= 4 * v)%Q).
  { apply Qmult_le_compat_r; Lqa.lra. }
  clearbody v. clearbody S. clearbody n.
  set (A := ((mean xs - r) ^ 2)%Q) in *. set (B := ((r - mean xs) ^ 2)%Q) in *.
  set (nv := (n * v)%Q) in *.
  clearbody A B nv. Lqa.lra.
Qed.

(** **** Intervals of sorted timestamps *)

Lemma intervals_length (l : list Z) : length (intervals l) = (length l - 1)%nat.
Proof.
  induction l as [|a [|b l] IH]; simpl in *; [done..|]. rewrite IH. lia.
Qed.

Lemma intervals_nonneg (l : list Z) :
  StronglySorted Z.le l -> Forall (fun x => (0 <= x)%Q) (intervals l).
Proof.
  induction 1 as [|a l Hsorted IH Ha]; [constructor|].
  destruct l as [|b l]; [constructor|].
  change (intervals (a :: b :: l))
    with (Py.total_seconds (b - a) :: intervals (b :: l)).
  constructor; [|done].
  apply Forall_cons in Ha as [Hab _].
  unfold Py.total_seconds, Qle. simpl. lia.
Qed.

Lemma sorted_timestamps_length (ts : list Z) :
  length (Py.sorted (fun t => t) ts) = length ts.
Proof. apply Permutation_length, PyFacts.sorted_Permutation. Qed.

Lemma recent_interval_nonneg (ts : list Z) r :
  last (intervals (Py.sorted (fun t => t) ts)) = Some r -> (0 <= r)%Q.
Proof.
  intros Hlast. apply last_Some_elem_of in Hlast.
  pose proof (intervals_nonneg _ (PyFacts.sorted_key_le (fun t => t) ts)) as Hnn.
  rewrite Forall_forall in Hnn. by apply Hnn.
Qed.

(** **** Keys and buckets *)

Lemma split_colon_key p ty :
  Py.split_colon (platform_value p +:+ ":" +:+ ty) = Some (platform_value p, ty).
Proof. by destruct p. Qed.

Lemma platform_value_inj p q : platform_value p = platform_value q -> p = q.
Proof. by destruct p, q. Qed.

Lemma bucket_key_eq e p ty :
  bucket_key e = platform_value p +:+ ":" +:+ ty
  <-> source_platform e = p /\ event_type e = ty.
Proof.
  split.
  - intros Hkey. apply (f_equal Py.split_colon) in Hkey.
    unfold bucket_key in Hkey. rewrite !split_colon_key in Hkey.
    injection Hkey as Hp Hty. split; [by apply platform_value_inj|done].
  - by intros [<- <-].
Qed.

Lemma string_key_timestamps_key p ty events :
  string_key_timestamps (platform_value p +:+ ":" +:+ ty) events
  = key_timestamps p ty events.
Proof.
  unfold string_key_timestamps, key_timestamps. f_equal.
  apply list_filter_iff. intros e. apply bucket_key_eq.
Qed.

Lemma bucket_append_fst k t (b : list (string * list Z)) :
  (bucket_append k t b).*1 = if decide (k ∈ b.*1) then b.*1 else b.*1 ++ [k].
Proof.
  induction b as [|[k' l] b IH]; cbn [bucket_append].
  - done.
  - destruct (String.eqb_spec k' k) as [->|Hne]; rewrite !fmap_cons; cbn [fst].
    + rewrite decide_True; [done|]. apply list_elem_of_here.
    + rewrite IH. destruct (decide (k ∈ b.*1)) as [Hin|Hnin].
      * rewrite decide_True; [done|]. by apply list_elem_of_further.
      * rewrite decide_False; [done|]. rewrite not_elem_of_cons. by split.
Qed.

Lemma bucket_append_NoDup k t (b : list (string * list Z)) :
  NoDup b.*1 -> NoDup (bucket_append k t b).*1.
Proof.
  intros Hnd. rewrite bucket_append_fst. destruct (decide (k ∈ b.*1)); [done|].
  apply NoDup_app. split; [done|]. split; [|apply NoDup_singleton].
  intros x Hx Hk. apply list_elem_of_singleton in Hk. by subst.
Qed.

Lemma bucket_append_lookup k t (b : list (string * list Z)) k' :
  (list_to_map (bucket_append k t b) : gmap string (list Z)) !! k'
  = if decide (k = k')
    then Some (default [] ((list_to_map b : gmap string (list Z)) !! k) ++ [t])
    else (list_to_map b : gmap string (list Z)) !! k'.
Proof.
  induction b as [|[k0 l] b IH]; simpl.
  - rewrite lookup_insert, lookup_empty. by destruct (decide (k = k')).
  - destruct (String.eqb_spec k0 k) as [->|Hne]; simpl.
    + rewrite !lookup_insert. destruct (decide (k = k')) as [<-|Hkk']; simpl.
      * by rewrite decide_True.
      * done.
    + rewrite !lookup_insert. destruct (decide (k0 = k')) as [<-|Hk0].
      * by rewrite decide_False by congruence.
      * rewrite IH. destruct (decide (k = k')) as [<-|Hkk']; [|done].
        by rewrite decide_False by done.
Qed.

Lemma non_empty_list_snoc l t : non_empty_list (l ++ [t]) = Some (l ++ [t]).
Proof. by destruct l. Qed.

Lemma non_empty_list_default l : default [] (non_empty_list l) = l.
Proof. by destruct l. Qed.

Lemma fill_buckets_snoc events e :
  fill_buckets (events ++ [e])
  = bucket_append (bucket_key e) (timestamp e) (fill_buckets events).
Proof. unfold fill_buckets. by rewrite foldl_app. Qed.

(** After the first loop of [detect_anomalies] the keys of the buckets are
    pairwise distinct and each bucket holds the timestamps of its key, in
    input order. *)
Lemma fill_buckets_spec events :
  NoDup (fill_buckets events).*1
  /\ forall k, (list_to_map (fill_buckets events) : gmap string (list Z)) !! k
               = non_empty_list (string_key_timestamps k events).
Proof.
  induction events as [|e events [IHnd IH]] using rev_ind.
  - split; [constructor|]. intros k. apply lookup_empty.
  - rewrite fill_buckets_snoc. split; [by apply bucket_append_NoDup|].
    intros k. rewrite bucket_append_lookup, !IH.
    unfold string_key_timestamps. rewrite filter_app, fmap_app, filter_cons.
    destruct (decide (bucket_key e = k)) as [<-|Hne]; simpl.
    + rewrite non_empty_list_snoc. f_equal. f_equal. apply non_empty_list_default.
    + by rewrite app_nil_r.
Qed.

(** **** The loop over the buckets *)

Section Buckets.

Variable uuid4 : nat -> string.
Variable sensitivity : Q.

Lemma inspect_bucket_anomaly anomalies bucket :
  inspect_bucket uuid4 sensitivity anomalies bucket
  = anomalies
    ++ option_list (bucket_anomaly sensitivity (uuid4 (length anomalies)) bucket).
Proof.
  destruct bucket as [key ts]. unfold inspect_bucket, bucket_anomaly. simpl.
  destruct (Nat.ltb_spec (length ts) 3) as [|Hlen]; [by rewrite app_nil_r|].
  destruct (intervals (Py.sorted (fun t => t) ts)) as [|x xs] eqn:Hxs.
  { apply (f_equal length) in Hxs.
    rewrite intervals_length, sorted_timestamps_length in Hxs. simpl in Hxs. lia. }
  destruct (Qeq_bool _ _); [by rewrite app_nil_r|].
  destruct (frequency_spike _ _ _); [|by rewrite app_nil_r].
  destruct (Py.split_colon key) as [[platform event_type]|]; simpl;
    [done|by rewrite app_nil_r].
Qed.

Lemma bucket_anomaly_split id key ts a :
  bucket_anomaly sensitivity id (key, ts) = Some a ->
  Py.split_colon key = Some (a_platform a, a_event_type a).
Proof.
  unfold bucket_anomaly. simpl.
  destruct (length ts <? 3)%nat; [done|].
  destruct (Qeq_bool _ _); [done|].
  destruct (frequency_spike _ _ _); [|done].
  destruct (Py.split_colon key) as [[platform event_type]|]; [|done].
  by intros [= <-].
Qed.

Lemma reported_for_bucket p ty id key ts :
  reported_for p ty (option_list (bucket_anomaly sensitivity id (key, ts)))
  = if decide (key = platform_value p +:+ ":" +:+ ty)
    then option_list (bucket_anomaly sensitivity id (key, ts)) else [].
Proof.
  unfold reported_for.
  destruct (bucket_anomaly sensitivity id (key, ts)) as [a|] eqn:Ha; simpl;
    [|by destruct (decide _)].
  apply bucket_anomaly_split in Ha. rewrite filter_cons, filter_nil.
  destruct (decide (key = platform_value p +:+ ":" +:+ ty)) as [->|Hne].
  - rewrite split_colon_key in Ha. injection Ha as <- <-. by rewrite decide_True.
  - rewrite decide_False; [done|]. intros [Hp Hty]. apply Hne.
    apply PyFacts.split_colon_join in Ha. by rewrite Ha, Hp, Hty.
Qed.

Lemma reported_for_app p ty l1 l2 :
  reported_for p ty (l1 ++ l2) = reported_for p ty l1 ++ reported_for p ty l2.
Proof. apply filter_app. Qed.

Lemma reported_for_other_buckets p ty buckets : forall anomalies,
  platform_value p +:+ ":" +:+ ty ∉ buckets.*1 ->
  reported_for p ty (foldl (inspect_bucket uuid4 sensitivity) anomalies buckets)
  = reported_for p ty anomalies.
Proof.
  induction buckets as [|[key ts] buckets IH]; intros anomalies Hnin; cbn [foldl];
    [done|].
  rewrite fmap_cons in Hnin. apply not_elem_of_cons in Hnin as [Hne Hnin].
  rewrite IH by done.
  rewrite inspect_bucket_anomaly, reported_for_app, reported_for_bucket.
  rewrite decide_False by done. apply app_nil_r.
Qed.

Lemma reported_for_buckets p ty buckets ts : forall anomalies,
  NoDup buckets.*1 ->
  (list_to_map buckets : gmap string (list Z)) !! (platform_value p +:+ ":" +:+ ty)
  = Some ts ->
  exists id,
    reported_for p ty (foldl (inspect_bucket uuid4 sensitivity) anomalies buckets)
    = reported_for p ty anomalies
      ++ option_list (bucket_anomaly sensitivity id (platform_value p +:+ ":" +:+ ty, ts)).
Proof.
  induction buckets as [|[key l] buckets IH]; intros anomalies Hnd Hlook; cbn [foldl].
  { simpl in Hlook. by rewrite lookup_empty in Hlook. }
  rewrite fmap_cons in Hnd. simpl in Hlook.
  apply NoDup_cons in Hnd as [Hkey Hnd].
  rewrite lookup_insert in Hlook.
  destruct (decide (key = platform_value p +:+ ":" +:+ ty)) as [->|Hne].
  - injection Hlook as ->. exists (uuid4 (length anomalies)).
    rewrite reported_for_other_buckets by done.
    rewrite inspect_bucket_anomaly, reported_for_app, reported_for_bucket.
    by rewrite decide_True.
  - destruct (IH (inspect_bucket uuid4 sensitivity anomalies (key, l)) Hnd Hlook)
      as [id Hid].
    exists id. rewrite Hid.
    rewrite inspect_bucket_anomaly, reported_for_app, reported_for_bucket.
    rewrite decide_False by done. by rewrite app_nil_r.
Qed.

(** What [detect_anomalies] reports for one key. *)
Lemma detect_anomalies_reported p ty events :
  exists id,
    reported_for p ty (detect_anomalies uuid4 sensitivity events)
    = if (length events <? 5)%nat then []
      else option_list
             (bucket_anomaly sensitivity id (platform_value p +:+ ":" +:+ ty,
                                 key_timestamps p ty events)).
Proof.
  unfold detect_anomalies. destruct (length events <? 5)%nat; [by exists ""|].
  destruct (fill_buckets_spec events) as [Hnd Hlook].
  specialize (Hlook (platform_value p +:+ ":" +:+ ty)).
  rewrite string_key_timestamps_key in Hlook.
  destruct (key_timestamps p ty events) as [|t ts] eqn:Hts; simpl in Hlook.
  - exists "". apply not_elem_of_list_to_map in Hlook.
    by rewrite reported_for_other_buckets.
  - destruct (reported_for_buckets p ty _ _ [] Hnd Hlook) as [id Hid].
    exists id. by rewrite Hid.
Qed.

End Buckets.

(** A mean interval of zero never passes the spike test: the recent interval
    of sorted timestamps is not negative. *)
Lemma zero_mean_no_spike (ts : list Z) :
  let xs := intervals (Py.sorted (fun t => t) ts) in
  (mean xs == 0)%Q ->
  frequency_spike (mean xs) (default (mean xs) (last xs)) (variance xs) = false.
Proof.
  intros xs Hzero. apply not_true_iff_false. rewrite frequency_spike_iff.
  intros (_ & Hr & _). destruct (last xs) as [r|] eqn:Hlast; simpl in Hr.
  - apply recent_interval_nonneg in Hlast. Lqa.lra.
  - Lqa.lra.
Qed.

Lemma bucket_anomaly_spec sensitivity id p ty (ts : list Z) :
  let xs := intervals (Py.sorted (fun t => t) ts) in
  bucket_anomaly sensitivity id (platform_value p +:+ ":" +:+ ty, ts)
  = if decide ((3 <= length ts)%nat
               /\ frequency_spike (mean xs) (default (mean xs) (last xs))
                                  (variance xs) = true)
    then Some (spike_record sensitivity id (platform_value p) ty xs)
    else None.
Proof.
  intros xs. unfold bucket_anomaly. cbn [fst snd]. fold xs.
  destruct (Nat.ltb_spec (length ts) 3) as [Hlt|Hge].
  { rewrite decide_False; [done|]. intros [? _]. lia. }
  destruct (Qeq_bool (mean xs) 0) eqn:Hzero.
  { apply Qeq_bool_iff in Hzero. rewrite decide_False; [done|].
    intros [_ Hspike]. pose proof (zero_mean_no_spike ts Hzero) as Hno.
    cbv zeta in Hno. fold xs in Hno. congruence. }
  destruct (frequency_spike _ _ _) eqn:Hspike.
  - rewrite decide_True by done. by rewrite split_colon_key.
  - rewrite decide_False; [done|]. by intros [_ ?].
Qed.

Lemma key_timestamps_length p ty events :
  (length (key_timestamps p ty events) <= length events)%nat.
Proof. unfold key_timestamps. rewrite length_fmap. apply length_filter. Qed.

(** Over exact arithmetic the detector reports one anomaly for a key
    exactly when the key has at least 3 events, the standard deviation of
    its inter-arrival intervals is positive and the most recent interval is
    below the mean minus two deviations.  The detector of the code, which
    computes in floats, is the subject of [InferFloatFacts]. *)
Lemma exact_detector_two_sigma_per_key (uuid4 : nat -> string) (sensitivity : Q)
    (events : list CorrelatedEvent) (p : PlatformType) (ty : string) :
  let xs := key_intervals p ty events in
  let mu := mean xs in
  let r := default mu (last xs) in
  let reported := reported_for p ty (detect_anomalies uuid4 sensitivity events) in
  let spike := (3 <= length (key_timestamps p ty events))%nat
               /\ frequency_spike_R (Q2R mu) (Q2R r) (Q2R (variance xs)) in
  (spike ->
   exists a, reported = [a]
     /\ a_pattern a = "frequency_spike"
     /\ mean_interval a = mu /\ recent_interval a = r
     /\ a_confidence a = Qmin (95 # 100) (sensitivity + (5 # 100))
     /\ ((r < mu * (2 # 10))%Q -> a_severity a = "high")
     /\ ((mu * (2 # 10) <= r)%Q -> a_severity a = "medium"))
  /\ (~ spike -> reported = [])
  /\ ((length (key_timestamps p ty events) < 3)%nat -> reported = [])
  /\ ((mu == 0)%Q -> reported = []).
Proof.
  intros xs mu r reported spike.
  destruct (detect_anomalies_reported uuid4 sensitivity p ty events) as [id Hid].
  fold reported in Hid. rewrite bucket_anomaly_spec in Hid.
  fold (key_intervals p ty events) in Hid. fold xs mu r in Hid.
  assert (Hspike : spike <->
            (3 <= length (key_timestamps p ty events))%nat
            /\ frequency_spike mu r (variance xs) = true).
  { unfold spike. by rewrite frequency_spike_sqrt. }
  assert (Hemit : spike -> (length events <? 5)%nat = false).
  { intros [Hlen Hsp]%Hspike. apply spike_needs_five_intervals in Hsp.
    unfold xs, key_intervals in Hsp.
    rewrite intervals_length, sorted_timestamps_length in Hsp.
    pose proof (key_timestamps_length p ty events). apply Nat.ltb_ge. lia. }
  assert (Hnone : ~ spike -> reported = []).
  { intros Hno. rewrite Hid. destruct (length events <? 5)%nat; [done|].
    rewrite decide_False; [done|]. by rewrite <- Hspike. }
  split; [|split; [done|split]].
  - intros Hsp. rewrite Hid, (Hemit Hsp).
    rewrite decide_True by by apply Hspike.
    eexists. split; [done|]. simpl. repeat split; try done.
    + intros Hlt. apply PyFacts.Qlt_bool_iff in Hlt. fold xs mu r. by rewrite Hlt.
    + intros Hge. apply PyFacts.Qlt_bool_false in Hge. fold xs mu r. by rewrite Hge.
  - intros Hfew. apply Hnone. intros [Hlen _]. lia.
  - intros Hzero. apply Hnone. intros [_ Hsp]%Hspike.
    pose proof (zero_mean_no_spike (key_timestamps p ty events) Hzero) as Hno.
    cbv zeta in Hno. fold (key_intervals p ty events) in Hno.
    fold xs mu r in Hno. congruence.
Qed.

(** Every reported anomaly belongs to the key of some event of the input, so
    the keys of the theorem above account for the whole result. *)
Lemma inspect_buckets_origin uuid4 sensitivity buckets : forall anomalies a,
  a ∈ foldl (inspect_bucket uuid4 sensitivity) anomalies buckets ->
  a ∈ anomalies
  \/ exists key ts id, (key, ts) ∈ buckets
                       /\ bucket_anomaly sensitivity id (key, ts) = Some a.
Proof.
  induction buckets as [|[key ts] buckets IH]; intros anomalies a Hin; cbn [foldl] in Hin.
  - by left.
  - apply IH in Hin as [Hin|(key' & ts' & id & Hb & Ha)].
    + rewrite inspect_bucket_anomaly in Hin. apply elem_of_app in Hin as [Hin|Hin].
      * by left.
      * right. exists key, ts, (uuid4 (length anomalies)).
        split; [apply list_elem_of_here|].
        destruct (bucket_anomaly _ _ _) as [a'|]; simpl in Hin.
        -- apply list_elem_of_singleton in Hin. by subst.
        -- by apply elem_of_nil in Hin.
    + right. exists key', ts', id. split; [by apply list_elem_of_further|done].
Qed.

Lemma detect_anomalies_key_of_event uuid4 sensitivity events a :
  a ∈ detect_anomalies uuid4 sensitivity events ->
  exists e, e ∈ events
            /\ a_platform a = platform_value (source_platform e)
            /\ a_event_type a = event_type e.
Proof.
  unfold detect_anomalies. destruct (length events <? 5)%nat.
  { intros Hin. by apply elem_of_nil in Hin. }
  intros Hin. apply inspect_buckets_origin in Hin as [Hin|(key & ts & id & Hb & Ha)].
  { by apply elem_of_nil in Hin. }
  destruct (fill_buckets_spec events) as [Hnd Hlook].
  apply (elem_of_list_to_map (M:=gmap string)) in Hb; [|done].
  rewrite Hlook in Hb. unfold string_key_timestamps in Hb.
  destruct (filter (fun e => bucket_key e = key) events) as [|e es] eqn:Hes;
    [discriminate|].
  assert (He : e ∈ filter (fun e => bucket_key e = key) events).
  { rewrite Hes. apply list_elem_of_here. }
  apply list_elem_of_filter in He as [Hkey He].
  exists e. split; [done|].
  apply bucket_anomaly_split in Ha. rewrite <- Hkey in Ha.
  unfold bucket_key in Ha. rewrite split_colon_key in Ha. by injection Ha as <- <-.
Qed.

(** Four alerts of one key do not pass the test, however close the last
    two are. *)
Example four_alerts_no_spike :
  let xs := key_intervals XDR "alert" four_alerts in
  frequency_spike (mean xs) (default (mean xs) (last xs)) (variance xs) = false.
Proof. by vm_compute. Qed.

Example detect_anomalies_reports_spike :
  (fun a => (a_platform a, a_event_type a, a_severity a))
    <$> detect_anomalies (fun _ => "id") (85 # 100) seven_alerts
  = [("xdr", "alert", "high")].
Proof. by vm_compute. Qed.

End InferFacts.

Module ListFacts.

Lemma filter_all {A} (P : A -> Prop) `{!forall x, Decision (P x)} (l : list A) :
  Forall P l -> filter P l = l.
Proof.
  induction 1 as [|x l Hx Hl IH]; [done|]. by rewrite filter_cons_True, IH.
Qed.

Lemma filter_none {A} (P : A -> Prop) `{!forall x, Decision (P x)} (l : list A) :
  Forall (fun x => ~ P x) l -> filter P l = [].
Proof.
  induction 1 as [|x l Hx Hl IH]; [done|]. by rewrite filter_cons_False.
Qed.

Lemma head_filter_Some {A} (P : A -> Prop) `{!forall x, Decision (P x)} (l : list A) x :
  head (filter P l) = Some x -> x ∈ l /\ P x.
Proof.
  intros Hhead. apply head_Some_elem_of in Hhead.
  by apply list_elem_of_filter in Hhead as [? ?].
Qed.

Lemma head_filter_None {A} (P : A -> Prop) `{!forall x, Decision (P x)} (l : list A) :
  head (filter P l) = None <-> forall x, x ∈ l -> ~ P x.
Proof.
  rewrite head_None. split.
  - intros Hnone x Hin HP.
    assert (Hx : x ∈ filter P l) by by apply list_elem_of_filter.
    rewrite Hnone in Hx. by apply elem_of_nil in Hx.
  - intros Hall. apply filter_none. by apply Forall_forall.
Qed.

Lemma mapM_fmap_Some {A B C} (f : B -> option C) (g : A -> B) (h : A -> C)
    (l : list A) :
  (forall x, f (g x) = Some (h x)) -> mapM f (g <$> l) = Some (h <$> l).
Proof.
  intros Hfg. induction l as [|x l IH]; [done|].
  rewrite !fmap_cons. cbn. rewrite Hfg. cbn. by rewrite IH.
Qed.

Lemma mapM_None {A B} (f : A -> option B) (l : list A) :
  mapM f l = None <-> exists x, x ∈ l /\ f x = None.
Proof.
  rewrite eq_None_not_Some, mapM_is_Some, <- Exists_Forall_neg, Exists_exists.
  - unfold compose. split; intros (x & Hin & Hx); exists x; (split; [done|]).
    + by apply eq_None_not_Some.
    + by apply eq_None_not_Some in Hx.
  - intros x. unfold compose. destruct (f x) as [y|].
    + left. by exists y.
    + right. by intros [? ?].
Qed.

Lemma StronglySorted_sublist {A} (R : relation A) (l1 l2 : list A) :
  l1 `sublist_of` l2 -> StronglySorted R l2 -> StronglySorted R l1.
Proof.
  induction 1 as [|x l1 l2 Hsub IH|x l1 l2 Hsub IH]; intros Hs; [done| |].
  - apply StronglySorted_inv in Hs as [Hs Hall]. constructor; [by apply IH|].
    rewrite Forall_forall in *. intros y Hy. apply Hall. by eapply elem_of_sublist.
  - apply StronglySorted_inv in Hs as [Hs _]. by apply IH.
Qed.

Lemma size_remove_dups `{Countable A} (l : list A) :
  size (list_to_set l : gset A) = length (remove_dups l).
Proof.
  rewrite <- (size_list_to_set (C:=gset A) (remove_dups l)) by apply NoDup_remove_dups.
  f_equal. apply set_eq. intros x. by rewrite !elem_of_list_to_set, elem_of_remove_dups.
Qed.

Lemma remove_dups_inj_length `{EqDecision A, EqDecision B} (f : A -> B) `{!Inj (=) (=) f}
    (l : list A) :
  length (remove_dups (f <$> l)) = length (remove_dups l).
Proof.
  induction l as [|x l IH]; [done|]. rewrite fmap_cons. cbn [remove_dups].
  destruct (decide_rel elem_of x l) as [Hin|Hnin];
    destruct (decide_rel elem_of (f x) (f <$> l)) as [Hin'|Hnin'].
  - done.
  - destruct Hnin'. by apply list_elem_of_fmap_2.
  - apply list_elem_of_fmap in Hin' as (y & Hy & Hin). apply (inj f) in Hy. by subst.
  - cbn [length]. by rewrite IH.
Qed.

End ListFacts.

Module CorrelationFacts.
Import Models Infer Correlation.

Lemma unused_above i j used l :
  (i < j)%nat -> unused j (used ∪ {[ i ]}) l = unused j used l.
Proof.
  revert j. induction l as [|x l IH]; intros j Hlt; simpl; [done|].
  rewrite IH by lia. f_equal.
  destruct (decide (j ∈ used)) as [Hin|Hnin].
  - by rewrite decide_True by set_solver.
  - rewrite decide_False; [done|].
    intros [?|Heq%elem_of_singleton]%elem_of_union; [done|lia].
Qed.

Section Loops.

Variable s : list CorrelatedEvent.
Variable w : Z.

Lemma absorb_loop ev : forall l j group used,
  drop j s = l ->
  let st := foldl (absorb s ev w) (group, used) (seq j (length l)) in
  st.1 = group ++ filter (fun o => overlaps_with ev o w = true) (unused j used l)
  /\ unused j st.2 l = filter (fun o => overlaps_with ev o w <> true) (unused j used l)
  /\ used ⊆ st.2
  /\ (forall k, k ∈ st.2 -> k ∈ used \/ (j <= k)%nat).
Proof.
  induction l as [|x l IH]; intros j group used Hdrop; simpl.
  - rewrite app_nil_r. split; [done|]. split; [done|]. split; [done|]. by left.
  - assert (Hj : s !! j = Some x).
    { rewrite <- (Nat.add_0_r j), <- lookup_drop, Hdrop. done. }
    assert (Hdrop' : drop (S j) s = l).
    { rewrite (drop_S _ _ _ Hj) in Hdrop. by injection Hdrop. }
    destruct (decide (j ∈ used)) as [Hin|Hnin]; simpl.
    + rewrite bool_decide_eq_true_2 by done.
      destruct (IH (S j) group used Hdrop') as (H1 & H2 & H3 & H4).
      split; [done|]. split; [|split; [done|]].
      * rewrite decide_True by (by apply H3). done.
      * intros k Hk. destruct (H4 k Hk); [by left|right; lia].
    + rewrite bool_decide_eq_false_2 by done. rewrite Hj.
      destruct (overlaps_with ev x w) eqn:Hov.
      * destruct (IH (S j) (group ++ [x]) (used ∪ {[j]}) Hdrop') as (H1 & H2 & H3 & H4).
        rewrite unused_above in H1, H2 by lia.
        rewrite filter_cons_True by done. rewrite filter_cons_False by (by intros []).
        split; [by rewrite H1, <- app_assoc|].
        split; [|split].
        -- rewrite decide_True; [done|]. apply H3, elem_of_union_r, elem_of_singleton. done.
        -- intros k Hk. by apply H3, elem_of_union_l.
        -- intros k Hk. destruct (H4 k Hk) as [Hk'|Hk']; [|right; lia].
           apply elem_of_union in Hk' as [?|Hk']; [by left|].
           apply elem_of_singleton in Hk'. right. lia.
      * destruct (IH (S j) group used Hdrop') as (H1 & H2 & H3 & H4).
        rewrite filter_cons_False by (by rewrite Hov).
        rewrite filter_cons_True by (by rewrite Hov).
        split; [done|]. split; [|split; [done|]].
        -- rewrite decide_False; [by rewrite H2|].
           intros Hk. destruct (H4 j Hk); [done|lia].
        -- intros k Hk. destruct (H4 k Hk); [by left|right; lia].
Qed.

Lemma greedy_fuel n : forall m l,
  (length l <= n)%nat -> (length l <= m)%nat -> greedy n l w = greedy m l w.
Proof.
  induction n as [|n IH]; intros m l Hn Hm.
  - destruct l; [by destruct m|simpl in Hn; lia].
  - destruct l as [|ev rest]; [by destruct m|].
    destruct m as [|m]; [simpl in Hm; lia|]. simpl in *.
    pose proof (length_filter (fun o => overlaps_with ev o w <> true) rest).
    rewrite (IH m) by lia. done.
Qed.

Lemma unused_length i used l : (length (unused i used l) <= length l)%nat.
Proof.
  revert i. induction l as [|x l IH]; intros i; simpl; [done|].
  rewrite length_app. specialize (IH (S i)). destruct (decide (i ∈ used)); simpl; lia.
Qed.

Lemma seed_loop : forall l i groups used,
  drop i s = l ->
  (foldl (seed s w) (groups, used) (imap (fun k ev => ((i + k)%nat, ev)) l)).1
  = groups ++ greedy (length l) (unused i used l) w.
Proof.
  induction l as [|x l IH]; intros i groups used Hdrop.
  - simpl. by rewrite app_nil_r.
  - assert (Hi : s !! i = Some x).
    { rewrite <- (Nat.add_0_r i), <- lookup_drop, Hdrop. done. }
    assert (Hdrop' : drop (S i) s = l).
    { rewrite (drop_S _ _ _ Hi) in Hdrop. by injection Hdrop. }
    assert (Hlen : (length s - S i)%nat = length l).
    { rewrite <- Hdrop', length_drop. done. }
    rewrite imap_cons. cbn [foldl].
    rewrite (imap_ext _ (fun k ev => ((S i + k)%nat, ev))) by (intros; simpl; f_equal; lia).
    rewrite Nat.add_0_r. cbn [unused]. unfold seed at 2.
    pose proof (unused_length (S i) used l) as Hle.
    destruct (decide (i ∈ used)) as [Hin|Hnin].
    + rewrite bool_decide_eq_true_2 by done. rewrite (IH _ _ _ Hdrop').
      cbn [app]. f_equal. apply greedy_fuel; [done|]. cbn [length]. lia.
    + rewrite bool_decide_eq_false_2 by done. rewrite Hlen.
      destruct (absorb_loop x l (S i) [x] (used ∪ {[i]}) Hdrop') as (H1 & H2 & _ & _).
      rewrite unused_above in H1, H2 by lia.
      destruct (foldl (absorb s x w) ([x], used ∪ {[i]}) (seq (S i) (length l)))
        as [group used'] eqn:Hst.
      cbn [fst snd] in H1, H2. rewrite (IH _ _ _ Hdrop'), H2, H1.
      cbn [app length greedy].
      pose proof (length_filter (fun o => overlaps_with x o w <> true)
                    (unused (S i) used l)) as Hle'.
      destruct (filter (fun o => overlaps_with x o w = true) (unused (S i) used l))
        as [|o taken] eqn:Htaken.
      * done.
      * cbn [length]. replace (1 <? S (S (length taken)))%nat with true
          by (symmetry; apply Nat.ltb_lt; lia).
        by rewrite <- app_assoc.
Qed.

End Loops.

Lemma unused_empty l : forall i, unused i ∅ l = l.
Proof. induction l as [|x l IH]; intros i; simpl; [done|]. by rewrite IH. Qed.

(** The loops of [correlate_events] compute the greedy grouping of the
    sorted events. *)
Lemma group_events_greedy events w :
  group_events events w = greedy (length events) (Py.sorted timestamp events) w.
Proof.
  unfold group_events.
  rewrite (seed_loop (Py.sorted timestamp events) w (Py.sorted timestamp events) 0 [] ∅)
    by done.
  rewrite unused_empty. simpl. apply greedy_fuel; [done|].
  by rewrite (PyFacts.sorted_Permutation timestamp events).
Qed.

(** **** What the greedy grouping guarantees *)


Lemma greedy_group w n : forall l g,
  g ∈ greedy n l w ->
  exists ev taken,
    g = ev :: taken /\ taken <> [] /\ ev :: taken `sublist_of` l
    /\ Forall (fun o => overlaps_with ev o w = true) taken.
Proof.
  induction n as [|n IH]; intros l g Hg; [by apply elem_of_nil in Hg|].
  destruct l as [|ev rest]; [by apply elem_of_nil in Hg|]. cbn [greedy] in Hg.
  assert (Hleft : forall g, g ∈ greedy n (filter (fun o => overlaps_with ev o w <> true) rest) w ->
            exists ev' taken, g = ev' :: taken /\ taken <> []
              /\ ev' :: taken `sublist_of` ev :: rest
              /\ Forall (fun o => overlaps_with ev' o w = true) taken).
  { intros g' Hg'. destruct (IH _ _ Hg') as (ev' & taken & -> & Hne & Hsub & Hall).
    exists ev', taken. repeat split; try done.
    apply sublist_cons. etrans; [exact Hsub|]. apply sublist_filter. }
  destruct (filter (fun o => overlaps_with ev o w = true) rest) as [|o taken] eqn:Htaken.
  - by apply Hleft.
  - apply elem_of_cons in Hg as [->|Hg]; [|by apply Hleft].
    exists ev, (o :: taken). split; [done|]. split; [done|]. split.
    + apply sublist_skip. rewrite <- Htaken. apply sublist_filter.
    + rewrite <- Htaken. apply Forall_forall. intros x Hx.
      by apply list_elem_of_filter in Hx as [? _].
Qed.

Lemma greedy_submseteq w n : forall l, concat (greedy n l w) ⊆+ l.
Proof.
  induction n as [|n IH]; intros l; [apply submseteq_nil_l|].
  destruct l as [|ev rest]; [done|]. cbn [greedy].
  pose proof (filter_app_complement (fun o => overlaps_with ev o w = true) rest) as Hperm.
  specialize (IH (filter (fun o => overlaps_with ev o w <> true) rest)).
  destruct (filter (fun o => overlaps_with ev o w = true) rest) as [|o taken] eqn:Htaken.
  - apply submseteq_cons. etrans; [exact IH|].
    apply sublist_submseteq, sublist_filter.
  - cbn [concat].
    trans (ev :: (o :: taken) ++ filter (fun o => overlaps_with ev o w <> true) rest).
    + cbn [app]. apply submseteq_skip, submseteq_skip. by apply submseteq_app.
    + apply Permutation_submseteq. by constructor.
Qed.

Lemma correlate_events_describe uuid4 events w g :
  g ∈ correlate_events uuid4 events w ->
  exists cid group, g = describe_group cid group /\ group ∈ group_events events w.
Proof.
  unfold correlate_events. destruct events as [|e events]; [by intros ?%elem_of_nil|].
  generalize (group_events (e :: events) w). intros groups.
  induction groups as [|group groups IH] using rev_ind; [by intros ?%elem_of_nil|].
  rewrite foldl_app. cbn [foldl]. intros [Hg|Hg]%elem_of_app.
  - destruct (IH Hg) as (cid & group' & -> & Hin). exists cid, group'.
    split; [done|]. apply elem_of_app. by left.
  - apply list_elem_of_singleton in Hg as ->. eexists _, group. split; [done|].
    apply elem_of_app. right. by apply list_elem_of_singleton.
Qed.

Lemma max_by_spec {A} (key : A -> Z) (l : list A) : forall x,
  Py.max_by key x l ∈ x :: l
  /\ forall y, y ∈ x :: l -> key y <= key (Py.max_by key x l).
Proof.
  unfold Py.max_by. induction l as [|z l IH]; intros x; cbn [foldl].
  - split; [apply list_elem_of_here|]. by intros y ->%list_elem_of_singleton.
  - destruct (key x <? key z) eqn:Hlt.
    + destruct (IH z) as [Hin Hmax]. split; [by apply list_elem_of_further|].
      apply Z.ltb_lt in Hlt. intros y [->|Hy]%elem_of_cons; [|by apply Hmax].
      specialize (Hmax z (list_elem_of_here _ _)). lia.
    + destruct (IH x) as [Hin Hmax]. split.
      * apply elem_of_cons in Hin as [->|Hin]; [apply list_elem_of_here|].
        by do 2 apply list_elem_of_further.
      * apply Z.ltb_ge in Hlt.
        intros y [->|[->|Hy]%elem_of_cons]%elem_of_cons.
        -- apply Hmax, list_elem_of_here.
        -- specialize (Hmax x (list_elem_of_here _ _)). lia.
        -- by apply Hmax, list_elem_of_further.
Qed.

Lemma overlaps_with_iff a b w :
  overlaps_with a b w = true <->
  Z.abs (timestamp a - timestamp b) <= w * 1000000
  /\ exists x, x ∈ affected_entities a /\ x ∈ affected_entities b.
Proof.
  unfold overlaps_with. rewrite andb_true_iff, Z.leb_le, bool_decide_eq_true.
  split; intros [Hd He]; (split; [done|]).
  - apply set_choose_L in He as [x Hx]. exists x.
    apply elem_of_intersection in Hx as [Ha Hb].
    by rewrite !elem_of_list_to_set in Ha, Hb.
  - destruct He as (x & Ha & Hb). intros Hempty.
    assert (Hx : x ∈ (list_to_set (affected_entities a) : gset string)
                       ∩ list_to_set (affected_entities b)).
    { apply elem_of_intersection. by rewrite !elem_of_list_to_set. }
    rewrite Hempty in Hx. by apply elem_of_empty in Hx.
Qed.

(** X1. Overlap of two events: the relation is symmetric; two events that
    overlap share an affected entity, under a window that is not negative;
    an event without affected entities overlaps with nothing; and two events
    of the same instant, an event and itself among them, overlap exactly
    when they share an entity and the window is not negative. *)
Theorem overlaps_with_symmetric_shared_entity (a b : CorrelatedEvent) (w : Z) :
  overlaps_with a b w = overlaps_with b a w
  /\ (overlaps_with a b w = true ->
      0 <= w /\ exists x, x ∈ affected_entities a /\ x ∈ affected_entities b)
  /\ (affected_entities a = [] -> overlaps_with a b w = false)
  /\ (timestamp a = timestamp b ->
      (overlaps_with a b w = true <->
       0 <= w /\ exists x, x ∈ affected_entities a /\ x ∈ affected_entities b))
  /\ (overlaps_with a a w = true <-> 0 <= w /\ affected_entities a <> []).
Proof.
  assert (Hsame : forall a b, timestamp a = timestamp b ->
            (overlaps_with a b w = true <->
             0 <= w /\ exists x, x ∈ affected_entities a /\ x ∈ affected_entities b)).
  { intros a' b' Hts. rewrite overlaps_with_iff, Hts, Z.sub_diag. simpl.
    split; intros [Hw He]; (split; [lia|done]). }
  split; [|split; [|split; [|split]]].
  - apply eq_true_iff_eq. rewrite !overlaps_with_iff.
    replace (timestamp b - timestamp a) with (- (timestamp a - timestamp b)) by lia.
    rewrite Z.abs_opp.
    split; intros (Hd & x & Ha & Hb); (split; [done|by exists x]).
  - rewrite overlaps_with_iff. intros [Hd He]. split; [lia|done].
  - intros Hnone. apply not_true_is_false. rewrite overlaps_with_iff.
    intros (_ & x & Hx & _). rewrite Hnone in Hx. by apply elem_of_nil in Hx.
  - apply Hsame.
  - rewrite (Hsame a a eq_refl). split; intros [Hw He]; (split; [done|]).
    + destruct He as (x & Hx & _). intros Hnone. rewrite Hnone in Hx.
      by apply elem_of_nil in Hx.
    + destruct (affected_entities a) as [|x l]; [done|].
      exists x. split; apply list_elem_of_here.
Qed.

Lemma group_events_group events w g :
  g ∈ group_events events w ->
  exists ev taken,
    g = ev :: taken /\ taken <> []
    /\ ev :: taken `sublist_of` Py.sorted timestamp events
    /\ Forall (fun o => overlaps_with ev o w = true) taken.
Proof. rewrite group_events_greedy. apply greedy_group. Qed.

(** X2. Every group that [correlate_events] returns has a seed, its first
    event, and at least one more event; every other member overlaps with
    the seed and is not earlier than it; the members are events of the
    input; [event_count] is their number; and the time span of the group
    lies between 0 and the window. *)
Theorem correlate_events_group_around_seed (uuid4 : nat -> string)
    (events : list CorrelatedEvent) (window_seconds : Z) (g : CorrelationGroup) :
  g ∈ correlate_events uuid4 events window_seconds ->
  exists seed others,
    Infer.events g = seed :: others
    /\ others <> []
    /\ event_count g = length (Infer.events g)
    /\ (forall o, o ∈ others ->
          overlaps_with seed o window_seconds = true
          /\ timestamp seed <= timestamp o)
    /\ (forall e, e ∈ Infer.events g -> e ∈ events)
    /\ (0 <= time_span_seconds g <= inject_Z window_seconds)%Q.
Proof.
  intros Hg. destruct (correlate_events_describe _ _ _ _ Hg) as (cid & group & -> & Hin).
  destruct (group_events_group _ _ _ Hin) as (ev & taken & -> & Hne & Hsub & Hall).
  pose proof (PyFacts.sorted_key_le timestamp events) as Hsorted.
  apply (ListFacts.StronglySorted_sublist _ _ _ Hsub) in Hsorted.
  apply StronglySorted_inv in Hsorted as [_ Hle].
  rewrite Forall_forall in Hall, Hle.
  assert (Hmem : forall o, o ∈ taken ->
            overlaps_with ev o window_seconds = true /\ timestamp ev <= timestamp o).
  { intros o Ho. split; [by apply Hall|by apply Hle]. }
  exists ev, taken. split; [done|]. split; [done|]. split; [done|]. split; [done|].
  split.
  - intros e He. rewrite <- (PyFacts.sorted_Permutation timestamp events).
    by eapply elem_of_sublist.
  - cbn [time_span_seconds describe_group head fmap option_fmap option_map default].
    destruct (last (ev :: taken)) as [final|] eqn:Hlast; [|by rewrite last_None in Hlast].
    assert (Hfinal : final ∈ taken).
    { destruct taken as [|o taken]; [done|]. rewrite last_cons_cons in Hlast.
      by apply last_Some_elem_of. }
    destruct (Hmem _ Hfinal) as [Hov Hge]. apply overlaps_with_iff in Hov as [Hd _].
    cbn [fmap option_fmap option_map default]. unfold Py.total_seconds, Qle. simpl. lia.
Qed.

Lemma wan_group_returned :
  describe_group "id" [path_loss; tunnel_flap]
  ∈ correlate_events (fun _ => "id") [path_loss; tunnel_flap] 300.
Proof.
  unfold correlate_events.
  assert (group_events [path_loss; tunnel_flap] 300 = [[path_loss; tunnel_flap]])
    as -> by by vm_compute.
  apply list_elem_of_here.
Qed.

(** The path loss and the tunnel flap, grouped around the path loss. *)
Lemma correlate_events_group_around_seed_witness :
  let g := describe_group "id" [path_loss; tunnel_flap] in
  g ∈ correlate_events (fun _ => "id") [path_loss; tunnel_flap] 300
  /\ exists seed others,
       Infer.events g = seed :: others
       /\ others <> []
       /\ event_count g = length (Infer.events g)
       /\ (forall o, o ∈ others ->
             overlaps_with seed o 300 = true /\ timestamp seed <= timestamp o)
       /\ (forall e, e ∈ Infer.events g -> e ∈ [path_loss; tunnel_flap])
       /\ (0 <= time_span_seconds g <= inject_Z 300)%Q.
Proof.
  split; [apply wan_group_returned|].
  apply (correlate_events_group_around_seed (fun _ => "id") [path_loss; tunnel_flap] 300
           (describe_group "id" [path_loss; tunnel_flap])).
  apply wan_group_returned.
Defined.

(** X3. No event is put in two groups: taken together, the events of the
    groups are events of the input, each at most as often as it occurs
    there. *)
Theorem correlate_events_groups_disjoint (uuid4 : nat -> string)
    (events : list CorrelatedEvent) (window_seconds : Z) :
  concat (Infer.events <$> correlate_events uuid4 events window_seconds) ⊆+ events.
Proof.
  destruct events as [|e events]; [done|].
  rewrite InferFacts.correlate_events_groups by done.
  rewrite group_events_greedy.
  rewrite <- (PyFacts.sorted_Permutation timestamp (e :: events)) at 3.
  apply greedy_submseteq.
Qed.

(** X4. The summary of a group: its severity is that of a most severe
    member, its platforms are those of its members, each listed once, and
    its affected entities are those of its members, each listed once. *)
Theorem correlate_events_group_summary (uuid4 : nat -> string)
    (events : list CorrelatedEvent) (window_seconds : Z) (g : CorrelationGroup) :
  g ∈ correlate_events uuid4 events window_seconds ->
  (exists e, e ∈ Infer.events g
             /\ g_severity g = severity_value (severity e)
             /\ forall e', e' ∈ Infer.events g ->
                  _severity_rank (severity_value (severity e'))
                  <= _severity_rank (severity_value (severity e)))
  /\ NoDup (platforms g)
  /\ (forall p, p ∈ platforms g <->
                exists e, e ∈ Infer.events g /\ p = platform_value (source_platform e))
  /\ NoDup (g_affected_entities g)
  /\ (forall x, x ∈ g_affected_entities g <->
                exists e, e ∈ Infer.events g /\ x ∈ affected_entities e).
Proof.
  intros Hg. destruct (correlate_events_describe _ _ _ _ Hg) as (cid & group & -> & Hin).
  destruct (group_events_group _ _ _ Hin) as (ev & taken & -> & _).
  cbn [Infer.events g_severity platforms g_affected_entities describe_group].
  split; [|split; [|split; [|split]]].
  - destruct (max_by_spec (fun e => _severity_rank (severity_value (severity e))) taken ev)
      as [Hmem Hmax].
    eexists. split; [exact Hmem|]. split; [done|]. exact Hmax.
  - apply NoDup_elements.
  - intros p. rewrite elem_of_elements, elem_of_list_to_set, list_elem_of_fmap.
    split; intros (e & H1 & H2); by exists e.
  - apply NoDup_elements.
  - intros x. rewrite elem_of_elements, elem_of_list_to_set, list_elem_of_bind.
    split; intros (e & H1 & H2); by exists e.
Qed.

Lemma correlated_event_has_entity uuid4 events w g e :
  g ∈ correlate_events uuid4 events w -> e ∈ Infer.events g ->
  affected_entities e <> [].
Proof.
  intros Hg He. destruct (correlate_events_describe _ _ _ _ Hg) as (cid & group & -> & Hin).
  destruct (group_events_group _ _ _ Hin) as (ev & taken & -> & Hne & _ & Hall).
  rewrite Forall_forall in Hall. cbn [Infer.events describe_group] in He.
  apply elem_of_cons in He as [->|He].
  - destruct taken as [|o taken]; [done|].
    specialize (Hall o (list_elem_of_here _ _)).
    apply overlaps_with_iff in Hall as (_ & x & Hx & _).
    intros Hnil. rewrite Hnil in Hx. by apply elem_of_nil in Hx.
  - specialize (Hall e He). apply overlaps_with_iff in Hall as (_ & x & _ & Hx).
    intros Hnil. rewrite Hnil in Hx. by apply elem_of_nil in Hx.
Qed.

(** The group of the path loss and the tunnel flap. *)
Lemma correlate_events_group_summary_witness :
  let g := describe_group "id" [path_loss; tunnel_flap] in
  g ∈ correlate_events (fun _ => "id") [path_loss; tunnel_flap] 300
  /\ (exists e, e ∈ Infer.events g
                /\ g_severity g = severity_value (severity e)
                /\ forall e', e' ∈ Infer.events g ->
                     _severity_rank (severity_value (severity e'))
                     <= _severity_rank (severity_value (severity e)))
  /\ NoDup (platforms g)
  /\ (forall p, p ∈ platforms g <->
                exists e, e ∈ Infer.events g /\ p = platform_value (source_platform e))
  /\ NoDup (g_affected_entities g)
  /\ (forall x, x ∈ g_affected_entities g <->
                exists e, e ∈ Infer.events g /\ x ∈ affected_entities e).
Proof.
  split; [apply wan_group_returned|].
  apply (correlate_events_group_summary (fun _ => "id") [path_loss; tunnel_flap] 300
           (describe_group "id" [path_loss; tunnel_flap])).
  apply wan_group_returned.
Defined.

End CorrelationFacts.

Module InferLifespanFacts.
Import Models Infer InferLifespan.

Lemma PlatformType_of_value p : PlatformType_of (platform_value p) = Some p.
Proof. by destruct p. Qed.

Lemma SeverityLevel_of_value s : SeverityLevel_of (severity_value s) = Some s.
Proof. by destruct s. Qed.

(** X5. A correlated event that passes validation is appended to the buffer,
    which never holds more than 10000 events afterwards: one more event
    on a buffer of 10000 or more leaves exactly the newest 5000.  The
    new event is always the last of the buffer; a payload that fails
    validation changes nothing. *)
Theorem on_correlated_event_bounded (validate : gmap string Value -> option CorrelatedEvent)
    (buffer : list CorrelatedEvent) (data : gmap string Value) :
  let buffer' := _on_correlated_event validate buffer data in
  (validate data = None -> buffer' = buffer)
  /\ (forall event, validate data = Some event ->
        last buffer' = Some event
        /\ buffer' `suffix_of` buffer ++ [event]
        /\ Z.of_nat (length buffer') <= 10000
        /\ (Z.of_nat (length buffer) < 10000 -> buffer' = buffer ++ [event])
        /\ (10000 <= Z.of_nat (length buffer) -> Z.of_nat (length buffer') = 5000)).
Proof.
  unfold _on_correlated_event. split; [by intros ->|]. intros event ->.
  destruct (Z.ltb_spec 10000 (Z.of_nat (length (buffer ++ [event])))) as [Hbig|Hsmall];
    rewrite length_app in *; cbn [length] in *.
  - split; [|split; [|split; [|split]]].
    + rewrite drop_app_le by lia. rewrite last_app. simpl. done.
    + apply suffix_drop.
    + rewrite length_drop, length_app. simpl. lia.
    + lia.
    + intros _. rewrite length_drop, length_app. simpl. lia.
  - split; [|split; [|split; [|split]]].
    + by rewrite last_snoc.
    + done.
    + simpl. lia.
    + done.
    + lia.
Qed.

Lemma security_alert_event_fields now fresh_id data e :
  security_alert_event now fresh_id data = Some e ->
  event_id e = fresh_id /\ timestamp e = now /\ affected_entities e = []
  /\ tags e = [] /\ correlation_group e = None.
Proof.
  unfold security_alert_event. intros He.
  destruct (get_str data "source" "xdr" ≫= PlatformType_of) as [source|]; [|done].
  destruct (get_str data "event_type" "security_alert") as [ty|]; [|done].
  destruct (get_str data "severity" "medium" ≫= SeverityLevel_of) as [sev|]; [|done].
  simpl in He. destruct (data !! "data") as [[]|]; by simplify_eq.
Qed.


(** X7. An event that [_on_security_alert] ingests carries no affected
    entity, so [correlate_events] never puts it in a group, whatever else
    the buffer holds. *)
Theorem security_alert_never_correlated (uuid4 : nat -> string) (now : Z)
    (fresh_id : string) (data : gmap string Value) (alert : CorrelatedEvent)
    (events : list CorrelatedEvent) (window_seconds : Z) (g : CorrelationGroup) :
  security_alert_event now fresh_id data = Some alert ->
  g ∈ correlate_events uuid4 events window_seconds ->
  alert ∉ Infer.events g.
Proof.
  intros Halert Hg Hin.
  destruct (security_alert_event_fields _ _ _ _ Halert) as (_ & _ & Hnone & _).
  by apply (CorrelationFacts.correlated_event_has_entity _ _ _ _ _ Hg Hin).
Qed.

(** The alert [{"severity": "high"}] and the group of the path loss and the
    tunnel flap. *)
Lemma security_alert_never_correlated_witness :
  let alert := {| event_id := "s1"; source_platform := XDR;
                  event_type := "security_alert"; severity := HIGH; timestamp := 0;
                  affected_entities := []; tags := []; correlation_group := None |} in
  let g := describe_group "id" [path_loss; tunnel_flap] in
  security_alert_event 0 "s1" {[ "severity" := VStr "high" ]} = Some alert
  /\ g ∈ correlate_events (fun _ => "id") [path_loss; tunnel_flap] 300
  /\ alert ∉ Infer.events g.
Proof.
  split; [reflexivity|]. split; [apply CorrelationFacts.wan_group_returned|].
  apply (security_alert_never_correlated (fun _ => "id") 0 "s1"
           {[ "severity" := VStr "high" ]} _ [path_loss; tunnel_flap] 300).
  - reflexivity.
  - apply CorrelationFacts.wan_group_returned.
Defined.

(** *** The subscriptions *)

Lemma handlers_of_subscribe bus channel handler ch :
  handlers_of (RedisBus.subscribe bus channel handler) ch
  = if decide (channel = ch) then handlers_of bus ch ++ [handler]
    else handlers_of bus ch.
Proof.
  unfold handlers_of, RedisBus.subscribe. cbn [RedisBus._handlers].
  rewrite lookup_insert. by destruct (decide (channel = ch)) as [->|].
Qed.

Lemma handlers_of_subscriptions (l : list (string * Handler)) ch : forall bus,
  handlers_of (foldl (fun bus '(channel, handler) => RedisBus.subscribe bus channel handler)
                     bus l) ch
  = handlers_of bus ch ++ (filter (fun p => p.1 = ch) l).*2.
Proof.
  induction l as [|[c h] l IH]; intros bus; cbn [foldl].
  - by rewrite app_nil_r.
  - rewrite IH, handlers_of_subscribe, filter_cons. cbn [fst].
    destruct (decide (c = ch)); [|done]. by rewrite fmap_cons, <- app_assoc.
Qed.

(** X8. On the bus of the INFER server, a message on the channel of
    [publish_alert] is delivered to [_on_security_alert], a message on the
    channel of [publish_event] or on the telemetry channel of any of the
    platforms to [_on_correlated_event], and a message on any other
    channel, the one of [request_approval] among them, to no handler;
    what is not a message is delivered to no handler. *)
Theorem infer_bus_delivery {D} (loads : string -> option D) (raw : string -> D)
    (msg : RedisBus.Message) :
  let called :=
    (fun call => call.1.1)
      <$> RedisBus.deliver (subscribe_all RedisBus.init) loads raw msg in
  (RedisBus.m_type msg <> "message" -> called = [])
  /\ (RedisBus.m_type msg = "message" ->
        (RedisBus.m_channel msg = RedisBus.alert_channel -> called = [OnSecurityAlert])
        /\ (RedisBus.m_channel msg = RedisBus.event_channel ->
             called = [OnCorrelatedEvent])
        /\ (forall p : PlatformType,
               RedisBus.m_channel msg = RedisBus.telemetry_channel (platform_value p) ->
               called = [OnCorrelatedEvent])
        /\ (RedisBus.m_channel msg = RedisBus.approval_channel -> called = [])
        /\ (called <> [] -> RedisBus.m_channel msg ∈ subscriptions.*1)).
Proof.
  intros called. subst called. unfold RedisBus.deliver.
  assert (Hcalled : forall ch (data : D),
            (fun call : Handler * string * D => call.1.1)
              <$> ((fun handler => (handler, ch, data))
                     <$> default [] (RedisBus._handlers (subscribe_all RedisBus.init) !! ch))
            = handlers_of (subscribe_all RedisBus.init) ch).
  { intros ch data. rewrite <- list_fmap_compose. unfold handlers_of.
    rewrite <- (list_fmap_id (default [] _)) at 2. by apply list_fmap_ext. }
  split.
  - intros Hty. apply String.eqb_neq in Hty. by rewrite Hty.
  - intros Hty. rewrite Hty, String.eqb_refl. cbn [negb].
    rewrite Hcalled. split; [|split; [|split; [|split]]].
    + by intros ->.
    + by intros ->.
    + intros p ->. by destruct p.
    + by intros ->.
    + unfold subscribe_all. rewrite handlers_of_subscriptions.
      unfold handlers_of at 1. cbn [RedisBus._handlers RedisBus.init].
      rewrite lookup_empty. cbn [default app]. intros Hne.
      destruct (filter (fun p => p.1 = RedisBus.m_channel msg) subscriptions)
        as [|[c h] rest] eqn:Hf; [done|].
      assert (Hin : (c, h) ∈ filter (fun p => p.1 = RedisBus.m_channel msg) subscriptions)
        by (rewrite Hf; apply list_elem_of_here).
      apply list_elem_of_filter in Hin as [Hc Hin]. cbn [fst] in Hc. subst c.
      apply list_elem_of_fmap. by exists (RedisBus.m_channel msg, h).
Qed.

End InferLifespanFacts.

Module ForecastFacts.
Import Models Infer Forecast.

Lemma count_up_fst k (c : list (string * nat)) :
  (count_up k c).*1 = if decide (k ∈ c.*1) then c.*1 else c.*1 ++ [k].
Proof.
  induction c as [|[k' n] c IH]; cbn [count_up].
  - done.
  - destruct (String.eqb_spec k' k) as [->|Hne]; rewrite !fmap_cons; cbn [fst].
    + rewrite decide_True; [done|]. apply list_elem_of_here.
    + rewrite IH. destruct (decide (k ∈ c.*1)) as [Hin|Hnin].
      * rewrite decide_True; [done|]. by apply list_elem_of_further.
      * rewrite decide_False; [done|]. rewrite not_elem_of_cons. by split.
Qed.

Lemma count_up_NoDup k (c : list (string * nat)) :
  NoDup c.*1 -> NoDup (count_up k c).*1.
Proof.
  intros Hnd. rewrite count_up_fst. destruct (decide (k ∈ c.*1)); [done|].
  apply NoDup_app. split; [done|]. split; [|apply NoDup_singleton].
  intros x Hx Hk. apply list_elem_of_singleton in Hk. by subst.
Qed.

Lemma count_up_lookup k (c : list (string * nat)) k' :
  (list_to_map (count_up k c) : gmap string nat) !! k'
  = if decide (k = k')
    then Some (S (default 0%nat ((list_to_map c : gmap string nat) !! k)))
    else (list_to_map c : gmap string nat) !! k'.
Proof.
  induction c as [|[k0 n] c IH]; simpl.
  - rewrite lookup_insert, lookup_empty. by destruct (decide (k = k')).
  - destruct (String.eqb_spec k0 k) as [->|Hne]; simpl.
    + rewrite !lookup_insert. destruct (decide (k = k')) as [<-|Hkk']; simpl.
      * by rewrite decide_True.
      * done.
    + rewrite !lookup_insert. destruct (decide (k0 = k')) as [<-|Hk0].
      * by rewrite decide_False by congruence.
      * rewrite IH. destruct (decide (k = k')) as [<-|Hkk']; [|done].
        by rewrite decide_False by done.
Qed.

Lemma rank_high s :
  4 <= _severity_rank (severity_value s) <-> s = HIGH \/ s = CRITICAL.
Proof. destruct s; vm_compute; intuition congruence. Qed.

Lemma rank_medium s :
  3 <= _severity_rank (severity_value s) <-> s <> LOW /\ s <> INFO.
Proof. destruct s; vm_compute; intuition congruence. Qed.

(** A count, or [None] when it is zero. *)
Lemma platform_counts_snoc events e :
  platform_counts (events ++ [e])
  = if 4 <=? _severity_rank (severity_value (severity e))
    then count_up (platform_value (source_platform e)) (platform_counts events)
    else platform_counts events.
Proof. unfold platform_counts. by rewrite foldl_app. Qed.

Lemma platform_counts_spec events :
  NoDup (platform_counts events).*1
  /\ forall p n,
       (list_to_map (platform_counts events) : gmap string nat) !! platform_value p
         = Some n
       <-> n = length (high_events p events) /\ (0 < n)%nat.
Proof.
  induction events as [|e events [IHnd IH]] using rev_ind.
  - split; [constructor|]. intros p n. cbn. rewrite lookup_empty. split; [done|lia].
  - rewrite platform_counts_snoc. unfold high_events. 
    destruct (Z.leb_spec 4 (_severity_rank (severity_value (severity e)))) as [Hhigh|Hlow].
    + apply rank_high in Hhigh. split; [by apply count_up_NoDup|].
      intros p n. rewrite count_up_lookup, filter_app, length_app, filter_cons.
      destruct (decide (platform_value (source_platform e) = platform_value p))
        as [Heq|Hne].
      * apply InferFacts.platform_value_inj in Heq.
        rewrite decide_True by done. rewrite Heq, filter_nil. cbn [length].
        destruct (list_to_map (platform_counts events) !! platform_value p)
          as [m|] eqn:Hm; simpl.
        -- apply IH in Hm as [-> _]. unfold high_events.
           split; [intros [= <-]; lia|intros [-> _]; f_equal; lia].
        -- assert (Hzero : length (high_events p events) = 0%nat).
           { destruct (length (high_events p events)) as [|k] eqn:Hk; [done|].
             assert (Hsome : list_to_map (platform_counts events) !! platform_value p
                             = Some (S k)) by (apply IH; lia).
             congruence. }
           unfold high_events in Hzero. rewrite Hzero.
           split; [intros [= <-]; lia|intros [-> _]; f_equal].
      * rewrite decide_False by (intros [? _]; congruence).
        rewrite filter_nil. cbn [length]. rewrite Nat.add_0_r. apply IH.
    + split; [done|]. intros p n.
      rewrite filter_app, length_app, filter_cons.
      rewrite decide_False.
      * rewrite filter_nil. cbn [length]. rewrite Nat.add_0_r. apply IH.
      * intros [_ Hs]. apply rank_high in Hs. lia.
Qed.

Lemma platform_counts_keys events k :
  k ∈ (platform_counts events).*1 ->
  exists p : PlatformType, k = platform_value p.
Proof.
  induction events as [|e events IH] using rev_ind; [by intros ?%elem_of_nil|].
  rewrite platform_counts_snoc.
  destruct (4 <=? _severity_rank (severity_value (severity e))); [|done].
  rewrite count_up_fst. destruct (decide (_ ∈ _)); [done|].
  intros [Hk|Hk]%elem_of_app; [by apply IH|].
  apply list_elem_of_singleton in Hk. by eexists.
Qed.

Lemma cascades_fold (uuid4 : nat -> string) (counts : list (string * nat)) : forall acc,
  anonymous
    <$> foldl (fun predictions '(platform, count) =>
                 if (3 <=? count)%nat
                 then predictions
                      ++ [cascading_failure (uuid4 (length predictions)) platform count]
                 else predictions)
              acc counts
  = (anonymous <$> acc)
    ++ ((fun kn => cascading_failure "" kn.1 kn.2)
          <$> filter (fun kn => (3 <= kn.2)%nat) counts).
Proof.
  induction counts as [|[k n] counts IH]; intros acc; cbn [foldl].
  - by rewrite app_nil_r.
  - rewrite IH, filter_cons. cbn [snd].
    destruct (Nat.leb_spec 3 n) as [Hge|Hlt].
    + rewrite decide_True by done. by rewrite fmap_app, <- app_assoc.
    + rewrite decide_False by lia. done.
Qed.



#[local] Instance platform_value_Inj : Inj (=) (=) platform_value.
Proof. intros p q. apply InferFacts.platform_value_inj. Qed.

Lemma current_platforms_size events :
  size (list_to_set ((fun e => platform_value (source_platform e)) <$> events)
        : gset string)
  = length (distinct_platforms events).
Proof.
  rewrite ListFacts.size_remove_dups. unfold distinct_platforms.
  rewrite <- (ListFacts.remove_dups_inj_length platform_value). f_equal. f_equal.
  by rewrite <- list_fmap_compose.
Qed.

Lemma cascade_confidence (n : nat) :
  (3 <= n)%nat ->
  (Qmin (90 # 100) ((6 # 10) + inject_Z (Z.of_nat n) * (1 # 10)) == 9 # 10)%Q.
Proof.
  intros Hn. rewrite Q.min_l.
  - reflexivity.
  - unfold Qle, Qplus, Qmult, inject_Z. simpl. lia.
Qed.

(** X9. What [predict_failures] predicts.  A cascading failure is predicted
    for a platform exactly when at least three of the events of that
    platform are of severity high or critical; its risk level is high and
    its confidence is 0.90.  A complex incident is predicted exactly when
    the events come from at least three platforms and one of them is of
    severity medium or more; its confidence is 0.70 and its risk level is
    critical from four platforms on.  There is no other prediction, and none
    at all when every event is of severity low or info. *)
Theorem predict_failures_patterns (uuid4 : nat -> string)
    (events : list CorrelatedEvent) (history : list Incident) :
  let predictions := predict_failures uuid4 events history in
  let platforms := length (distinct_platforms events) in
  (forall p : PlatformType,
      (3 <= length (high_events p events))%nat <->
      exists P, P ∈ predictions /\ p_type P = "cascading_failure"
                /\ p_affected_platforms P = [platform_value p])
  /\ ((3 <= platforms)%nat
       /\ (exists e, e ∈ events /\ severity e <> LOW /\ severity e <> INFO)
       <-> exists P, P ∈ predictions /\ p_type P = "complex_incident")
  /\ (forall P, P ∈ predictions ->
        (p_type P = "cascading_failure" /\ risk_level P = "high"
         /\ (p_confidence P == 9 # 10)%Q /\ time_horizon_minutes P = 30
         /\ exists p : PlatformType, p_affected_platforms P = [platform_value p])
        \/ (p_type P = "complex_incident"
            /\ risk_level P = (if decide (4 <= platforms)%nat then "critical" else "high")
            /\ p_confidence P = 70 # 100 /\ time_horizon_minutes P = 15))
  /\ ((forall e, e ∈ events -> severity e = LOW \/ severity e = INFO) ->
      predictions = []).
Proof.
  intros predictions platforms. subst predictions platforms.
  rewrite <- current_platforms_size. unfold predict_failures.
  change (foldl _ [] events) with (platform_counts events).
  set (n := size (list_to_set ((fun e => platform_value (source_platform e)) <$> events)
                  : gset string)).
  set (cascades :=
         foldl (fun predictions '(platform, count) =>
                  if (3 <=? count)%nat
                  then predictions
                       ++ [cascading_failure (uuid4 (length predictions)) platform count]
                  else predictions)
               [] (platform_counts events)).
  change (foldl _ [] (platform_counts events)) with cascades.
  destruct (platform_counts_spec events) as [Hnd Hspec].
  assert (Hfold : anonymous <$> cascades
                  = (fun kn => cascading_failure "" kn.1 kn.2)
                      <$> filter (fun kn => (3 <= kn.2)%nat) (platform_counts events))
    by apply (cascades_fold uuid4 (platform_counts events) []).
  assert (Hcasc : forall P, P ∈ cascades ->
            exists k m, (k, m) ∈ platform_counts events /\ (3 <= m)%nat
                        /\ anonymous P = cascading_failure "" k m).
  { intros P HP. apply (list_elem_of_fmap_2 anonymous) in HP. rewrite Hfold in HP.
    apply list_elem_of_fmap in HP as ([k m] & HP & Hin).
    apply list_elem_of_filter in Hin as [Hm Hin]. by exists k, m. }
  assert (Hcasc' : forall k m, (k, m) ∈ platform_counts events -> (3 <= m)%nat ->
            exists P, P ∈ cascades /\ anonymous P = cascading_failure "" k m).
  { intros k m Hin Hm.
    assert (HP : cascading_failure "" k m ∈ anonymous <$> cascades).
    { rewrite Hfold. apply list_elem_of_fmap. exists (k, m). split; [done|].
      by apply list_elem_of_filter. }
    apply list_elem_of_fmap in HP as (P & HP & Hin'). by exists P. }
  assert (Hcond : (3 <=? n)%nat
                  && existsb (fun s => 3 <=? _severity_rank s)
                             ((fun e => severity_value (severity e)) <$> events) = true
                  <-> (3 <= n)%nat
                      /\ exists e, e ∈ events /\ severity e <> LOW /\ severity e <> INFO).
  { rewrite andb_true_iff, Nat.leb_le, existsb_exists. split; intros [Hn Hex]; (split; [done|]).
    - destruct Hex as (sv & Hin & Hrank). apply list_elem_of_In in Hin.
      apply list_elem_of_fmap in Hin as (e & -> & Hin). exists e. split; [done|].
      apply rank_medium. by apply Z.leb_le.
    - destruct Hex as (e & Hin & Hsev). exists (severity_value (severity e)). split.
      + apply list_elem_of_In, list_elem_of_fmap. by exists e.
      + apply Z.leb_le. by apply rank_medium. }
  set (complex :=
         {| prediction_id := uuid4 (length cascades);
            p_type := "complex_incident";
            risk_level := if (4 <=? n)%nat then "critical" else "high";
            p_confidence := 70 # 100;
            p_affected_platforms :=
              elements (list_to_set ((fun e => platform_value (source_platform e))
                                       <$> events) : gset string);
            time_horizon_minutes := 15 |}).
  assert (Hcasc_type : forall P, P ∈ cascades -> p_type P = "cascading_failure").
  { intros P HP. destruct (Hcasc P HP) as (k & m & _ & _ & HeqP).
    by apply (f_equal p_type) in HeqP. }
  split; [|split; [|split]].
  - (* cascading failures *)
    intros p. split.
    + intros Hhigh.
      assert (Hlook : list_to_map (platform_counts events) !! platform_value p
                      = Some (length (high_events p events))) by (apply Hspec; lia).
      apply elem_of_list_to_map in Hlook; [|done].
      destruct (Hcasc' _ _ Hlook Hhigh) as (P & HP & HeqP). exists P.
      split; [|split].
      * destruct (_ && _); [apply elem_of_app; by left|done].
      * by apply (f_equal p_type) in HeqP.
      * by apply (f_equal p_affected_platforms) in HeqP.
    + intros (P & HP & Hty & Hpl).
      assert (HP' : P ∈ cascades).
      { destruct (_ && _); [|done]. apply elem_of_app in HP as [HP|HP]; [done|].
        apply list_elem_of_singleton in HP. subst P. discriminate. }
      destruct (Hcasc P HP') as (k & m & Hin & Hm & HeqP).
      apply (f_equal p_affected_platforms) in HeqP. cbn in HeqP.
      rewrite Hpl in HeqP. injection HeqP as <-.
      apply elem_of_list_to_map in Hin; [|done]. apply Hspec in Hin as [-> _]. done.
  - (* the complex incident *)
    rewrite <- Hcond. split.
    + intros ->. exists complex. split; [|done].
      apply elem_of_app. right. by apply list_elem_of_singleton.
    + intros (P & HP & Hty). destruct (_ && _); [done|].
      apply Hcasc_type in HP. congruence.
  - (* nothing else *)
    intros P HP.
    assert (HP' : P ∈ cascades \/ P = complex).
    { destruct (_ && _); [|by left]. apply elem_of_app in HP as [HP|HP]; [by left|].
      right. by apply list_elem_of_singleton in HP. }
    destruct HP' as [HP'| ->].
    + left. destruct (Hcasc P HP') as (k & m & Hin & Hm & HeqP).
      split; [by apply (f_equal p_type) in HeqP|].
      split; [by apply (f_equal risk_level) in HeqP|].
      split; [|split].
      * apply (f_equal p_confidence) in HeqP. cbn in HeqP. rewrite HeqP.
        by apply cascade_confidence.
      * by apply (f_equal time_horizon_minutes) in HeqP.
      * destruct (platform_counts_keys events k) as [p ->].
        { apply list_elem_of_fmap. by exists (k, m). }
        exists p. by apply (f_equal p_affected_platforms) in HeqP.
    + right. split; [done|]. split; [|done]. cbn [risk_level complex].
      destruct (Nat.leb_spec 4 n); [by rewrite decide_True|by rewrite decide_False by lia].
  - (* low and info only *)
    intros Hlow.
    assert (Hnone : platform_counts events = []).
    { clear -Hlow. induction events as [|e events IH] using rev_ind; [done|].
      rewrite platform_counts_snoc.
      rewrite IH by (intros e' He'; apply Hlow, elem_of_app; by left).
      destruct (Z.leb_spec 4 (_severity_rank (severity_value (severity e)))) as [Hh|]; [|done].
      apply rank_high in Hh.
      destruct (Hlow e) as [Hl|Hl]; [|destruct Hh; congruence..].
      apply elem_of_app. right. by apply list_elem_of_singleton. }
    assert (Hno : (3 <=? n)%nat
                  && existsb (fun s => 3 <=? _severity_rank s)
                             ((fun e => severity_value (severity e)) <$> events) = false).
    { apply not_true_is_false. rewrite Hcond. intros (_ & e & Hin & Hl & Hi).
      destruct (Hlow e Hin); congruence. }
    rewrite Hno. subst cascades. by rewrite Hnone.
Qed.

End ForecastFacts.

Module InferToolsFacts.
Import Models Infer InferTools.

Lemma detect_anomalies_tool_appends uuid4 sensitivity now buffer log
    lookback_minutes min_confidence :
  exists more,
    (detect_anomalies_tool uuid4 sensitivity now buffer log lookback_minutes
                           min_confidence).2 = log ++ more.
Proof.
  unfold detect_anomalies_tool. destruct (filter _ _) as [|a l].
  - exists []. by rewrite app_nil_r.
  - by exists (a :: l).
Qed.

(** X12. The anomaly log has no expiry: after a detection run, at any later
    time and whatever the buffer holds then, the anomaly component of the
    risk score and the score itself are at least what the log before the
    run gives; the other two components do not depend on the log. *)
Theorem risk_score_keeps_logged_anomalies (uuid4 : nat -> string) (sensitivity : Q)
    (now : Z) (buffer : list CorrelatedEvent) (log : list Anomaly)
    (lookback_minutes : Z) (min_confidence : Q)
    (later : Z) (buffer' : list CorrelatedEvent) (history : list Incident)
    (include_predictions include_anomalies : bool) :
  let log' :=
    (detect_anomalies_tool uuid4 sensitivity now buffer log lookback_minutes
                           min_confidence).2 in
  let before := network_risk_score uuid4 later buffer' log history
                                   include_predictions include_anomalies in
  let after := network_risk_score uuid4 later buffer' log' history
                                  include_predictions include_anomalies in
  log `prefix_of` log'
  /\ anomaly_score before <= anomaly_score after
  /\ event_score after = event_score before
  /\ prediction_score after = prediction_score before
  /\ total before <= total after.
Proof.
  intros log' before after.
  destruct (detect_anomalies_tool_appends uuid4 sensitivity now buffer log
              lookback_minutes min_confidence) as [more Hmore].
  fold log' in Hmore.
  assert (Hscore : anomaly_score before <= anomaly_score after).
  { subst before after. cbn [anomaly_score network_risk_score].
    destruct include_anomalies; [|done]. rewrite Hmore, filter_app, length_app. lia. }
  split; [by exists more|]. split; [done|]. split; [done|]. split; [done|].
  subst before after. cbn [total network_risk_score] in *.
  cbn [anomaly_score network_risk_score] in Hscore. lia.
Qed.

(** *** The root-cause matcher *)


Lemma template_matches_iff t g :
  template_matches t g = true <->
  forall signal, signal ∈ t_signal_pattern t ->
    s_platform signal ∈ gd_platforms g
    /\ exists event, event ∈ gd_events g /\ event_meets signal event = true.
Proof.
  unfold template_matches. rewrite andb_true_iff, !forallb_forall. split.
  - intros [Hplat Hev] signal Hin. apply list_elem_of_In in Hin. split.
    + specialize (Hplat _ Hin). by apply bool_decide_eq_true in Hplat.
    + specialize (Hev _ Hin). apply existsb_exists in Hev as (event & He & Hmeets).
      exists event. split; [by apply list_elem_of_In|done].
  - intros Hall. split; intros signal Hin; apply list_elem_of_In in Hin;
      destruct (Hall signal Hin) as [Hplat (event & He & Hmeets)].
    + by apply bool_decide_eq_true.
    + apply existsb_exists. exists event. split; [by apply list_elem_of_In|done].
Qed.

(** X13. What a diagnosis of [match_root_cause] rests on: it is built from a
    template of the catalog other than [rca-dns-cascade]; every signal of
    that template names a platform of the group and is met by an event of
    the group, of that platform and of at least the signal's severity; and
    its confidence is 0.95, or 0.90 for the one-signal template
    [rca-cert-expiry-cascade]. *)
Theorem match_root_cause_diagnosis_rests_on_events (g : GroupDict) (r : RootCause) :
  match_root_cause g = Some r ->
  exists t,
    t ∈ ROOT_CAUSE_TEMPLATES /\ r = diagnosis t
    /\ template_id r <> "rca-dns-cascade"
    /\ (forall signal, signal ∈ t_signal_pattern t ->
          s_platform signal ∈ gd_platforms g
          /\ exists event,
               event ∈ gd_events g
               /\ event !! "source_platform" = Some (s_platform signal)
               /\ _severity_rank (s_min_severity signal)
                  <= _severity_rank (default "info" (event !! "severity")))
    /\ ((matched_signals r = 2%nat /\ (rc_confidence r == 95 # 100)%Q)
        \/ (template_id r = "rca-cert-expiry-cascade" /\ matched_signals r = 1%nat
            /\ (rc_confidence r == 90 # 100)%Q)).
Proof.
  intros Hr. pose proof (InferFacts.dns_cascade_unreachable g r Hr) as Hdns.
  rewrite InferFacts.match_root_cause_first in Hr.
  destruct (head _) as [t|] eqn:Hhead; [|done]. injection Hr as <-.
  apply ListFacts.head_filter_Some in Hhead as [Hin Hmatch].
  exists t. split; [done|]. split; [done|]. split; [done|]. split.
  - intros signal Hsig. pose proof (proj1 (template_matches_iff t g) Hmatch) as Hm.
    destruct (Hm signal Hsig) as [Hplat (event & He & Hmeets)].
    split; [done|]. exists event. split; [done|].
    unfold event_meets in Hmeets. apply andb_true_iff in Hmeets as [Hp Hs].
    apply bool_decide_eq_true in Hp. by apply Z.leb_le in Hs.
  - unfold ROOT_CAUSE_TEMPLATES in Hin.
    repeat (apply elem_of_cons in Hin as [->|Hin]; [by (left + right)|]).
    by apply elem_of_nil in Hin.
Qed.

(** The path loss and the tunnel flap. *)
Lemma match_root_cause_diagnosis_rests_on_events_witness :
  let g := {| gd_platforms := ["thousandeyes"; "meraki"];
              gd_events := [
                {[ "source_platform" := "thousandeyes"; "event_type" := "path_loss";
                   "severity" := "medium" ]};
                {[ "source_platform" := "meraki"; "event_type" := "vpn_tunnel_flap";
                   "severity" := "low" ]} ] |} in
  let r := diagnosis (default (Build_Template "" "" "" [] "" "" [])
                              (head ROOT_CAUSE_TEMPLATES)) in
  match_root_cause g = Some r
  /\ exists t,
       t ∈ ROOT_CAUSE_TEMPLATES /\ r = diagnosis t
       /\ template_id r <> "rca-dns-cascade"
       /\ (forall signal, signal ∈ t_signal_pattern t ->
             s_platform signal ∈ gd_platforms g
             /\ exists event,
                  event ∈ gd_events g
                  /\ event !! "source_platform" = Some (s_platform signal)
                  /\ _severity_rank (s_min_severity signal)
                     <= _severity_rank (default "info" (event !! "severity")))
       /\ ((matched_signals r = 2%nat /\ (rc_confidence r == 95 # 100)%Q)
           \/ (template_id r = "rca-cert-expiry-cascade" /\ matched_signals r = 1%nat
               /\ (rc_confidence r == 90 # 100)%Q)).
Proof.
  split; [by vm_compute|].
  apply (match_root_cause_diagnosis_rests_on_events
           {| gd_platforms := ["thousandeyes"; "meraki"];
              gd_events := [
                {[ "source_platform" := "thousandeyes"; "event_type" := "path_loss";
                   "severity" := "medium" ]};
                {[ "source_platform" := "meraki"; "event_type" := "vpn_tunnel_flap";
                   "severity" := "low" ]} ] |}).
  by vm_compute.
Defined.

Lemma template_pattern_nonempty t :
  t ∈ ROOT_CAUSE_TEMPLATES -> t_signal_pattern t <> [].
Proof.
  unfold ROOT_CAUSE_TEMPLATES. intros Hin.
  repeat (apply elem_of_cons in Hin as [->|Hin]; [done|]).
  by apply elem_of_nil in Hin.
Qed.

Lemma match_root_cause_None g :
  (forall t, t ∈ ROOT_CAUSE_TEMPLATES -> template_matches t g <> true) ->
  match_root_cause g = None.
Proof.
  intros Hnone. rewrite InferFacts.match_root_cause_first.
  rewrite (ListFacts.filter_none _ ROOT_CAUSE_TEMPLATES); [done|]. by apply Forall_forall.
Qed.

(** X14. Evidence and diagnosis.  A group without platforms or without events
    gets no diagnosis.  A group that gets one still gets one when
    platforms and events are added to it (possibly from a template earlier
    in the catalog). *)
Theorem match_root_cause_evidence (g : GroupDict) :
  (gd_platforms g = [] -> match_root_cause g = None)
  /\ (gd_events g = [] -> match_root_cause g = None)
  /\ (forall g',
        gd_platforms g ⊆ gd_platforms g' -> gd_events g ⊆ gd_events g' ->
        is_Some (match_root_cause g) -> is_Some (match_root_cause g')).
Proof.
  split; [|split].
  - intros Hnone. apply match_root_cause_None. intros t Hin Hmatch.
    pose proof (proj1 (template_matches_iff t g) Hmatch) as Hm.
    pose proof (template_pattern_nonempty t Hin) as Hne.
    destruct (t_signal_pattern t) as [|signal pattern]; [done|].
    destruct (Hm signal (list_elem_of_here _ _)) as [Hplat _].
    rewrite Hnone in Hplat. by apply elem_of_nil in Hplat.
  - intros Hnone. apply match_root_cause_None. intros t Hin Hmatch.
    pose proof (proj1 (template_matches_iff t g) Hmatch) as Hm.
    pose proof (template_pattern_nonempty t Hin) as Hne.
    destruct (t_signal_pattern t) as [|signal pattern]; [done|].
    destruct (Hm signal (list_elem_of_here _ _)) as [_ (event & He & _)].
    rewrite Hnone in He. by apply elem_of_nil in He.
  - intros g' Hplat Hev [r Hr]. rewrite InferFacts.match_root_cause_first in *.
    destruct (head (filter (fun t => template_matches t g = true) ROOT_CAUSE_TEMPLATES))
      as [t|] eqn:Hhead; [|done].
    apply ListFacts.head_filter_Some in Hhead as [Hin Hmatch].
    assert (Hmatch' : template_matches t g' = true).
    { apply template_matches_iff. intros signal Hsig.
      pose proof (proj1 (template_matches_iff t g) Hmatch) as Hm.
      destruct (Hm signal Hsig) as [Hp (event & He & Hmeets)].
      split; [by apply Hplat|]. exists event. split; [by apply Hev|done]. }
    destruct (filter (fun t => template_matches t g' = true) ROOT_CAUSE_TEMPLATES)
      as [|t' l] eqn:Hf; [|by eexists].
    assert (Ht : t ∈ filter (fun t => template_matches t g' = true) ROOT_CAUSE_TEMPLATES)
      by by apply list_elem_of_filter.
    rewrite Hf in Ht. by apply elem_of_nil in Ht.
Qed.

End InferToolsFacts.

Module InferFloatFacts.
Import Models PyFloat InferFloat.

Section Detector.

Variable A : Arithmetic.
Variable uuid4 : nat -> string.
Variable sensitivity : num A.

Lemma float_intervals_length (l : list Z) :
  length (intervals A l) = (length l - 1)%nat.
Proof.
  induction l as [|a [|b l] IH]; simpl in *; [done..|]. rewrite IH. lia.
Qed.

Lemma inspect_bucket_passes anomalies bucket :
  inspect_bucket A uuid4 sensitivity anomalies bucket
  = anomalies
    ++ option_list (bucket_anomaly A sensitivity (uuid4 (length anomalies)) bucket).
Proof.
  destruct bucket as [key ts]. unfold inspect_bucket, bucket_anomaly, passes.
  cbn [fst snd].
  destruct (Nat.ltb_spec (length ts) 3) as [Hlt|Hlen].
  { apply Nat.leb_gt in Hlt. rewrite Hlt. by rewrite app_nil_r. }
  apply Nat.leb_le in Hlen as Hlen'. rewrite Hlen'. cbn [andb].
  destruct (intervals A (Py.sorted (fun t => t) ts)) as [|x xs] eqn:Hxs.
  { apply (f_equal length) in Hxs.
    rewrite float_intervals_length, InferFacts.sorted_timestamps_length in Hxs.
    simpl in Hxs. lia. }
  destruct (feq A _ _); cbn [negb andb]; [by rewrite app_nil_r|].
  destruct (frequency_spike _ _ _ _); [|by rewrite app_nil_r].
  destruct (Py.split_colon key) as [[platform event_type]|]; simpl;
    [done|by rewrite app_nil_r].
Qed.

Lemma float_bucket_anomaly_split id key ts a :
  bucket_anomaly A sensitivity id (key, ts) = Some a ->
  Py.split_colon key = Some (a_platform a, a_event_type a).
Proof.
  unfold bucket_anomaly. simpl. destruct (passes A ts); [|done].
  destruct (Py.split_colon key) as [[platform event_type]|]; [|done].
  by intros [= <-].
Qed.

Lemma float_reported_for_bucket p ty id key ts :
  reported_for p ty (option_list (bucket_anomaly A sensitivity id (key, ts)))
  = if decide (key = platform_value p +:+ ":" +:+ ty)
    then option_list (bucket_anomaly A sensitivity id (key, ts)) else [].
Proof.
  unfold reported_for.
  destruct (bucket_anomaly A sensitivity id (key, ts)) as [a|] eqn:Ha; simpl;
    [|by destruct (decide _)].
  apply float_bucket_anomaly_split in Ha. rewrite filter_cons, filter_nil.
  destruct (decide (key = platform_value p +:+ ":" +:+ ty)) as [->|Hne].
  - rewrite InferFacts.split_colon_key in Ha. injection Ha as <- <-.
    by rewrite decide_True.
  - rewrite decide_False; [done|]. intros [Hp Hty]. apply Hne.
    apply PyFacts.split_colon_join in Ha. by rewrite Ha, Hp, Hty.
Qed.

Lemma float_reported_for_other_buckets p ty buckets : forall anomalies,
  platform_value p +:+ ":" +:+ ty ∉ buckets.*1 ->
  reported_for p ty (foldl (inspect_bucket A uuid4 sensitivity) anomalies buckets)
  = reported_for p ty anomalies.
Proof.
  induction buckets as [|[key ts] buckets IH]; intros anomalies Hnin; cbn [foldl];
    [done|].
  rewrite fmap_cons in Hnin. apply not_elem_of_cons in Hnin as [Hne Hnin].
  rewrite IH by done.
  rewrite inspect_bucket_passes. unfold reported_for at 1. rewrite filter_app.
  fold (reported_for p ty anomalies).
  fold (reported_for p ty
          (option_list (bucket_anomaly A sensitivity (uuid4 (length anomalies)) (key, ts)))).
  rewrite float_reported_for_bucket.
  rewrite decide_False by done. apply app_nil_r.
Qed.

Lemma float_reported_for_buckets p ty buckets ts : forall anomalies,
  NoDup buckets.*1 ->
  (list_to_map buckets : gmap string (list Z)) !! (platform_value p +:+ ":" +:+ ty)
  = Some ts ->
  exists id,
    reported_for p ty (foldl (inspect_bucket A uuid4 sensitivity) anomalies buckets)
    = reported_for p ty anomalies
      ++ option_list
           (bucket_anomaly A sensitivity id (platform_value p +:+ ":" +:+ ty, ts)).
Proof.
  induction buckets as [|[key l] buckets IH]; intros anomalies Hnd Hlook; cbn [foldl].
  { simpl in Hlook. by rewrite lookup_empty in Hlook. }
  rewrite fmap_cons in Hnd. simpl in Hlook.
  apply NoDup_cons in Hnd as [Hkey Hnd].
  rewrite lookup_insert in Hlook.
  destruct (decide (key = platform_value p +:+ ":" +:+ ty)) as [->|Hne].
  - injection Hlook as ->. exists (uuid4 (length anomalies)).
    rewrite float_reported_for_other_buckets by done.
    rewrite inspect_bucket_passes. unfold reported_for at 1. rewrite filter_app.
    f_equal. fold (reported_for p ty
      (option_list (bucket_anomaly A sensitivity (uuid4 (length anomalies))
                                   (platform_value p +:+ ":" +:+ ty, ts)))).
    rewrite float_reported_for_bucket. by rewrite decide_True.
  - destruct (IH (inspect_bucket A uuid4 sensitivity anomalies (key, l)) Hnd Hlook)
      as [id Hid].
    exists id. rewrite Hid. f_equal.
    rewrite inspect_bucket_passes. unfold reported_for at 1. rewrite filter_app.
    fold (reported_for p ty anomalies).
    fold (reported_for p ty
            (option_list (bucket_anomaly A sensitivity (uuid4 (length anomalies)) (key, l)))).
    rewrite float_reported_for_bucket.
    rewrite decide_False by done. by rewrite app_nil_r.
Qed.

(** What [detect_anomalies] reports for one key. *)
Lemma float_detect_anomalies_reported p ty events :
  exists id,
    reported_for p ty (detect_anomalies A uuid4 sensitivity events)
    = if (length events <? 5)%nat then []
      else option_list
             (bucket_anomaly A sensitivity id
                (platform_value p +:+ ":" +:+ ty, Infer.key_timestamps p ty events)).
Proof.
  unfold detect_anomalies. destruct (length events <? 5)%nat; [by exists ""|].
  destruct (InferFacts.fill_buckets_spec events) as [Hnd Hlook].
  specialize (Hlook (platform_value p +:+ ":" +:+ ty)).
  rewrite InferFacts.string_key_timestamps_key in Hlook.
  destruct (Infer.key_timestamps p ty events) as [|t ts] eqn:Hts; simpl in Hlook.
  - exists "". apply not_elem_of_list_to_map in Hlook.
    by rewrite float_reported_for_other_buckets.
  - destruct (float_reported_for_buckets p ty _ _ [] Hnd Hlook) as [id Hid].
    exists id. by rewrite Hid.
Qed.

Lemma float_inspect_buckets_origin buckets : forall anomalies a,
  a ∈ foldl (inspect_bucket A uuid4 sensitivity) anomalies buckets ->
  a ∈ anomalies
  \/ exists key ts id, (key, ts) ∈ buckets
                       /\ bucket_anomaly A sensitivity id (key, ts) = Some a.
Proof.
  induction buckets as [|[key ts] buckets IH]; intros anomalies a Hin; cbn [foldl] in Hin.
  - by left.
  - apply IH in Hin as [Hin|(key' & ts' & id & Hb & Ha)].
    + rewrite inspect_bucket_passes in Hin. apply elem_of_app in Hin as [Hin|Hin].
      * by left.
      * right. exists key, ts, (uuid4 (length anomalies)).
        split; [apply list_elem_of_here|].
        destruct (bucket_anomaly _ _ _ _) as [a'|]; simpl in Hin.
        -- apply list_elem_of_singleton in Hin. by subst.
        -- by apply elem_of_nil in Hin.
    + right. exists key', ts', id. split; [by apply list_elem_of_further|done].
Qed.

(** Every reported anomaly is the record of a key of the input that passes
    the test, in a list of at least five events. *)
Lemma float_detect_anomalies_origin events a :
  a ∈ detect_anomalies A uuid4 sensitivity events ->
  (5 <= length events)%nat
  /\ exists p ty id,
       passes A (Infer.key_timestamps p ty events) = true
       /\ a = spike_record A sensitivity id (platform_value p) ty
                           (key_intervals A p ty events).
Proof.
  unfold detect_anomalies. destruct (Nat.ltb_spec (length events) 5) as [|Hlen].
  { intros Hin. by apply elem_of_nil in Hin. }
  intros Hin. split; [done|].
  apply float_inspect_buckets_origin in Hin as [Hin|(key & ts & id & Hb & Ha)].
  { by apply elem_of_nil in Hin. }
  destruct (InferFacts.fill_buckets_spec events) as [Hnd Hlook].
  apply (elem_of_list_to_map (M:=gmap string)) in Hb; [|done].
  rewrite Hlook in Hb. unfold Infer.string_key_timestamps in Hb.
  destruct (filter (fun e => Infer.bucket_key e = key) events) as [|e es] eqn:Hes;
    [discriminate|].
  assert (He : e ∈ filter (fun e => Infer.bucket_key e = key) events).
  { rewrite Hes. apply list_elem_of_here. }
  apply list_elem_of_filter in He as [Hkey He].
  exists (source_platform e), (event_type e), id.
  rewrite <- InferFacts.string_key_timestamps_key.
  fold (Infer.bucket_key e). rewrite Hkey. unfold Infer.string_key_timestamps.
  rewrite Hes. simpl in Hb. injection Hb as <-.
  unfold bucket_anomaly in Ha. cbn [fst snd] in Ha.
  destruct (passes A _) eqn:Hpass; [|done]. split; [done|].
  rewrite <- Hkey in Ha. unfold Infer.bucket_key in Ha.
  rewrite InferFacts.split_colon_key in Ha. simpl in Ha. injection Ha as <-.
  unfold key_intervals. rewrite <- InferFacts.string_key_timestamps_key.
  fold (Infer.bucket_key e). rewrite Hkey. unfold Infer.string_key_timestamps.
  by rewrite Hes.
Qed.

End Detector.

(** What one key adds, as a decision. *)
Lemma float_bucket_anomaly_spec (A : Arithmetic) (sensitivity : num A) id p ty
    (ts : list Z) :
  bucket_anomaly A sensitivity id (platform_value p +:+ ":" +:+ ty, ts)
  = if passes A ts
    then Some (spike_record A sensitivity id (platform_value p) ty
                            (intervals A (Py.sorted (fun t => t) ts)))
    else None.
Proof.
  unfold bucket_anomaly. cbn [fst snd]. destruct (passes A ts); [|done].
  by rewrite InferFacts.split_colon_key.
Qed.

(** C4. For every float arithmetic, every event list and every (platform,
    event-type) key, [detect_anomalies] reports one anomaly for the key
    exactly when the list has at least 5 events, the key has at least 3, the
    mean [mu] of its inter-arrival intervals is not zero, and the computed
    deviation [sigma = variance ** 0.5] and the most recent interval [r]
    pass the computed test [sigma > 0 and r < mu - 2 * sigma]; otherwise it
    reports nothing for the key.  The record carries the mean, the recent
    interval and the deviation rounded to one decimal, severity [high] when
    [r < mu * 0.2] and [medium] otherwise, and confidence
    [min(0.95, sensitivity + 0.05)], all as the arithmetic computes them. *)
Theorem detect_anomalies_computed_test_per_key (A : Arithmetic) (uuid4 : nat -> string)
    (sensitivity : num A) (events : list CorrelatedEvent) (p : PlatformType)
    (ty : string) :
  let xs := key_intervals A p ty events in
  let mu := mean A xs in
  let r := default mu (last xs) in
  let sigma := deviation A xs in
  let reported := reported_for p ty (detect_anomalies A uuid4 sensitivity events) in
  let examined := (5 <= length events)%nat
                  /\ (3 <= length (Infer.key_timestamps p ty events))%nat
                  /\ feq A mu (of_int A 0) = false in
  let spike := flt A (of_int A 0) sigma = true
               /\ flt A r (fsub A mu (fmul A (of_int A 2) sigma)) = true in
  (examined /\ spike ->
   exists a, reported = [a]
     /\ a_platform a = platform_value p /\ a_event_type a = ty
     /\ a_pattern a = "frequency_spike"
     /\ mean_interval_seconds a = round1 A mu
     /\ recent_interval_seconds a = round1 A r
     /\ std_dev a = round1 A sigma
     /\ a_confidence a
        = fmin A (literal A (95 # 100)) (fadd A sensitivity (literal A (5 # 100)))
     /\ a_severity a
        = if flt A r (fmul A mu (literal A (2 # 10))) then "high" else "medium")
  /\ (~ (examined /\ spike) -> reported = [])
  /\ ((length events < 5)%nat -> reported = [])
  /\ ((length (Infer.key_timestamps p ty events) < 3)%nat -> reported = [])
  /\ (feq A mu (of_int A 0) = true -> reported = []).
Proof.
  intros xs mu r sigma reported examined spike.
  destruct (float_detect_anomalies_reported A uuid4 sensitivity p ty events) as [id Hid].
  fold reported in Hid. rewrite float_bucket_anomaly_spec in Hid.
  fold (key_intervals A p ty events) in Hid. fold xs in Hid.
  assert (Hpass : examined /\ spike <->
            (length events <? 5)%nat = false
            /\ passes A (Infer.key_timestamps p ty events) = true).
  { unfold examined, spike, passes.
    fold (key_intervals A p ty events). fold xs mu r sigma.
    unfold frequency_spike.
    rewrite Nat.ltb_ge, !andb_true_iff, Nat.leb_le, negb_true_iff. tauto. }
  assert (Hnone : ~ (examined /\ spike) -> reported = []).
  { intros Hno. rewrite Hid. destruct (length events <? 5)%nat eqn:Hlen; [done|].
    destruct (passes A _) eqn:Hp; [|done]. exfalso. apply Hno, Hpass. done. }
  split; [|split; [done|split; [|split]]].
  - intros [Hlen Hp]%Hpass. rewrite Hid, Hlen, Hp. eexists. split; [done|].
    by repeat split.
  - intros Hfew. apply Hnone. intros [(Hlen & _) _]. lia.
  - intros Hfew. apply Hnone. intros [(_ & Hlen & _) _]. lia.
  - intros Hzero. apply Hnone. intros [(_ & _ & Hne) _]. congruence.
Qed.

(** The specification reads the test over the real numbers; the code
    computes it in floats.  At [six_alerts] the mean is 22/5, the variance 36/25 and the
    last interval 2, which is the mean minus two deviations and not less, so
    nothing is to be reported; in binary64 the threshold [4.4 - 2 * 1.2]
    comes out as the float next above 2, and the detector reports the key,
    whichever way [sum] adds. *)
Lemma detect_anomalies_reports_at_two_sigma :
  let xs := Infer.key_intervals MERAKI "alert" six_alerts in
  let mu := Infer.mean xs in
  let r := default mu (last xs) in
  let sigma2 := Infer.variance xs in
  let reported (A : Arithmetic) :=
    reported_for MERAKI "alert"
      (detect_anomalies A (fun _ => "id") (literal A (85 # 100)) six_alerts) in
  let record :=
    {| anomaly_id := "id"; a_platform := "meraki"; a_event_type := "alert";
       a_pattern := "frequency_spike";
       mean_interval_seconds := ofQ (44 # 10);
       recent_interval_seconds := ofQ 2;
       std_dev := ofQ (12 # 10);
       a_confidence := ofQ (9 # 10);
       a_severity := "medium" |} in
  length (Infer.key_timestamps MERAKI "alert" six_alerts) = 6%nat
  /\ ((mu == 22 # 5)%Q /\ (sigma2 == 36 # 25)%Q /\ (r == 2)%Q)
  /\ ~ Infer.frequency_spike_R (Q2R mu) (Q2R r) (Q2R sigma2)
  /\ reported binary64 = [record]
  /\ reported binary64_compensated = [record].
Proof.
  intros xs mu r sigma2 reported record. split; [done|].
  split; [by vm_compute|]. split.
  - rewrite <- InferFacts.frequency_spike_sqrt. by vm_compute.
  - split; vm_compute; reflexivity.
Qed.

(** The threshold of the scenario, in binary64 and over the rationals. *)
Example six_alerts_threshold :
  let xs := key_intervals binary64 MERAKI "alert" six_alerts in
  let threshold :=
    (mean binary64 xs - 2 * deviation binary64 xs)%float in
  (2 <? threshold)%float = true
  /\ threshold = PrimFloat.next_up 2.
Proof. by vm_compute. Qed.

(** [round(x, 1)] at a few floats: 0.25 is a tie and goes to the even 0.2;
    0.35 and 0.15 lie below the decimal they print as; the sign of a small
    negative number is kept. *)
Example round1_binary64_values :
  round1_binary64 (ofQ (25 # 100)) = ofQ (2 # 10)
  /\ round1_binary64 (ofQ (35 # 100)) = ofQ (3 # 10)
  /\ round1_binary64 (ofQ (15 # 100)) = ofQ (1 # 10)
  /\ round1_binary64 (ofQ (5 # 100)) = ofQ (1 # 10)
  /\ round1_binary64 (ofQ (2675 # 1000)) = ofQ (27 # 10)
  /\ round1_binary64 (ofQ (-4 # 100)) = (- 0)%float
  /\ round1_binary64 (ofQ (23599999999999998 # 1000000000000000)) = ofQ (236 # 10).
Proof. by vm_compute. Qed.

(** X10. Whatever [detect_anomalies] reports, in every float arithmetic, is
    the one record of a (platform, event-type) key of the input: the list
    has at least five events and the key at least three, the computed mean
    of its intervals is not zero and passes the computed test against the
    deviation and the most recent interval, and the record is the only one
    reported for that key. *)
Theorem detect_anomalies_reports_passing_keys (A : Arithmetic) (uuid4 : nat -> string)
    (sensitivity : num A) (events : list CorrelatedEvent) (a : Anomaly (num A)) :
  a ∈ detect_anomalies A uuid4 sensitivity events ->
  exists (p : PlatformType) (ty : string),
    let xs := key_intervals A p ty events in
    a_platform a = platform_value p /\ a_event_type a = ty
    /\ (5 <= length events)%nat
    /\ (3 <= length (Infer.key_timestamps p ty events))%nat
    /\ feq A (mean A xs) (of_int A 0) = false
    /\ frequency_spike A (mean A xs) (default (mean A xs) (last xs)) (deviation A xs)
       = true
    /\ mean_interval_seconds a = round1 A (mean A xs)
    /\ recent_interval_seconds a = round1 A (default (mean A xs) (last xs))
    /\ std_dev a = round1 A (deviation A xs)
    /\ reported_for p ty (detect_anomalies A uuid4 sensitivity events) = [a].
Proof.
  intros Hin.
  destruct (float_detect_anomalies_origin A uuid4 sensitivity events a Hin)
    as (Hlen & p & ty & id & Hpass & Ha).
  exists p, ty. intros xs.
  assert (Hrep : reported_for p ty (detect_anomalies A uuid4 sensitivity events) = [a]).
  { destruct (float_detect_anomalies_reported A uuid4 sensitivity p ty events)
      as [id' Hid].
    apply Nat.ltb_ge in Hlen as Hlen'. rewrite Hlen' in Hid.
    rewrite float_bucket_anomaly_spec, Hpass in Hid. simpl in Hid.
    assert (Hin' : a ∈ reported_for p ty (detect_anomalies A uuid4 sensitivity events)).
    { apply list_elem_of_filter. split; [|done]. by rewrite Ha. }
    rewrite Hid in Hin'. apply list_elem_of_singleton in Hin'. by rewrite Hid, Hin'. }
  unfold passes in Hpass. fold (key_intervals A p ty events) in Hpass. fold xs in Hpass.
  apply andb_true_iff in Hpass as [[Hthree Hzero]%andb_true_iff Hspike].
  apply Nat.leb_le in Hthree. apply negb_true_iff in Hzero.
  repeat split; try done; by rewrite Ha.
Qed.

(** The six alerts, in binary64. *)
Lemma detect_anomalies_reports_passing_keys_witness :
  let A := binary64 in
  let events := six_alerts in
  let a := spike_record A (literal A (85 # 100)) "id" "meraki" "alert"
                        (key_intervals A MERAKI "alert" events) in
  a ∈ detect_anomalies A (fun _ => "id") (literal A (85 # 100)) events
  /\ exists (p : PlatformType) (ty : string),
       let xs := key_intervals A p ty events in
       a_platform a = platform_value p /\ a_event_type a = ty
       /\ (5 <= length events)%nat
       /\ (3 <= length (Infer.key_timestamps p ty events))%nat
       /\ feq A (mean A xs) (of_int A 0) = false
       /\ frequency_spike A (mean A xs) (default (mean A xs) (last xs)) (deviation A xs)
          = true
       /\ mean_interval_seconds a = round1 A (mean A xs)
       /\ recent_interval_seconds a = round1 A (default (mean A xs) (last xs))
       /\ std_dev a = round1 A (deviation A xs)
       /\ reported_for p ty (detect_anomalies A (fun _ => "id") (literal A (85 # 100))
                                              events) = [a].
Proof.
  intros A events a.
  assert (Hin : a ∈ detect_anomalies A (fun _ => "id") (literal A (85 # 100)) events).
  { vm_compute. apply list_elem_of_here. }
  split; [exact Hin|].
  apply (detect_anomalies_reports_passing_keys A (fun _ => "id") (literal A (85 # 100))
           events a Hin).
Defined.

Lemma float_detect_anomalies_confidence (A : Arithmetic) uuid4 (sensitivity : num A)
    events :
  Forall (fun a => a_confidence a
                   = fmin A (literal A (95 # 100))
                          (fadd A sensitivity (literal A (5 # 100))))
         (detect_anomalies A uuid4 sensitivity events).
Proof.
  apply Forall_forall. intros a Hin.
  destruct (float_detect_anomalies_origin A uuid4 sensitivity events a Hin)
    as (_ & p & ty & id & _ & ->). done.
Qed.

(** X11. In every float arithmetic, all anomalies of one detection run carry
    the same confidence [c = min(0.95, sensitivity + 0.05)], so the
    confidence filter of [detect_anomalies_tool] keeps all of them when the
    computed comparison [min_confidence <= c] holds and none otherwise; what
    the tool reports is appended to the anomaly log, which it never
    shortens. *)
Theorem detect_anomalies_tool_all_or_nothing (A : Arithmetic) (uuid4 : nat -> string)
    (sensitivity : num A) (now : Z) (buffer : list CorrelatedEvent)
    (log : list (Anomaly (num A))) (lookback_minutes : Z) (min_confidence : num A) :
  let found :=
    detect_anomalies A uuid4 sensitivity
      (filter (fun e => now - lookback_minutes * 60 * 1000000 <= timestamp e) buffer) in
  let c := fmin A (literal A (95 # 100)) (fadd A sensitivity (literal A (5 # 100))) in
  let result :=
    detect_anomalies_tool A uuid4 sensitivity now buffer log lookback_minutes
                          min_confidence in
  result.1 = (if fle A min_confidence c then found else [])
  /\ result.2 = log ++ result.1.
Proof.
  intros found c result. subst result. unfold detect_anomalies_tool.
  fold found.
  pose proof (float_detect_anomalies_confidence A uuid4 sensitivity
                (filter (fun e => now - lookback_minutes * 60 * 1000000 <= timestamp e)
                        buffer)) as Hconf.
  fold found c in Hconf.
  assert (Hfilter : filter (fun a => fle A min_confidence (a_confidence a) = true) found
                    = if fle A min_confidence c then found else []).
  { destruct (fle A min_confidence c) eqn:Hle.
    - apply ListFacts.filter_all. eapply Forall_impl; [exact Hconf|].
      intros a ->. done.
    - apply ListFacts.filter_none. eapply Forall_impl; [exact Hconf|].
      intros a ->. by rewrite Hle. }
  rewrite Hfilter. destruct (fle A min_confidence c); [|by rewrite app_nil_r].
  destruct found; [by rewrite app_nil_r|done].
Qed.

(** With sensitivity 0.35 the confidence is [0.35 + 0.05], the float just
    below 0.4, and a caller asking for confidence 0.4 is shown nothing. *)
Example confidence_below_two_fifths :
  let A := binary64 in
  let c := fmin A (literal A (95 # 100))
                (fadd A (literal A (35 # 100)) (literal A (5 # 100))) in
  fle A (literal A (4 # 10)) c = false /\ c = PrimFloat.next_down (literal A (4 # 10)).
Proof. by vm_compute. Qed.

End InferFloatFacts.

Module GatewayStartupFacts.
Import Models Gateway GatewayStartup.

(** *** The endpoints after a load *)

Lemma add_entries_endpoints record caps : forall t,
  _endpoints (foldl (fun t cap => add_entry t (make_entry record cap)) t caps)
  = _endpoints t.
Proof. induction caps as [|cap caps IH]; intros t; simpl; [done|]. by rewrite IH. Qed.

Lemma load_records_endpoints records : forall t n,
  _endpoints (foldl load_record t records) !! n
  = match last (filter (fun r => Agntcy.name r = n) records) with
    | Some r => Some (Agntcy.endpoint r)
    | None => _endpoints t !! n
    end.
Proof.
  induction records as [|record records IH] using rev_ind; intros t n.
  - done.
  - rewrite foldl_app. cbn [foldl]. unfold load_record at 1.
    rewrite add_entries_endpoints. cbn [_endpoints].
    rewrite filter_app, filter_cons, lookup_insert.
    destruct (decide (Agntcy.name record = n)) as [Hn|Hn].
    + rewrite filter_nil. by rewrite last_snoc.
    + rewrite filter_nil, app_nil_r. apply IH.
Qed.

(** X15. After [load_from_oasf(records)], [all_endpoints()] maps the name of
    every record to the endpoint of the last record of that name, and holds
    no other name; nothing of the table's earlier endpoints is left. *)
Theorem all_endpoints_last_record (self : RoutingTable)
    (records : list Agntcy.OASFRecord) (now : Q) (n : string) :
  all_endpoints (load_from_oasf self records now) !! n
  = Agntcy.endpoint <$> last (filter (fun r => Agntcy.name r = n) records).
Proof.
  unfold all_endpoints, load_from_oasf. cbn [_endpoints].
  rewrite load_records_endpoints. cbn [_endpoints]. rewrite lookup_empty.
  by destruct (last _).
Qed.

(** *** The static fallback *)

Lemma static_records_no_entries environ :
  all_entries (_build_static_records environ) = [].
Proof. done. Qed.

Lemma fan_out_empty_table (t : RoutingTable) world role params :
  (forall n, get_tool t n = None) -> tools_for_role t role = [] ->
  _fan_out t world role params
  = (if Py.truthy (q_tool_name params)
     then NotFound (default "" (q_tool_name params)) else NoTools role, []).
Proof.
  intros Htool Hrole. unfold _fan_out. rewrite Htool, Hrole.
  destruct (Py.truthy (q_tool_name params)); [done|].
  by destruct (q_platforms params) as [[|p ps]|].
Qed.



(** *** Refresh *)

Lemma add_entry_same_routes t1 t2 e :
  same_routes t1 t2 -> same_routes (add_entry t1 e) (add_entry t2 e).
Proof.
  intros (H1 & H2 & H3 & H4). unfold add_entry, same_routes. cbn.
  by rewrite H1, H2, H3, H4.
Qed.

Lemma load_record_same_routes t1 t2 record :
  same_routes t1 t2 -> same_routes (load_record t1 record) (load_record t2 record).
Proof.
  intros (H1 & H2 & H3 & H4). unfold load_record.
  generalize (Agntcy.capabilities record). intros caps.
  assert (Hstart : same_routes
            {| _by_tool := _by_tool t1; _by_role := _by_role t1;
               _by_platform := _by_platform t1;
               _endpoints := <[Agntcy.name record := Agntcy.endpoint record]> (_endpoints t1);
               _last_refresh := _last_refresh t1 |}
            {| _by_tool := _by_tool t2; _by_role := _by_role t2;
               _by_platform := _by_platform t2;
               _endpoints := <[Agntcy.name record := Agntcy.endpoint record]> (_endpoints t2);
               _last_refresh := _last_refresh t2 |}).
  { unfold same_routes. cbn. by rewrite H1, H2, H3, H4. }
  revert Hstart. generalize
    {| _by_tool := _by_tool t1; _by_role := _by_role t1;
       _by_platform := _by_platform t1;
       _endpoints := <[Agntcy.name record := Agntcy.endpoint record]> (_endpoints t1);
       _last_refresh := _last_refresh t1 |}
    {| _by_tool := _by_tool t2; _by_role := _by_role t2;
       _by_platform := _by_platform t2;
       _endpoints := <[Agntcy.name record := Agntcy.endpoint record]> (_endpoints t2);
       _last_refresh := _last_refresh t2 |}.
  induction caps as [|cap caps IH]; intros u1 u2 Hu; cbn [foldl]; [done|].
  apply IH. by apply add_entry_same_routes.
Qed.

Lemma load_from_oasf_rebuilds self other records now :
  load_from_oasf self records now = load_from_oasf other records now.
Proof.
  unfold load_from_oasf.
  assert (Hsame : same_routes
            (foldl load_record
               {| _by_tool := ∅; _by_role := empty_by_role; _by_platform := ∅;
                  _endpoints := ∅; _last_refresh := _last_refresh self |} records)
            (foldl load_record
               {| _by_tool := ∅; _by_role := empty_by_role; _by_platform := ∅;
                  _endpoints := ∅; _last_refresh := _last_refresh other |} records)).
  { assert (Hstart : same_routes
              {| _by_tool := ∅; _by_role := empty_by_role; _by_platform := ∅;
                 _endpoints := ∅; _last_refresh := _last_refresh self |}
              {| _by_tool := ∅; _by_role := empty_by_role; _by_platform := ∅;
                 _endpoints := ∅; _last_refresh := _last_refresh other |}) by done.
    revert Hstart. generalize
      {| _by_tool := ∅; _by_role := empty_by_role; _by_platform := ∅;
         _endpoints := ∅; _last_refresh := _last_refresh self |}
      {| _by_tool := ∅; _by_role := empty_by_role; _by_platform := ∅;
         _endpoints := ∅; _last_refresh := _last_refresh other |}.
    induction records as [|record records IH]; intros u1 u2 Hu; cbn [foldl]; [done|].
    apply IH. by apply load_record_same_routes. }
  destruct Hsame as (H1 & H2 & H3 & H4). by rewrite H1, H2, H3, H4.
Qed.

(** X17. One turn of the refresh loop either leaves the routing table as it
    is, when the directory cannot be reached, answers with an error status
    or lists no record, or replaces it by a table that depends on the
    fresh records and the time of the refresh only: nothing of the earlier
    table survives a successful refresh. *)
Theorem refresh_keeps_or_rebuilds (routing : RoutingTable)
    (get : Agntcy.Outcome (list Agntcy.OASFRecord)) (now : Q) :
  (forall e, get = Agntcy.Raises e -> refresh routing get now = routing)
  /\ (forall resp, get = Agntcy.Answers resp ->
                   Agntcy.raise_for_status (Agntcy.status_code resp) = true ->
                   refresh routing get now = routing)
  /\ (Agntcy.discover get = [] -> refresh routing get now = routing)
  /\ (Agntcy.discover get <> [] ->
      forall other, refresh routing get now
                    = load_from_oasf other (Agntcy.discover get) now).
Proof.
  unfold refresh. split; [|split; [|split]].
  - by intros e ->.
  - intros resp -> Hstatus. cbn. by rewrite Hstatus.
  - by intros ->.
  - intros Hsome other. destruct (Agntcy.discover get) as [|r rs] eqn:Hd; [done|].
    apply load_from_oasf_rebuilds.
Qed.

(** *** Fan-out over the tools of a role *)

Lemma gather_calls (world : World) (tasks : list RoutingEntry) :
  gather ((fun e => fwd_call_tool world (endpoint e) (tool_name e) ∅) <$> tasks)
  = ((fun e => call_tool (world (endpoint e) (tool_name e) ∅) (endpoint e)) <$> tasks,
     (fun e => Post (endpoint e) (tool_name e) ∅) <$> tasks).
Proof.
  induction tasks as [|e tasks IH]; [done|].
  rewrite fmap_cons. cbn [gather]. rewrite IH.
  unfold mbind, mret, Traced_bind, Traced_ret, fwd_call_tool. cbn. by rewrite app_nil_r.
Qed.

(** X18. A role query without a tool name calls exactly the health, overview
    and status tools among the entries of the role (of the platforms asked
    for, when some are): one POST each, in the order of the index, with
    empty arguments.  The arguments of the caller are not forwarded and no
    other tool is called; the reply has one section per call, or lists the
    entries when none of them is such a tool. *)
Theorem fan_out_calls_summary_tools (routing : RoutingTable) (world : World)
    (role : MIGARole) (params : RoleQueryInput) :
  Py.truthy (q_tool_name params) = false ->
  let entries := candidates routing role (q_platforms params) in
  let tasks := summary_tools routing role (q_platforms params) in
  let (reply, trace) := _fan_out routing world role params in
  trace = (fun e => Post (endpoint e) (tool_name e) ∅) <$> tasks
  /\ reply = (if decide (entries = []) then NoTools role
              else if decide (tasks = []) then Listing role entries
              else Summary role
                     ((fun e => (e, call_tool (world (endpoint e) (tool_name e) ∅)
                                              (endpoint e))) <$> tasks)).
Proof.
  intros Hno entries tasks. subst entries tasks.
  unfold _fan_out, summary_tools. rewrite Hno. fold (candidates routing role (q_platforms params)).
  destruct (candidates routing role (q_platforms params)) as [|e entries] eqn:Hc.
  { by destruct (q_platforms params) as [[|p ps]|]. }
  rewrite decide_False by done.
  generalize (filter (fun e0 => is_summary_tool e0 = true) (e :: entries)).
  intros tasks. destruct tasks as [|task tasks]; [done|].
  rewrite decide_False by done. rewrite gather_calls.
  unfold mbind, mret, Traced_bind, Traced_ret. cbn [fst snd].
  rewrite app_nil_r. split; [done|]. f_equal.
  generalize (task :: tasks). clear. intros l.
  induction l as [|x l IH]; [done|]. rewrite !fmap_cons. cbn [zip zip_with].
  by rewrite <- IH.
Qed.

(** A health probe of the role's only tool. *)
Lemma fan_out_calls_summary_tools_witness :
  let routing := load_from_oasf init [backend "a" "http://a:1"] 0 in
  let params := {| q_query := ""; q_platforms := None; q_tool_name := None;
                   q_arguments := {[ "site" := "x" ]} |} in
  Py.truthy (q_tool_name params) = false
  /\ let entries := candidates routing OBSERVABILITY (q_platforms params) in
     let tasks := summary_tools routing OBSERVABILITY (q_platforms params) in
     let (reply, trace) := _fan_out routing answering OBSERVABILITY params in
     trace = (fun e => Post (endpoint e) (tool_name e) ∅) <$> tasks
     /\ reply = (if decide (entries = []) then NoTools OBSERVABILITY
                 else if decide (tasks = []) then Listing OBSERVABILITY entries
                 else Summary OBSERVABILITY
                        ((fun e => (e, call_tool (answering (endpoint e) (tool_name e) ∅)
                                                 (endpoint e))) <$> tasks)).
Proof.
  split; [reflexivity|].
  apply (fan_out_calls_summary_tools (load_from_oasf init [backend "a" "http://a:1"] 0)
           answering OBSERVABILITY
           {| q_query := ""; q_platforms := None; q_tool_name := None;
              q_arguments := {[ "site" := "x" ]} |}).
  reflexivity.
Defined.

End GatewayStartupFacts.

Module AgntcyWireFacts.
Import Models Agntcy AgntcyWire.

Lemma MIGARole_of_value r : MIGARole_of (role_value r) = Some r.
Proof. by destruct r. Qed.


Lemma mapM_roles (l : list MIGARole) : mapM MIGARole_of (role_value <$> l) = Some l.
Proof.
  rewrite (ListFacts.mapM_fmap_Some _ _ (fun r => r)); [by rewrite list_fmap_id|].
  apply MIGARole_of_value.
Qed.

Lemma platform_of_to_dict (self : OASFRecord) :
  platform_of {| at_platform := platform_value <$> platform self;
                 at_roles := Some (role_value <$> roles self);
                 at_transport := Some (transport self);
                 at_endpoint := Some (endpoint self) |}
  = Some (platform self).
Proof.
  unfold platform_of. cbn. destruct (platform self) as [p|]; [|done]. cbn.
  rewrite InferLifespanFacts.PlatformType_of_value. by destruct p.
Qed.

Lemma capability_of_to_dict platform c :
  capability_of platform
    {| td_name := Some (cap_tool_name c);
       td_description := Some (cap_description c);
       td_roles := Some (role_value <$> cap_roles c);
       td_read_only := Some (cap_read_only c);
       td_destructive := Some (cap_destructive c);
       td_requires_approval := Some (cap_requires_approval c) |}
  = Some {| cap_tool_name := cap_tool_name c; cap_description := cap_description c;
            cap_roles := cap_roles c; cap_read_only := cap_read_only c;
            cap_destructive := cap_destructive c;
            cap_requires_approval := cap_requires_approval c;
            cap_platform := default INFER platform |}.
Proof. unfold capability_of. cbn. by rewrite mapM_roles. Qed.

Lemma set_platform_id (p : PlatformType) (caps : list PlatformCapability) :
  (fun c =>
     {| cap_tool_name := cap_tool_name c; cap_description := cap_description c;
        cap_roles := cap_roles c; cap_read_only := cap_read_only c;
        cap_destructive := cap_destructive c;
        cap_requires_approval := cap_requires_approval c;
        cap_platform := p |}) <$> caps = caps
  <-> Forall (fun c => cap_platform c = p) caps.
Proof.
  induction caps as [|c caps IH]; [done|]. rewrite fmap_cons, Forall_cons, <- IH.
  split.
  - intros [= Hc Hcaps]. split; [|done]. by rewrite <- Hc at 1.
  - intros [<- ->]. by destruct c.
Qed.

(** X19. Round trip through the wire form: [from_dict(to_dict(r))] succeeds
    and gives [r] back except for the platform of its capabilities, which
    [to_dict] does not write and [from_dict] takes from the record ([infer]
    when the record has none).  The round trip is exact when every
    capability has the platform of its record. *)
Theorem from_dict_to_dict (r : OASFRecord) :
  from_dict (to_dict r)
  = Some (with_capability_platform (default INFER (platform r)) r)
  /\ (from_dict (to_dict r) = Some r <->
      Forall (fun c => cap_platform c = default INFER (platform r)) (capabilities r)).
Proof.
  assert (Hround : from_dict (to_dict r)
                   = Some (with_capability_platform (default INFER (platform r)) r)).
  { unfold from_dict, to_dict.
    cbn [rd_attributes rd_tools default from_option Datatypes.id at_roles].
    rewrite platform_of_to_dict. cbn [mbind option_bind].
    rewrite mapM_roles. cbn [mbind option_bind].
    rewrite (ListFacts.mapM_fmap_Some _ _ _ _ (capability_of_to_dict (platform r))).
    done. }
  split; [done|]. rewrite Hround. clear Hround.
  destruct r as [n v d p sk dm caps rl tr ep]. unfold with_capability_platform.
  cbn [name version description platform skills domains capabilities roles transport
       endpoint].
  rewrite <- (set_platform_id (default INFER p) caps). split.
  - by intros [= ->].
  - by intros ->.
Qed.


(** *** When [from_dict] raises *)


Lemma MIGARole_of_None value : MIGARole_of value = None <-> unknown_role value.
Proof.
  unfold MIGARole_of, unknown_role. rewrite ListFacts.head_filter_None. split.
  - intros Hnone r. apply Hnone. destruct r; unfold all_roles;
      repeat first [apply list_elem_of_here|apply list_elem_of_further].
  - intros Hall r _. apply Hall.
Qed.

Lemma PlatformType_of_None value :
  InferLifespan.PlatformType_of value = None
  <-> forall p : PlatformType, platform_value p <> value.
Proof.
  unfold InferLifespan.PlatformType_of. rewrite ListFacts.head_filter_None. split.
  - intros Hnone p. apply Hnone. destruct p; unfold all_platforms;
      repeat first [apply list_elem_of_here|apply list_elem_of_further].
  - intros Hall p _. apply Hall.
Qed.

Lemma platform_of_None attrs :
  platform_of attrs = None <->
  exists value, at_platform attrs = Some value /\ unknown_platform value.
Proof.
  unfold platform_of, unknown_platform. destruct (at_platform attrs) as [value|].
  - destruct (String.eqb_spec value "") as [->|Hne].
    + split; [done|]. by intros (? & [= <-] & ? & _).
    + rewrite fmap_None, PlatformType_of_None. split.
      * intros Hall. by exists value.
      * by intros (? & [= <-] & _ & ?).
  - split; [done|]. by intros (? & ? & _).
Qed.

Lemma capability_of_None platform t :
  capability_of platform t = None <->
  td_name t = None
  \/ exists value, value ∈ default [] (td_roles t) /\ unknown_role value.
Proof.
  unfold capability_of. destruct (td_name t) as [tool_name|]; cbn.
  - destruct (mapM MIGARole_of (default [] (td_roles t))) as [roles|] eqn:Hroles; cbn.
    + split; [done|]. intros [|(value & Hin & Hunknown)]; [done|].
      assert (Hnone : mapM MIGARole_of (default [] (td_roles t)) = None).
      { apply ListFacts.mapM_None. exists value. split; [done|].
        by apply MIGARole_of_None. }
      congruence.
    + split; [|done]. intros _. right.
      apply ListFacts.mapM_None in Hroles as (value & Hin & Hnone).
      exists value. split; [done|]. by apply MIGARole_of_None.
  - split; [by left|done].
Qed.

(** X20. On a dict whose keys, where present, hold values of the types
    [to_dict] writes, [from_dict] raises exactly when the platform of the
    attributes is neither empty nor the value of a [PlatformType], when a
    role of the attributes or of a tool is not the value of a [MIGARole], or
    when a tool has no name; every other key may be absent. *)
Theorem from_dict_raises_iff (data : RecordDict) :
  let attrs :=
    default {| at_platform := None; at_roles := None; at_transport := None;
               at_endpoint := None |} (rd_attributes data) in
  from_dict data = None <->
  (exists value, at_platform attrs = Some value /\ unknown_platform value)
  \/ (exists value, value ∈ default [] (at_roles attrs) /\ unknown_role value)
  \/ (exists t, t ∈ default [] (rd_tools data)
                /\ (td_name t = None
                    \/ exists value, value ∈ default [] (td_roles t)
                                     /\ unknown_role value)).
Proof.
  intros attrs. unfold from_dict. fold attrs.
  rewrite <- platform_of_None.
  destruct (platform_of attrs) as [platform|]; cbn; [|by split; [left|]].
  destruct (mapM MIGARole_of (default [] (at_roles attrs))) as [roles|] eqn:Hroles; cbn.
  - destruct (mapM (capability_of platform) (default [] (rd_tools data)))
      as [caps|] eqn:Hcaps; cbn.
    + split; [done|]. intros [|[(value & Hin & Hunknown)|(t & Hin & Ht)]]; [done| |].
      * assert (Hnone : mapM MIGARole_of (default [] (at_roles attrs)) = None).
        { apply ListFacts.mapM_None. exists value. split; [done|].
          by apply MIGARole_of_None. }
        congruence.
      * assert (Hnone : mapM (capability_of platform) (default [] (rd_tools data)) = None).
        { apply ListFacts.mapM_None. exists t. split; [done|].
          by apply capability_of_None. }
        congruence.
    + split; [|done]. intros _. right. right.
      apply ListFacts.mapM_None in Hcaps as (t & Hin & Hnone).
      exists t. split; [done|]. by apply capability_of_None in Hnone.
  - split; [|done]. intros _. right. left.
    apply ListFacts.mapM_None in Hroles as (value & Hin & Hnone).
    exists value. split; [done|]. by apply MIGARole_of_None.
Qed.

(** X21. Discovery is all or nothing: when one record of the directory's
    answer makes [from_dict] raise, [discover] returns the empty list and
    the records that could be read are lost with it; when none does, it
    returns one record per dict, in the order of the answer. *)
Theorem discover_one_bad_record_discards_all (status : Z) (dicts : list RecordDict) :
  let get := Answers {| status_code := status; json := Some dicts |} in
  ((exists d, d ∈ dicts /\ from_dict d = None) -> discover_records get = [])
  /\ ((forall d, d ∈ dicts -> is_Some (from_dict d)) ->
      raise_for_status status = false ->
      Some <$> discover_records get = from_dict <$> dicts).
Proof.
  intros get. subst get. unfold discover_records, discover.
  cbn [status_code json mbind option_bind]. split.
  - intros Hbad. apply ListFacts.mapM_None in Hbad. rewrite Hbad.
    by destruct (raise_for_status status).
  - intros Hall ->.
    destruct (mapM from_dict dicts) as [records|] eqn:Hm.
    + cbn. apply mapM_Some in Hm. clear Hall.
      induction Hm as [|d r dicts records Hd _ IH]; [done|].
      by rewrite !fmap_cons, Hd, IH.
    + apply ListFacts.mapM_None in Hm as (d & Hin & Hnone).
      destruct (Hall d Hin) as [r Hr]. congruence.
Qed.

End AgntcyWireFacts.

Module ClientsFacts.
Import Clients.

Ltac bools :=
  repeat match goal with
    | H : negb _ = true |- _ => apply negb_true_iff in H
    | H : negb _ = false |- _ => apply negb_false_iff in H
    | H : _ && _ = true |- _ => apply andb_true_iff in H as [? ?]
    | H : _ && _ = false |- _ => apply andb_false_iff in H
    | H : _ || _ = true |- _ => apply orb_true_iff in H
    | H : _ || _ = false |- _ => apply orb_false_iff in H as [? ?]
    | H : (_ =? _) = true |- _ => apply Z.eqb_eq in H
    | H : (_ =? _) = false |- _ => apply Z.eqb_neq in H
    | H : (_ <=? _) = true |- _ => apply Z.leb_le in H
    | H : (_ <=? _) = false |- _ => apply Z.leb_gt in H
    | H : (_ <? _)%nat = true |- _ => apply Nat.ltb_lt in H
    | H : (_ <? _)%nat = false |- _ => apply Nat.ltb_ge in H
    | H : _ \/ _ |- _ => destruct H
    end.

Ltac crunch :=
  repeat case_match; simplify_eq; bools; unfold MAX_RETRIES in *;
  try done; try lia.

Section Request.
Context {A : Type}.
Variable platform_name : string.
Variables method path : string.

Lemma attempt_once_Return (outcome : Outcome A) attempt last_err value :
  attempt_once platform_name path outcome attempt last_err = Return value
  <-> success outcome value.
Proof.
  unfold attempt_once, success, Agntcy.raise_for_status.
  destruct outcome as [resp|e].
  - split.
    + intros Hret. exists resp. split; [done|]. crunch.
    + intros (resp' & [= <-] & Hok & Hvalue). crunch.
      all: destruct Hvalue as [[v Hv] ->]; congruence.
  - split.
    + intros Hret. crunch.
    + by intros (resp & ? & _).
Qed.

Lemma attempt_once_Continue (outcome : Outcome A) attempt last_err :
  (attempt < 2)%nat ->
  (exists slept last_err',
      attempt_once platform_name path outcome attempt last_err
      = Continue slept last_err')
  <-> transient outcome.
Proof.
  intros Hattempt. unfold attempt_once, transient, Agntcy.raise_for_status.
  destruct outcome as [resp|e].
  - split.
    + intros (slept & last_err' & Hstep). crunch.
      all: try (left; split; [done|congruence]); try (right; lia).
    + intros Htransient. crunch; try by eexists _, _.
      all: try match goal with H : _ /\ _ |- _ => destruct H end; try done; try lia.
  - split.
    + intros (slept & last_err' & Hstep). crunch.
    + intros Htimeout. rewrite Htimeout. crunch; by eexists _, _.
Qed.

Lemma attempt_once_Raise (outcome : Outcome A) attempt last_err e :
  attempt_once platform_name path outcome attempt last_err = Raise e ->
  (attempt < 2)%nat -> ~ transient outcome.
Proof.
  intros Hraise Hattempt Htransient.
  apply (attempt_once_Continue _ _ last_err Hattempt) in Htransient
    as (slept & last_err' & Hstep).
  congruence.
Qed.

Lemma attempts_cons (http : nat -> Outcome A) attempt todo last_err :
  attempts platform_name method path http (attempt :: todo) last_err
  = match attempt_once platform_name path (http attempt) attempt last_err with
    | Return value => (Returned value, [Requested method path])
    | Raise e => (Raised e, [Requested method path])
    | Continue slept last_err' =>
        ((attempts platform_name method path http todo last_err').1,
         Requested method path :: (Slept <$> slept)
           ++ (attempts platform_name method path http todo last_err').2)
    end.
Proof.
  cbn [attempts]. destruct (attempt_once _ _ _ _ _); try done.
  by destruct (attempts _ _ _ _ _ _).
Qed.




End Request.


End ClientsFacts.

Module AuthFacts.
Import Auth.

Lemma get_put_fresh (cache : _TokenCache) (key token : string) (expires_in : Z)
    (t0 t1 : Q) :
  (t1 < t0 + inject_Z expires_in - 60)%Q ->
  get (put cache key token expires_in t0) key t1
  = (Some token, put cache key token expires_in t0).
Proof.
  intros Hlt. unfold get, put, _TokenCache. rewrite lookup_insert_eq.
  apply PyFacts.Qlt_bool_iff in Hlt. by rewrite Hlt.
Qed.


Section GetToken.
Variable sha256_hexdigest : string -> string.


End GetToken.


End AuthFacts.

Module BotFacts.
Import Nlp Bot.

Section Recognized.

Variable Text : Type.
Variable strip : Text -> Text.
Variable lower : Text -> Text.
Variable search : string -> Text -> bool.

Lemma recognize_intent_shape (text : Text) :
  let r := recognize_intent strip lower search text in
  Nlp.tool_name r = None
  /\ Py.truthy (platform r) = bool_decide (is_Some (platform r))
  /\ (category r = UNKNOWN ->
      confidence r = 0%Q
      /\ forall row, row ∈ INTENT_PATTERNS ->
           search (row_pattern row) (lower (strip text)) = false).
Proof.
  intros r. subst r. unfold recognize_intent.
  destruct (scan search INTENT_PATTERNS text (lower (strip text))) as [best|] eqn:Hscan.
  - destruct (NlpFacts.scan_some _ _ _ _ _ _ Hscan) as (i & row & (Hi & Hm & _) & ->).
    split; [done|]. cbn [platform category intent_of].
    apply list_elem_of_lookup_2 in Hi. clear -Hi.
    unfold INTENT_PATTERNS in Hi.
    repeat (apply elem_of_cons in Hi as [->|Hi]; [by split|]).
    by apply elem_of_nil in Hi.
  - split; [done|]. split; [done|]. intros _. split; [done|]. intros row Hin.
    by eapply NlpFacts.scan_none.
Qed.

Context {E : Type}.
Variable webex_accepts : nat -> bool.
Variable gateway : string -> CallArguments E -> Agntcy.Outcome GatewayBody.
Variable entities : Text -> E.

(** X27. What the bot does with a message, whatever WebEx and the gateway
    answer.  It calls the gateway at most once, with the tool of the
    recognised category and never with a [tool_name] argument, so a chat
    message never reaches a platform tool directly.  A text no pattern
    matches is answered with the "not sure" message alone: the fallback to
    [observability] is never taken.  A help intent is answered with the help
    text alone. *)
Theorem handle_recognized_intent (text : Text) (room_id : string) :
  let intent := recognize_intent strip lower search text in
  let effects := (handle_intent webex_accepts gateway intent (entities text) room_id).2 in
  (forall tool arguments, (tool, arguments) ∈ calls effects ->
     calls effects = [(tool, arguments)]
     /\ INTENT_TO_TOOL (category intent) = Some tool
     /\ arg_tool_name arguments = None
     /\ arg_platforms arguments = (fun p => [p]) <$> platform intent
     /\ arg_entities arguments = entities text
     /\ messages effects !! 0%nat = Some Checking)
  /\ (category intent = UNKNOWN -> effects = [Send room_id NotSure])
  /\ (category intent = HELP -> effects = [Send room_id Help])
  /\ (category intent <> UNKNOWN -> category intent <> HELP ->
      webex_accepts 0%nat = true -> length (calls effects) = 1%nat).
Proof.
  intros intent effects. subst effects.
  destruct (recognize_intent_shape text) as (Htool & Hplatform & Hunknown).
  fold intent in Htool, Hplatform, Hunknown. clearbody intent.
  unfold handle_intent. rewrite Htool, Hplatform. cbn [Py.truthy].
  destruct (decide (category intent = HELP)) as [Hhelp|Hhelp].
  { cbn. split; [intros ? ? Hin; by apply elem_of_nil in Hin|].
    split; [congruence|]. split; [done|]. congruence. }
  destruct (decide (category intent = UNKNOWN)) as [Hunk|Hunk].
  { destruct (Hunknown Hunk) as [-> _]. cbn.
    split; [intros ? ? Hin; by apply elem_of_nil in Hin|].
    split; [done|]. split; [congruence|]. congruence. }
  assert (Htool_of : exists tool, INTENT_TO_TOOL (category intent) = Some tool).
  { destruct (category intent); try done; by eexists. }
  destruct Htool_of as [tool Htool_of]. rewrite Htool_of. cbn [default from_option Datatypes.id].
  destruct (webex_accepts 0%nat); cbn.
  - split.
    + intros tool' arguments Hin. apply list_elem_of_singleton in Hin as [= -> ->].
      cbn. repeat (split; [done|]). split; [|done].
      by destruct (platform intent).
    + split; [done|]. split; [done|]. done.
  - split; [intros ? ? Hin; by apply elem_of_nil in Hin|].
    split; [done|]. split; [done|]. done.
Qed.

End Recognized.

End BotFacts.
